(** * sol-trader: the paper-trading engine, embedded and verified

    Two programs are embedded here.

    - [Auto]   : the autonomous bot (the [TradingBot] component): rolling
                 price history, RSI, signal classifier, signal-driven opens,
                 stop-loss / take-profit / signal exits.
    - [Manual] : the manual simulator of [src/app/page.tsx] (the [Home]
                 component): user-driven opens and closes, stop-loss /
                 take-profit exits.

    Conventions of the embedding.

    - A JavaScript [number] is an exact rational ([Q]); rounding, [NaN] and
      the infinities of IEEE doubles are outside the model.  Equations
      between computed amounts are stated with [==] ([Qeq]).
    - [Date.now()] / [new Date()] are an explicit clock reading [now : Z].
    - A React component function closes over the state values of the render
      it was created in ([balance], [positions], [tokens], [isRunning]) and
      changes state only through queued updaters ([setX (prev => ...)]).
      A handler that reads such a value takes the render it belongs to as a
      read-only argument [r] and transforms the pending state [st]: an
      updater reads [st], a closure variable reads [r].  The mutable ref
      [priceHistory] is read and written in [st].
    - [Manual.run] handles every event in the render that shows the
      committed state: the simulator's tick reads no closure variable and its
      buttons are those of the latest render.
    - For the bot, [Auto.calls] is a sequence of handler calls each with the
      render its closure belongs to, unconstrained; [Auto.run] is the
      component as it is wired, where every [fetchPrices] that is called
      belongs to a render chosen by the mount effect or by [toggleBot]. *)

From Stdlib Require Import QArith Qabs Lqa Lia ZArith.
From stdpp Require Import base option list strings gmap.

Local Open Scope Q_scope.

(** ** JavaScript numbers as rationals *)

Module Num.

(** [x < y] on numbers, as a boolean. *)
Definition Qlt_bool (x y : Q) : bool := negb (Qle_bool y x).

(** [x?.f || d] for a numeric field: a missing value and the falsy
    number [0] both give the default. *)
Definition or_else (x : option Q) (d : Q) : Q :=
  match x with
  | Some v => if Qeq_bool v 0 then d else v
  | None => d
  end.

(** [Math.min]. *)
Definition min (x y : Q) : Q := if Qle_bool x y then x else y.

End Num.

(** ** The autonomous bot *)

Module Auto.

Import Num.

Inductive Signal := BUY | SELL | HOLD.

Definition Signal_eqb (a b : Signal) : bool :=
  match a, b with
  | BUY, BUY | SELL, SELL | HOLD, HOLD => true
  | _, _ => false
  end.

Inductive Result := WIN | LOSS.

(** The [reason] of a trade: ['TP' | 'SL' | 'SIGNAL']. *)
Inductive Reason := TP | SL | SIGNAL.

(** The [type] of a log entry. *)
Inductive LogType :=
  LogINFO | LogBUY | LogSELL | LogTP | LogSL | LogSIGNAL.

Definition LogType_of_Reason (r : Reason) : LogType :=
  match r with TP => LogTP | SL => LogSL | SIGNAL => LogSIGNAL end.

Module Token.
Record t := mk {
  symbol : string;
  name : string;
  price : Q;
  prevPrice : Q;
  change24h : Q;
  rsi : Q;
  signal : Signal
}.
End Token.

(** The constant field [side: 'LONG'] is left out of positions and trades. *)
Module Position.
Record t := mk {
  id : Z;
  symbol : string;
  entryPrice : Q;
  currentPrice : Q;
  quantity : Q;
  valueEUR : Q;
  pnl : Q;
  pnlPercent : Q;
  stopLoss : Q;
  takeProfit : Q;
  openedAt : Z
}.
End Position.

Module Trade.
Record t := mk {
  id : Z;
  symbol : string;
  entryPrice : Q;
  exitPrice : Q;
  quantity : Q;
  pnl : Q;
  pnlPercent : Q;
  result : Result;
  reason : Reason;
  openedAt : Z;
  closedAt : Z
}.
End Trade.

(** A log entry without its message text (the text only formats values that
    the state already holds). *)
Module LogEntry.
Record t := mk { time : Z; type : LogType }.
End LogEntry.

Module TokenConfig.
Record t := mk { id : string; symbol : string; name : string }.
End TokenConfig.

Definition TOKENS_CONFIG : list TokenConfig.t :=
  [ TokenConfig.mk "solana" "SOL" "Solana";
    TokenConfig.mk "bonk" "BONK" "Bonk";
    TokenConfig.mk "dogwifcoin" "WIF" "dogwifhat";
    TokenConfig.mk "jupiter-exchange-solana" "JUP" "Jupiter";
    TokenConfig.mk "popcat" "POPCAT" "Popcat";
    TokenConfig.mk "render-token" "RENDER" "Render" ].

(** [CONFIG] *)
Module CONFIG.
Definition INITIAL_BALANCE : Q := 1000.
Definition POSITION_SIZE : Q := 15 # 100.
Definition MAX_POSITIONS : nat := 4.
Definition STOP_LOSS : Q := 3 # 100.
Definition TAKE_PROFIT : Q := 8 # 100.
Definition RSI_BUY : Q := 35.
Definition RSI_SELL : Q := 70.
Definition MIN_CHANGE_BUY : Q := -3.
End CONFIG.

(** One entry of the provider's answer: [data[id].usd] and
    [data[id].usd_24h_change], either of which may be missing. *)
Module Quote.
Record t := mk { usd : option Q; usd_24h_change : option Q }.
End Quote.

(** The component state ([useState] cells) and the [priceHistory] ref. *)
Record State := mkState {
  balance : Q;
  positions : list Position.t;
  trades : list Trade.t;
  tokens : list Token.t;
  logs : list LogEntry.t;
  isRunning : bool;
  lastUpdate : option Z;
  priceHistory : gmap string (list Q)
}.

(** [setX (prev => f prev)] for each cell. *)
Definition setBalance (f : Q -> Q) (st : State) : State :=
  mkState (f (balance st)) (positions st) (trades st) (tokens st) (logs st)
          (isRunning st) (lastUpdate st) (priceHistory st).

Definition setPositions (f : list Position.t -> list Position.t) (st : State) : State :=
  mkState (balance st) (f (positions st)) (trades st) (tokens st) (logs st)
          (isRunning st) (lastUpdate st) (priceHistory st).

Definition setTrades (f : list Trade.t -> list Trade.t) (st : State) : State :=
  mkState (balance st) (positions st) (f (trades st)) (tokens st) (logs st)
          (isRunning st) (lastUpdate st) (priceHistory st).

Definition setTokens (f : list Token.t -> list Token.t) (st : State) : State :=
  mkState (balance st) (positions st) (trades st) (f (tokens st)) (logs st)
          (isRunning st) (lastUpdate st) (priceHistory st).

Definition setLogs (f : list LogEntry.t -> list LogEntry.t) (st : State) : State :=
  mkState (balance st) (positions st) (trades st) (tokens st) (f (logs st))
          (isRunning st) (lastUpdate st) (priceHistory st).

Definition setIsRunning (b : bool) (st : State) : State :=
  mkState (balance st) (positions st) (trades st) (tokens st) (logs st)
          b (lastUpdate st) (priceHistory st).

Definition setLastUpdate (d : option Z) (st : State) : State :=
  mkState (balance st) (positions st) (trades st) (tokens st) (logs st)
          (isRunning st) d (priceHistory st).

Definition setPriceHistory (h : gmap string (list Q)) (st : State) : State :=
  mkState (balance st) (positions st) (trades st) (tokens st) (logs st)
          (isRunning st) (lastUpdate st) h.

Definition addLog (type : LogType) (now : Z) (st : State) : State :=
  setLogs (fun prev => take 100 (LogEntry.mk now type :: prev)) st.

(** [prices[i]]; every index the code reads is in range. *)
Definition at_index (prices : list Q) (i : nat) : Q := nth i prices 0.

(** The body of the [for] loop of [calculateRSI], on the accumulator
    [(gains, losses)]. *)
Definition rsi_loop_body (prices : list Q) (acc : Q * Q) (i : nat) : Q * Q :=
  let '(gains, losses) := acc in
  let change := at_index prices i - at_index prices (i - 1) in
  if Qlt_bool 0 change then (gains + change, losses)
  else (gains, losses - change).

(** The loop [for (i = prices.length - period; i < prices.length; i++)]. *)
Definition rsi_loop (prices : list Q) (period : nat) : Q * Q :=
  fold_left (rsi_loop_body prices)
            (seq (length prices - period) period) (0, 0).

Definition calculateRSI (prices : list Q) (period : nat) : Q :=
  if (length prices <? period + 1)%nat then 50
  else
    let '(gains, losses) := rsi_loop prices period in
    let avgGain := gains / inject_Z (Z.of_nat period) in
    let avgLoss := losses / inject_Z (Z.of_nat period) in
    if Qeq_bool avgLoss 0 then 100
    else
      let rs := avgGain / avgLoss in
      100 - 100 / (1 + rs).

Definition getSignal (rsi change24h : Q) : Signal :=
  if Qlt_bool rsi CONFIG.RSI_BUY && Qlt_bool change24h CONFIG.MIN_CHANGE_BUY
  then BUY
  else if Qlt_bool CONFIG.RSI_SELL rsi then SELL
  else HOLD.

(** [priceHistory.current[symbol]], created empty on first use, gets the new
    price pushed and its oldest entry shifted out beyond 50 entries. *)
Definition pushHistory (h : gmap string (list Q)) (symbol : string) (price : Q)
  : gmap string (list Q) :=
  let pushed := default [] (h !! symbol) ++ [price] in
  <[symbol := if (50 <? length pushed)%nat then tail pushed else pushed]> h.

(** The callback of [TOKENS_CONFIG.map] in [fetchPrices]; the accumulator
    holds the tokens built so far and the history ref. *)
Definition updateToken (r : State) (data : gmap string Quote.t)
  (acc : list Token.t * gmap string (list Q)) (t : TokenConfig.t)
  : list Token.t * gmap string (list Q) :=
  let '(out, h) := acc in
  let price := or_else (data !! TokenConfig.id t ≫= Quote.usd) 0 in
  let change24h := or_else (data !! TokenConfig.id t ≫= Quote.usd_24h_change) 0 in
  let h' := pushHistory h (TokenConfig.symbol t) price in
  let rsi := calculateRSI (default [] (h' !! TokenConfig.symbol t)) 14 in
  let signal := getSignal rsi change24h in
  let prevPrice :=
    or_else (Token.price <$>
               find (fun tok => String.eqb (Token.symbol tok) (TokenConfig.symbol t))
                    (tokens r)) price in
  (out ++ [Token.mk (TokenConfig.symbol t) (TokenConfig.name t)
                    price prevPrice change24h rsi signal], h').

Definition openPosition (r : State) (token : Token.t) (now : Z) (st : State) : State :=
  let tradeValue := min (balance r * CONFIG.POSITION_SIZE) (balance r - 10) in
  if Qlt_bool tradeValue 20 then st
  else
    let quantity := tradeValue / Token.price token in
    let position :=
      Position.mk now (Token.symbol token) (Token.price token) (Token.price token)
                  quantity tradeValue 0 0
                  (Token.price token * (1 - CONFIG.STOP_LOSS))
                  (Token.price token * (1 + CONFIG.TAKE_PROFIT))
                  now in
    addLog LogBUY now
      (setBalance (fun prev => prev - tradeValue)
         (setPositions (fun prev => prev ++ [position]) st)).

(** The callback of [currentTokens.forEach] in [processSignals]. *)
Definition processSignal (r : State) (now : Z) (st : State) (token : Token.t) : State :=
  if Signal_eqb (Token.signal token) BUY && Qlt_bool 0 (Token.price token) then
    let hasPosition :=
      existsb (fun p => String.eqb (Position.symbol p) (Token.symbol token))
              (positions r) in
    if negb hasPosition
       && (length (positions r) <? CONFIG.MAX_POSITIONS)%nat
       && Qlt_bool 50 (balance r)
    then openPosition r token now st
    else st
  else st.

Definition processSignals (r : State) (currentTokens : list Token.t) (now : Z)
  (st : State) : State :=
  fold_left (processSignal r now) currentTokens st.

Definition closeTrade (pos : Position.t) (exitPrice : Q) (reason : Reason)
  (now : Z) (st : State) : State :=
  let pnl := (exitPrice - Position.entryPrice pos) * Position.quantity pos in
  let pnlPercent :=
    ((exitPrice - Position.entryPrice pos) / Position.entryPrice pos) * 100 in
  let returnValue := Position.valueEUR pos + pnl in
  let trade :=
    Trade.mk (Position.id pos) (Position.symbol pos) (Position.entryPrice pos)
             exitPrice (Position.quantity pos) pnl pnlPercent
             (if Qle_bool 0 pnl then WIN else LOSS) reason
             (Position.openedAt pos) now in
  addLog (LogType_of_Reason reason) now
    (setBalance (fun prev => prev + returnValue)
       (setTrades (fun prev => trade :: prev) st)).

(** [{...pos, currentPrice, pnl, pnlPercent}] *)
Definition remark (pos : Position.t) (currentPrice pnl pnlPercent : Q) : Position.t :=
  Position.mk (Position.id pos) (Position.symbol pos) (Position.entryPrice pos)
              currentPrice (Position.quantity pos) (Position.valueEUR pos)
              pnl pnlPercent (Position.stopLoss pos) (Position.takeProfit pos)
              (Position.openedAt pos).

(** The callback of [prev.forEach] in [checkPositions]; the accumulator holds
    [stillOpen] and the state that [closeTrade] updates. *)
Definition checkPosition (currentTokens : list Token.t) (now : Z)
  (acc : list Position.t * State) (pos : Position.t) : list Position.t * State :=
  let '(stillOpen, st) := acc in
  match find (fun t => String.eqb (Token.symbol t) (Position.symbol pos)) currentTokens with
  | None => (stillOpen ++ [pos], st)
  | Some token =>
      let currentPrice := Token.price token in
      let pnl := (currentPrice - Position.entryPrice pos) * Position.quantity pos in
      let pnlPercent :=
        ((currentPrice - Position.entryPrice pos) / Position.entryPrice pos) * 100 in
      if Qle_bool currentPrice (Position.stopLoss pos) then
        (stillOpen, closeTrade pos currentPrice SL now st)
      else if Qle_bool (Position.takeProfit pos) currentPrice then
        (stillOpen, closeTrade pos currentPrice TP now st)
      else if Signal_eqb (Token.signal token) SELL && Qlt_bool 0 pnl then
        (stillOpen, closeTrade pos currentPrice SIGNAL now st)
      else
        (stillOpen ++ [remark pos currentPrice pnl pnlPercent], st)
  end.

Definition checkPositions (currentTokens : list Token.t) (now : Z) (st : State) : State :=
  let '(stillOpen, st') :=
    fold_left (checkPosition currentTokens now) (positions st) ([], st) in
  setPositions (fun _ => stillOpen) st'.

(** [fetchPrices]; [resp] is the parsed answer of the provider, [None] when
    the fetch or the parse threw. *)
Definition fetchPrices (r : State) (resp : option (gmap string Quote.t)) (now : Z)
  (st : State) : State :=
  match resp with
  | None => addLog LogINFO now st
  | Some data =>
      let '(updatedTokens, h) :=
        fold_left (updateToken r data) TOKENS_CONFIG ([], priceHistory st) in
      let st1 := setLastUpdate (Some now)
                   (setTokens (fun _ => updatedTokens) (setPriceHistory h st)) in
      if isRunning r then
        checkPositions updatedTokens now (processSignals r updatedTokens now st1)
      else st1
  end.

(** [toggleBot], the part that updates the state; what it does to the
    interval is in [step] below. *)
Definition toggleBot (r : State) (now : Z) (st : State) : State :=
  setIsRunning (negb (isRunning r)) (addLog LogINFO now st).

Definition resetBot (now : Z) (st : State) : State :=
  addLog LogINFO now
    (setPriceHistory ∅
       (setLogs (fun _ => [])
          (setTrades (fun _ => [])
             (setPositions (fun _ => [])
                (setBalance (fun _ => CONFIG.INITIAL_BALANCE)
                   (setIsRunning false st)))))).

Definition init : State :=
  mkState CONFIG.INITIAL_BALANCE [] [] [] [] false None ∅.

(** *** The handlers, whatever render they belong to

    One call of a handler of the component: [fetchPrices] getting its
    answer, [toggleBot], [resetBot].  [r] is the render the called function
    was created in.  Nothing is assumed about it: what is proved of [calls]
    holds whichever closure a timer or a button holds. *)
Inductive Call :=
| CallFetch (r : State) (resp : option (gmap string Quote.t)) (now : Z)
| CallToggle (r : State) (now : Z)
| CallReset (now : Z).

Definition call (st : State) (c : Call) : State :=
  match c with
  | CallFetch r resp now => fetchPrices r resp now st
  | CallToggle r now => toggleBot r now st
  | CallReset now => resetBot now st
  end.

Definition calls (cs : list Call) (st : State) : State := fold_left call cs st.

(** *** The component as it is wired

    Which [fetchPrices] is called, and when, is decided in three places.
    The mount effect ([useEffect(() => { fetchPrices(); ... }, [])]) calls the
    [fetchPrices] of the first render, once.  [toggleBot], when the render it
    belongs to shows a stopped bot, calls the [fetchPrices] of that same
    render and hands it to [setInterval]; when the render shows a running
    bot it clears the interval.  [resetBot] clears the interval.  The
    buttons are those of the render that shows the committed state.

    [mountCall] is the render whose [fetchPrices] the mount effect has called
    and that has not been answered yet; [interval] is the render whose
    [fetchPrices] [toggleBot] called and handed to [setInterval]
    ([intervalRef.current]). *)
Record Component := mkComponent {
  state : State;
  mountCall : option State;
  interval : option State
}.

(** What can happen to the component: the call of the mount effect gets its
    answer; a call of [toggleBot] or of its interval gets its answer; the
    start/stop button or the reset button is pressed.  A call is answered
    before the next event. *)
Inductive Event :=
| FirstFetch (resp : option (gmap string Quote.t)) (now : Z)
| Tick (resp : option (gmap string Quote.t)) (now : Z)
| Toggle (now : Z)
| Reset (now : Z).

Definition step (c : Component) (e : Event) : Component :=
  let st := state c in
  match e with
  | FirstFetch resp now =>
      match mountCall c with
      | Some r => mkComponent (fetchPrices r resp now st) None (interval c)
      | None => c
      end
  | Tick resp now =>
      match interval c with
      | Some r => mkComponent (fetchPrices r resp now st) (mountCall c) (interval c)
      | None => c
      end
  | Toggle now =>
      mkComponent (toggleBot st now st) (mountCall c)
                  (if isRunning st then None else Some st)
  | Reset now => mkComponent (resetBot now st) (mountCall c) None
  end.

Definition run (es : list Event) (c : Component) : Component := fold_left step es c.

(** The component after its first render: the mount effect has called the
    [fetchPrices] of that render and no interval is set. *)
Definition mounted : Component := mkComponent init (Some init) None.

End Auto.

(** ** The manual simulator *)

Module Manual.

Import Num.

Module Token.
Record t := mk {
  id : string;
  symbol : string;
  name : string;
  price : Q;
  change24h : Q;
  tier : string
}.
End Token.

(** [timestamp] is the instant behind the ISO string. *)
Module Position.
Record t := mk {
  id : Z;
  symbol : string;
  entryPrice : Q;
  quantity : Q;
  valueEUR : Q;
  stopLoss : Q;
  takeProfit : Q;
  timestamp : Z
}.
End Position.

(** [interface Trade extends Position]: the spread position and the three
    fields added to it. *)
Module Trade.
Record t := mk {
  position : Position.t;
  status : string;
  closePrice : option Q;
  closePnL : option Q
}.
End Trade.

(** An entry of [TOKENS]. *)
Module TokenConfig.
Record t := mk { id : string; symbol : string; name : string; tier : string }.
End TokenConfig.

Definition TOKENS : list TokenConfig.t :=
  [ TokenConfig.mk "solana" "SOL" "Solana" "blue-chip";
    TokenConfig.mk "bonk" "BONK" "Bonk" "meme";
    TokenConfig.mk "dogwifcoin" "WIF" "dogwifhat" "meme";
    TokenConfig.mk "jupiter-exchange-solana" "JUP" "Jupiter" "defi";
    TokenConfig.mk "pyth-network" "PYTH" "Pyth" "infra";
    TokenConfig.mk "raydium" "RAY" "Raydium" "defi";
    TokenConfig.mk "render-token" "RENDER" "Render" "ai";
    TokenConfig.mk "jito-governance-token" "JTO" "Jito" "infra" ].

Definition INITIAL_BALANCE : Q := 1000.
Definition STOP_LOSS : Q := 25 # 1000.
Definition TAKE_PROFIT : Q := 6 # 100.
Definition EUR_RATE : Q := 92 # 100.

Module Quote.
Record t := mk { usd : option Q; usd_24h_change : option Q }.
End Quote.

Record State := mkState {
  balance : Q;
  positions : list Position.t;
  trades : list Trade.t;
  tokens : list Token.t;
  loading : bool;
  lastUpdate : option Z
}.

Definition setBalance (f : Q -> Q) (st : State) : State :=
  mkState (f (balance st)) (positions st) (trades st) (tokens st)
          (loading st) (lastUpdate st).

Definition setPositions (f : list Position.t -> list Position.t) (st : State) : State :=
  mkState (balance st) (f (positions st)) (trades st) (tokens st)
          (loading st) (lastUpdate st).

Definition setTrades (f : list Trade.t -> list Trade.t) (st : State) : State :=
  mkState (balance st) (positions st) (f (trades st)) (tokens st)
          (loading st) (lastUpdate st).

Definition setTokens (f : list Token.t -> list Token.t) (st : State) : State :=
  mkState (balance st) (positions st) (trades st) (f (tokens st))
          (loading st) (lastUpdate st).

Definition setLoading (b : bool) (st : State) : State :=
  mkState (balance st) (positions st) (trades st) (tokens st) b (lastUpdate st).

Definition setLastUpdate (d : option Z) (st : State) : State :=
  mkState (balance st) (positions st) (trades st) (tokens st) (loading st) d.

(** The callback of [prev.forEach] in [checkPositions]; the accumulator holds
    [stillOpen], [toClose] and the state whose balance is credited. *)
Definition checkPosition (currentTokens : list Token.t)
  (acc : list Position.t * list Trade.t * State) (pos : Position.t)
  : list Position.t * list Trade.t * State :=
  let '(stillOpen, toClose, st) := acc in
  match find (fun t => String.eqb (Token.symbol t) (Position.symbol pos)) currentTokens with
  | None => (stillOpen ++ [pos], toClose, st)
  | Some token =>
      let currentPrice := Token.price token in
      let pnlUSD := (currentPrice - Position.entryPrice pos) * Position.quantity pos in
      let pnlEUR := pnlUSD * EUR_RATE in
      if Qle_bool currentPrice (Position.stopLoss pos) then
        (stillOpen,
         toClose ++ [Trade.mk pos "SL HIT ❌" (Some currentPrice) (Some pnlEUR)],
         setBalance (fun b => b + Position.valueEUR pos + pnlEUR) st)
      else if Qle_bool (Position.takeProfit pos) currentPrice then
        (stillOpen,
         toClose ++ [Trade.mk pos "TP HIT ✅" (Some currentPrice) (Some pnlEUR)],
         setBalance (fun b => b + Position.valueEUR pos + pnlEUR) st)
      else
        (stillOpen ++ [pos], toClose, st)
  end.

Definition checkPositions (currentTokens : list Token.t) (st : State) : State :=
  let '(stillOpen, toClose, st') :=
    fold_left (checkPosition currentTokens) (positions st) ([], [], st) in
  setPositions (fun _ => stillOpen)
    (if (0 <? length toClose)%nat then setTrades (fun t => toClose ++ t) st'
     else st').

(** The callback of [TOKENS.map] in [fetchPrices]. *)
Definition updateToken (data : gmap string Quote.t) (t : TokenConfig.t) : Token.t :=
  Token.mk (TokenConfig.id t) (TokenConfig.symbol t) (TokenConfig.name t)
           (or_else (data !! TokenConfig.id t ≫= Quote.usd) 0)
           (or_else (data !! TokenConfig.id t ≫= Quote.usd_24h_change) 0)
           (TokenConfig.tier t).

(** [fetchPrices]; [resp] is [None] when the fetch or the parse threw (the
    error only reaches the console). *)
Definition fetchPrices (resp : option (gmap string Quote.t)) (now : Z) (st : State)
  : State :=
  match resp with
  | None => st
  | Some data =>
      let updatedTokens := map (updateToken data) TOKENS in
      checkPositions updatedTokens
        (setLoading false
           (setLastUpdate (Some now) (setTokens (fun _ => updatedTokens) st)))
  end.

Definition executeTrade (r : State) (symbol : string) (now : Z) (st : State) : State :=
  match find (fun t => String.eqb (Token.symbol t) symbol) (tokens r) with
  | None => st
  | Some token =>
      if Qeq_bool (Token.price token) 0 then st
      else
        let tradeSize := min 100 (balance r * (1 # 10)) in
        if Qlt_bool tradeSize 10 then st
        else
          let tradeSizeUSD := tradeSize / EUR_RATE in
          let quantity := tradeSizeUSD / Token.price token in
          let position :=
            Position.mk now symbol (Token.price token) quantity tradeSize
                        (Token.price token * (1 - STOP_LOSS))
                        (Token.price token * (1 + TAKE_PROFIT))
                        now in
          setTrades (fun t => Trade.mk position "OPEN" None None :: t)
            (setPositions (fun p => p ++ [position])
               (setBalance (fun b => b - tradeSize) st))
  end.

(** The [onClick] of a market button:
    [() => !hasPosition && executeTrade(token.symbol)]. *)
Definition marketButton_onClick (r : State) (symbol : string) (now : Z) (st : State)
  : State :=
  let hasPosition :=
    existsb (fun p => String.eqb (Position.symbol p) symbol) (positions r) in
  if negb hasPosition then executeTrade r symbol now st else st.

Definition closePosition (r : State) (posId : Z) (st : State) : State :=
  match find (fun p => Z.eqb (Position.id p) posId) (positions st) with
  | None => st
  | Some pos =>
      let token :=
        find (fun t => String.eqb (Token.symbol t) (Position.symbol pos)) (tokens r) in
      let currentPrice := or_else (Token.price <$> token) (Position.entryPrice pos) in
      let pnlUSD := (currentPrice - Position.entryPrice pos) * Position.quantity pos in
      let pnlEUR := pnlUSD * EUR_RATE in
      setPositions (fun prev => List.filter (fun p => negb (Z.eqb (Position.id p) posId)) prev)
        (setTrades (fun t => Trade.mk pos "CLOSED" (Some currentPrice) (Some pnlEUR) :: t)
           (setBalance (fun b => b + Position.valueEUR pos + pnlEUR) st))
  end.

(** [resetAll]; [confirmed] is the answer to the confirmation dialog. *)
Definition resetAll (confirmed : bool) (st : State) : State :=
  if confirmed then
    setTrades (fun _ => [])
      (setPositions (fun _ => []) (setBalance (fun _ => INITIAL_BALANCE) st))
  else st.

Definition init : State := mkState INITIAL_BALANCE [] [] [] true None.

(** What can happen to the component: a timer tick with the provider's
    answer, or a user action of the view (a market button, a close button,
    the reset link). *)
Inductive Event :=
| Tick (resp : option (gmap string Quote.t)) (now : Z)
| ClickToken (symbol : string) (now : Z)
| ClickClose (posId : Z)
| ClickReset (confirmed : bool).

Definition step (st : State) (e : Event) : State :=
  match e with
  | Tick resp now => fetchPrices resp now st
  | ClickToken symbol now => marketButton_onClick st symbol now st
  | ClickClose posId => closePosition st posId st
  | ClickReset confirmed => resetAll confirmed st
  end.

Definition run (es : list Event) (st : State) : State := fold_left step es st.

End Manual.

(** ** The RSI in the words of its description

    The deltas of a history, the most recent entries of a list, and the two
    sums the description names.  [Auto.calculateRSI] is compared with
    these below. *)

Module RsiSpec.

(** Each entry minus the entry before it. *)
Definition deltas (history : list Q) : list Q :=
  zip_with (fun before after => after - before) history (tail history).

(** The most recent [n] entries of a list. *)
Definition recent {A : Type} (n : nat) (l : list A) : list A :=
  drop (length l - n) l.

(** The sum of the positive deltas. *)
Definition gains (ds : list Q) : Q :=
  fold_left (fun g d => if Num.Qlt_bool 0 d then g + d else g) ds 0.

(** The sum of the absolute values of the negative deltas. *)
Definition losses (ds : list Q) : Q :=
  fold_left (fun s d => if Num.Qlt_bool d 0 then s + Qabs d else s) ds 0.

End RsiSpec.

(** ** Invariants of the two programs *)

Module Inv.


(** The provider's answer gives no negative price for a configured token. *)
Definition auto_quotes_nonneg (data : gmap string Auto.Quote.t) : bool :=
  forallb (fun t => Qle_bool 0 (Num.or_else (data !! Auto.TokenConfig.id t ≫= Auto.Quote.usd) 0))
          Auto.TOKENS_CONFIG.

(** A call of [fetchPrices] whose closure belongs to a render in which the
    bot does not run. *)
Definition auto_call_stopped (c : Auto.Call) : Prop :=
  match c with
  | Auto.CallFetch r _ _ => Auto.isRunning r = false
  | _ => True
  end.

(** Every [fetchPrices] the component has called or scheduled belongs to a
    render in which the bot does not run. *)
Definition auto_closures_stopped (c : Auto.Component) : Prop :=
  (forall r, Auto.mountCall c = Some r -> Auto.isRunning r = false) /\
  (forall r, Auto.interval c = Some r -> Auto.isRunning r = false).

(** An open position never owes more than its allocated value: its
    quantity is not negative and its cost at entry is within the value. *)
Definition auto_pos_ok (p : Auto.Position.t) : Prop :=
  0 <= Auto.Position.quantity p /\
  Auto.Position.entryPrice p * Auto.Position.quantity p <= Auto.Position.valueEUR p.

Definition auto_ledger_ok (st : Auto.State) : Prop :=
  0 <= Auto.balance st /\ Forall auto_pos_ok (Auto.positions st).

(** At most one open position per symbol. *)
Definition auto_one_per_symbol (st : Auto.State) : Prop :=
  NoDup (map Auto.Position.symbol (Auto.positions st)).

Definition manual_quotes_nonneg (data : gmap string Manual.Quote.t) : bool :=
  forallb (fun t => Qle_bool 0 (Num.or_else (data !! Manual.TokenConfig.id t ≫= Manual.Quote.usd) 0))
          Manual.TOKENS.

Definition manual_event_ok (e : Manual.Event) : Prop :=
  match e with
  | Manual.Tick (Some data) _ => manual_quotes_nonneg data = true
  | _ => True
  end.

Definition manual_pos_ok (p : Manual.Position.t) : Prop :=
  0 <= Manual.Position.entryPrice p /\
  0 <= Manual.Position.quantity p /\
  Manual.Position.entryPrice p * Manual.Position.quantity p * Manual.EUR_RATE
  <= Manual.Position.valueEUR p.

Definition manual_ledger_ok (st : Manual.State) : Prop :=
  0 <= Manual.balance st /\
  Forall manual_pos_ok (Manual.positions st) /\
  Forall (fun t => 0 <= Manual.Token.price t) (Manual.tokens st).

Definition manual_one_per_symbol (st : Manual.State) : Prop :=
  NoDup (map Manual.Position.symbol (Manual.positions st)).

End Inv.

(** ** Concrete scenarios *)

Module Scenario.

(** An answer of the provider that quotes only SOL. *)
Definition auto_sol (price change24h : Q) : gmap string Auto.Quote.t :=
  {[ "solana"%string := Auto.Quote.mk (Some price) (Some change24h) ]}.

(** The render that follows a press of the start button in the first
    render: the bot runs, the balance is 1000 and nothing is open. *)
Definition auto_running : Auto.State := Auto.toggleBot Auto.init 0 Auto.init.

(** SOL falls from 114 to 100 over fifteen answers with a 24h change of
    -5%. *)
Definition auto_dip_quotes (k : nat) : gmap string Auto.Quote.t :=
  auto_sol (inject_Z (115 - Z.of_nat k)) (-5).

(** [toggleBot] is called in the first render and fifteen calls of the
    [fetchPrices] of [auto_running] are answered while SOL falls: the
    fifteenth has RSI 0, signals BUY, and SOL is bought at 100 for 150. *)
Definition auto_dip : list Auto.Call :=
  Auto.CallToggle Auto.init 0
  :: map (fun k => Auto.CallFetch auto_running (Some (auto_dip_quotes k)) (Z.of_nat k))
         (seq 1 15).

(** The same fall seen by the component: the start button is pressed and
    fifteen ticks of the interval are answered. *)
Definition auto_dip_events : list Auto.Event :=
  Auto.Toggle 0
  :: map (fun k => Auto.Tick (Some (auto_dip_quotes k)) (Z.of_nat k)) (seq 1 15).




Definition manual_sol (price change24h : Q) : gmap string Manual.Quote.t :=
  {[ "solana"%string := Manual.Quote.mk (Some price) (Some change24h) ]}.

(** SOL is quoted at 100 and the user presses its market button: SOL is
    bought at 100 for 100. *)
Definition manual_buy : list Manual.Event :=
  [ Manual.Tick (Some (manual_sol 100 1)) 1; Manual.ClickToken "SOL" 2 ].

End Scenario.

(** ** Figures the components derive from their state

    Both components compute a few figures in their body, from the state of
    the render, before they draw it. *)

Module AutoStats.

(** [trades.reduce((sum, t) => sum + t.pnl, 0)] *)
Definition totalPnL (st : Auto.State) : Q :=
  fold_left (fun sum t => sum + Auto.Trade.pnl t) (Auto.trades st) 0.

(** [positions.reduce((sum, p) => sum + p.pnl, 0)] *)
Definition openPnL (st : Auto.State) : Q :=
  fold_left (fun sum p => sum + Auto.Position.pnl p) (Auto.positions st) 0.

End AutoStats.

Module ManualStats.

(** The price a position is valued at: [token?.price || pos.entryPrice]. *)
Definition currentPrice (st : Manual.State) (pos : Manual.Position.t) : Q :=
  Num.or_else
    (Manual.Token.price <$>
       find (fun t => String.eqb (Manual.Token.symbol t) (Manual.Position.symbol pos))
            (Manual.tokens st))
    (Manual.Position.entryPrice pos).

Definition positionsValue (st : Manual.State) : Q :=
  fold_left
    (fun sum pos =>
       sum + currentPrice st pos * Manual.Position.quantity pos * Manual.EUR_RATE)
    (Manual.positions st) 0.

Definition totalValue (st : Manual.State) : Q :=
  Manual.balance st + positionsValue st.

Definition totalPnL (st : Manual.State) : Q :=
  totalValue st - Manual.INITIAL_BALANCE.

Definition returnPct (st : Manual.State) : Q :=
  totalPnL st / Manual.INITIAL_BALANCE * 100.

End ManualStats.

(** ** Quantities and predicates used to state further properties *)

Module Acct.

(** The sum of [f] over a list, added up from the left. *)
Definition total {A : Type} (f : A -> Q) (l : list A) : Q :=
  fold_left (fun sum x => sum + f x) l 0.

(** The value allocated to the open positions. *)
Definition auto_allocated (st : Auto.State) : Q :=
  total Auto.Position.valueEUR (Auto.positions st).

Definition manual_allocated (st : Manual.State) : Q :=
  total Manual.Position.valueEUR (Manual.positions st).

(** The P&L realized by the closes recorded in the manual history (an OPEN
    marker has none). *)
Definition manual_realized (st : Manual.State) : Q :=
  total (fun t => default 0 (Manual.Trade.closePnL t)) (Manual.trades st).

(** The unrealized P&L of a manual position at the price it is valued at. *)
Definition manual_unrealized (st : Manual.State) (pos : Manual.Position.t) : Q :=
  (ManualStats.currentPrice st pos - Manual.Position.entryPrice pos)
  * Manual.Position.quantity pos * Manual.EUR_RATE.

(** What is fixed when a position is opened: everything but the mark. *)
Definition auto_fixed (p : Auto.Position.t)
  : Z * string * Q * Q * Q * Q * Q * Z :=
  (Auto.Position.id p, Auto.Position.symbol p, Auto.Position.entryPrice p,
   Auto.Position.quantity p, Auto.Position.valueEUR p,
   Auto.Position.stopLoss p, Auto.Position.takeProfit p, Auto.Position.openedAt p).

(** A call of [fetchPrices] that the provider answered. *)
Definition auto_answered (c : Auto.Call) : bool :=
  match c with Auto.CallFetch _ (Some _) _ => true | _ => false end.

Definition auto_is_toggle (e : Auto.Event) : bool :=
  match e with Auto.Toggle _ => true | _ => false end.

Definition auto_is_reset (c : Auto.Call) : bool :=
  match c with Auto.CallReset _ => true | _ => false end.

Definition manual_is_reset (e : Manual.Event) : bool :=
  match e with Manual.ClickReset true => true | _ => false end.

(** The clock readings of the market-button presses of a run. *)
Definition manual_click_times (es : list Manual.Event) : list Z :=
  omap (fun e => match e with Manual.ClickToken _ now => Some now | _ => None end) es.

(** One token of a tick: its price, its history and what is computed from
    the history. *)
Definition token_consistent (data : gmap string Auto.Quote.t) (h : gmap string (list Q))
  (c : Auto.TokenConfig.t) (t : Auto.Token.t) : Prop :=
  Auto.Token.symbol t = Auto.TokenConfig.symbol c /\
  Auto.Token.name t = Auto.TokenConfig.name c /\
  Auto.Token.price t = Num.or_else (data !! Auto.TokenConfig.id c ≫= Auto.Quote.usd) 0 /\
  Auto.Token.change24h t = Num.or_else (data !! Auto.TokenConfig.id c ≫= Auto.Quote.usd_24h_change) 0 /\
  exists hist,
    h !! Auto.TokenConfig.symbol c = Some hist /\
    last hist = Some (Auto.Token.price t) /\
    Auto.Token.rsi t = Auto.calculateRSI hist 14 /\
    Auto.Token.signal t = Auto.getSignal (Auto.Token.rsi t) (Auto.Token.change24h t).

(** A position as the bot opens it: bought at a positive price, in a
    positive quantity, with the stop-loss 3% below and the take-profit 8%
    above the entry price. *)
Definition auto_pos_sound (p : Auto.Position.t) : Prop :=
  0 < Auto.Position.entryPrice p /\
  0 < Auto.Position.quantity p /\
  Auto.Position.stopLoss p
  = Auto.Position.entryPrice p * (1 - Auto.CONFIG.STOP_LOSS) /\
  Auto.Position.takeProfit p
  = Auto.Position.entryPrice p * (1 + Auto.CONFIG.TAKE_PROFIT).

(** The mark of a position agrees with its current price. *)
Definition auto_mark_consistent (p : Auto.Position.t) : Prop :=
  Auto.Position.pnl p
  == (Auto.Position.currentPrice p - Auto.Position.entryPrice p)
     * Auto.Position.quantity p /\
  Auto.Position.pnlPercent p
  == (Auto.Position.currentPrice p - Auto.Position.entryPrice p)
     / Auto.Position.entryPrice p * 100.

(** What a trade record of the bot says about its own outcome. *)
Definition auto_trade_outcome (t : Auto.Trade.t) : Prop :=
  Auto.Trade.pnl t
  = (Auto.Trade.exitPrice t - Auto.Trade.entryPrice t) * Auto.Trade.quantity t /\
  (0 <= Auto.Trade.pnl t -> Auto.Trade.result t = Auto.WIN) /\
  (Auto.Trade.pnl t < 0 -> Auto.Trade.result t = Auto.LOSS) /\
  (Auto.Trade.reason t = Auto.TP -> 0 < Auto.Trade.pnl t) /\
  (Auto.Trade.reason t = Auto.SL -> Auto.Trade.pnl t < 0) /\
  (Auto.Trade.reason t = Auto.SIGNAL -> 0 < Auto.Trade.pnl t).

(** A manual position is worth its allocated value at its entry price. *)
Definition manual_exact (p : Manual.Position.t) : Prop :=
  Manual.Position.entryPrice p * Manual.Position.quantity p * Manual.EUR_RATE
  == Manual.Position.valueEUR p.

(** A record of the manual history: an OPEN marker without close fields, or
    a terminal record with both, whose P&L is the one of its close price. *)
Definition manual_record_ok (t : Manual.Trade.t) : Prop :=
  (Manual.Trade.status t = "OPEN"%string /\
   Manual.Trade.closePrice t = None /\ Manual.Trade.closePnL t = None) \/
  ((Manual.Trade.status t = "SL HIT ❌"%string \/
    Manual.Trade.status t = "TP HIT ✅"%string \/
    Manual.Trade.status t = "CLOSED"%string) /\
   exists price pnl,
     Manual.Trade.closePrice t = Some price /\
     Manual.Trade.closePnL t = Some pnl /\
     pnl = (price - Manual.Position.entryPrice (Manual.Trade.position t))
           * Manual.Position.quantity (Manual.Trade.position t) * Manual.EUR_RATE).

(** A terminal record of the manual exit check for a position of [ps]: a
    stop-loss hit at a price at or below the stop-loss, or a take-profit hit
    at a price above the stop-loss and at or above the take-profit. *)
Definition manual_exit_record (ps : list Manual.Position.t) (record : Manual.Trade.t)
  : Prop :=
  In (Manual.Trade.position record) ps /\
  exists price,
    ((Manual.Trade.status record = "SL HIT ❌"%string /\
      price <= Manual.Position.stopLoss (Manual.Trade.position record)) \/
     (Manual.Trade.status record = "TP HIT ✅"%string /\
      Manual.Position.stopLoss (Manual.Trade.position record) < price /\
      Manual.Position.takeProfit (Manual.Trade.position record) <= price)) /\
    Manual.Trade.closePrice record = Some price /\
    Manual.Trade.closePnL record
    = Some ((price - Manual.Position.entryPrice (Manual.Trade.position record))
            * Manual.Position.quantity (Manual.Trade.position record)
            * Manual.EUR_RATE).

(** A manual position bought at a positive price: a positive quantity, the
    stop-loss 2.5% below and the take-profit 6% above the entry price. *)
Definition manual_pos_sound (p : Manual.Position.t) : Prop :=
  0 < Manual.Position.entryPrice p /\
  0 < Manual.Position.quantity p /\
  Manual.Position.stopLoss p
  = Manual.Position.entryPrice p * (1 - Manual.STOP_LOSS) /\
  Manual.Position.takeProfit p
  = Manual.Position.entryPrice p * (1 + Manual.TAKE_PROFIT).

(** A stop-loss hit records a loss and a take-profit hit a gain. *)
Definition manual_record_outcome (t : Manual.Trade.t) : Prop :=
  forall pnl,
    Manual.Trade.closePnL t = Some pnl ->
    (Manual.Trade.status t = "SL HIT ❌"%string -> pnl < 0) /\
    (Manual.Trade.status t = "TP HIT ✅"%string -> 0 < pnl).

(** Two states of the bot that differ at most in the token list, the time
    of the last update and the log. *)
Definition auto_same_ledger (a b : Auto.State) : Prop :=
  Auto.balance a = Auto.balance b /\
  Auto.positions a = Auto.positions b /\
  Auto.trades a = Auto.trades b /\
  Auto.priceHistory a = Auto.priceHistory b /\
  Auto.isRunning a = Auto.isRunning b.

(** Two renders that show the same running flag, balance and open set:
    what the closures of the handlers read, the token list apart. *)
Definition auto_same_view (r r' : Auto.State) : Prop :=
  Auto.isRunning r = Auto.isRunning r' /\
  Auto.balance r = Auto.balance r' /\
  Auto.positions r = Auto.positions r'.

(** Two calls of the same handler, with the same answer at the same time, by
    closures whose renders show the same. *)
Definition auto_same_call (c c' : Auto.Call) : Prop :=
  match c, c' with
  | Auto.CallFetch r resp now, Auto.CallFetch r' resp' now' =>
      auto_same_view r r' /\ resp = resp' /\ now = now'
  | Auto.CallToggle r _, Auto.CallToggle r' _ => Auto.isRunning r = Auto.isRunning r'
  | Auto.CallReset _, Auto.CallReset _ => True
  | _, _ => False
  end.

(** Two tokens that differ at most in the previous price. *)
Definition auto_same_quote (a b : Auto.Token.t) : Prop :=
  Auto.Token.symbol a = Auto.Token.symbol b /\
  Auto.Token.name a = Auto.Token.name b /\
  Auto.Token.price a = Auto.Token.price b /\
  Auto.Token.change24h a = Auto.Token.change24h b /\
  Auto.Token.rsi a = Auto.Token.rsi b /\
  Auto.Token.signal a = Auto.Token.signal b.

End Acct.

(** * Properties *)

(** ** Numbers *)

Section NumFacts.

Import Num.

Lemma Qlt_bool_iff x y : Qlt_bool x y = true <-> x < y.
Proof.
  unfold Qlt_bool. rewrite negb_true_iff.
  destruct (Qle_bool y x) eqn:E.
  - apply Qle_bool_iff in E. split; [discriminate | intros H; exfalso; lra].
  - split; [intros _ | reflexivity].
    apply Qnot_le_lt. intros H. apply Qle_bool_iff in H. congruence.
Qed.

Lemma Qlt_bool_false x y : Qlt_bool x y = false <-> y <= x.
Proof.
  unfold Qlt_bool. rewrite negb_false_iff. apply Qle_bool_iff.
Qed.

Lemma Qle_bool_false x y : Qle_bool x y = false <-> y < x.
Proof.
  rewrite <- Qlt_bool_iff. unfold Qlt_bool.
  destruct (Qle_bool x y); simpl; split; congruence.
Qed.

Lemma or_else_zero x : or_else x 0 == default 0 x.
Proof.
  destruct x as [v|]; simpl; [|reflexivity].
  destruct (Qeq_bool v 0) eqn:E; [|reflexivity].
  apply Qeq_bool_iff in E. symmetry. exact E.
Qed.

Lemma or_else_nonneg x d :
  0 <= d -> (forall v, x = Some v -> 0 <= v) -> 0 <= or_else x d.
Proof.
  intros Hd Hx. destruct x as [v|]; simpl; [|exact Hd].
  destruct (Qeq_bool v 0); [exact Hd | apply Hx; reflexivity].
Qed.

Lemma min_cases x y : (x <= y /\ min x y = x) \/ (y < x /\ min x y = y).
Proof.
  unfold min. destruct (Qle_bool x y) eqn:E.
  - left. split; [apply Qle_bool_iff, E | reflexivity].
  - right. split; [apply Qle_bool_false, E | reflexivity].
Qed.

Lemma min_le_l x y : min x y <= x.
Proof. destruct (min_cases x y) as [[? ->]|[? ->]]; lra. Qed.

Lemma min_le_r x y : min x y <= y.
Proof. destruct (min_cases x y) as [[? ->]|[? ->]]; lra. Qed.

End NumFacts.

(** Case analysis on the boolean comparisons of the code, leaving the
    corresponding order facts in the context. *)
Ltac case_cmp :=
  match goal with
  | |- context [Num.Qlt_bool ?a ?b] =>
      let E := fresh "E" in
      destruct (Num.Qlt_bool a b) eqn:E;
      [apply Qlt_bool_iff in E | apply Qlt_bool_false in E]
  | |- context [Qle_bool ?a ?b] =>
      let E := fresh "E" in
      destruct (Qle_bool a b) eqn:E;
      [apply Qle_bool_iff in E | apply Qle_bool_false in E]
  | |- context [Qeq_bool ?a ?b] =>
      let E := fresh "E" in
      destruct (Qeq_bool a b) eqn:E;
      [apply Qeq_bool_iff in E | apply Qeq_bool_neq in E]
  end.

(** ** The indicator *)

Section RSI.

Import Num Auto RsiSpec.

Lemma length_deltas (prices : list Q) :
  length (deltas prices) = (length prices - 1)%nat.
Proof.
  unfold deltas. rewrite length_zip_with. destruct prices; cbn [length tail]; lia.
Qed.

Lemma lookup_deltas (prices : list Q) (j : nat) :
  (S j < length prices)%nat ->
  deltas prices !! j = Some (at_index prices (S j) - at_index prices j).
Proof.
  intros Hj. unfold deltas, at_index.
  destruct (lookup_lt_is_Some_2 prices j) as [a Ha]; [lia|].
  destruct (lookup_lt_is_Some_2 prices (S j)) as [b Hb]; [lia|].
  rewrite lookup_zip_with, Ha. simpl.
  rewrite lookup_tail, Hb. simpl.
  rewrite (nth_lookup_Some _ _ _ _ Hb), (nth_lookup_Some _ _ _ _ Ha).
  reflexivity.
Qed.

(** The loop of the code, started at index [s], and the two sums of the
    description over the deltas from [s - 1] on, agree step by step. *)
Lemma rsi_loop_deltas (prices : list Q) (k : nat) :
  forall (s : nat) (g l g' l' : Q),
    g == g' -> l == l' -> (1 <= s)%nat -> (s + k <= length prices)%nat ->
    let ds := take k (drop (s - 1) (deltas prices)) in
    fst (fold_left (rsi_loop_body prices) (seq s k) (g, l))
      == fold_left (fun g d => if Qlt_bool 0 d then g + d else g) ds g' /\
    snd (fold_left (rsi_loop_body prices) (seq s k) (g, l))
      == fold_left (fun s d => if Qlt_bool d 0 then s + Qabs d else s) ds l'.
Proof.
  induction k as [|k IH]; intros s g l g' l' Hg Hl Hs Hlen ds.
  - subst ds. simpl. split; assumption.
  - subst ds.
    assert (Hd : deltas prices !! (s - 1)%nat
                 = Some (at_index prices s - at_index prices (s - 1))).
    { replace s with (S (s - 1)) at 2 by lia. apply lookup_deltas. lia. }
    rewrite (drop_S _ _ _ Hd). cbn [firstn seq fold_left].
    replace (S (s - 1)) with (S s - 1)%nat by lia.
    set (change := at_index prices s - at_index prices (s - 1)).
    assert (Hbody : rsi_loop_body prices (g, l) s
                    = if Qlt_bool 0 change then (g + change, l) else (g, l - change))
      by reflexivity.
    rewrite Hbody. clear Hbody.
    destruct (Qlt_bool 0 change) eqn:E.
    + apply Qlt_bool_iff in E.
      assert (E' : Qlt_bool change 0 = false) by (apply Qlt_bool_false; lra).
      rewrite E'. apply IH; [rewrite Hg; reflexivity | assumption | lia | lia].
    + apply Qlt_bool_false in E.
      destruct (Qlt_bool change 0) eqn:E'.
      * apply Qlt_bool_iff in E'. apply IH; [assumption | | lia | lia].
        rewrite Hl, (Qabs_neg change) by lra. lra.
      * apply Qlt_bool_false in E'. apply IH; [assumption | | lia | lia].
        rewrite Hl. assert (change == 0) as -> by lra. lra.
Qed.

Lemma rsi_loop_spec (prices : list Q) (period : nat) :
  (period + 1 <= length prices)%nat ->
  fst (rsi_loop prices period) == gains (recent period (deltas prices)) /\
  snd (rsi_loop prices period) == losses (recent period (deltas prices)).
Proof.
  intros Hlen. unfold rsi_loop, gains, losses, recent.
  rewrite length_deltas.
  replace (length prices - 1 - period)%nat with (length prices - period - 1)%nat by lia.
  rewrite <- (take_ge (drop (length prices - period - 1) (deltas prices)) period)
    by (rewrite length_drop, length_deltas; lia).
  apply rsi_loop_deltas; [reflexivity | reflexivity | lia | lia].
Qed.

Lemma rsi_loop_nonneg (prices : list Q) (idx : list nat) :
  forall g l, 0 <= g -> 0 <= l ->
    0 <= fst (fold_left (rsi_loop_body prices) idx (g, l)) /\
    0 <= snd (fold_left (rsi_loop_body prices) idx (g, l)).
Proof.
  induction idx as [|i idx IH]; intros g l Hg Hl; simpl; [split; assumption|].
  case_cmp; apply IH; lra.
Qed.

Lemma calculateRSI_14 (prices : list Q) :
  (15 <= length prices)%nat ->
  calculateRSI prices 14 =
    let avgGain := fst (rsi_loop prices 14) / 14 in
    let avgLoss := snd (rsi_loop prices 14) / 14 in
    if Qeq_bool avgLoss 0 then 100 else 100 - 100 / (1 + avgGain / avgLoss).
Proof.
  intros Hlen. unfold calculateRSI.
  destruct (Nat.ltb_spec (length prices) (14 + 1)) as [?|_]; [lia|].
  destruct (rsi_loop prices 14) as [g l]. reflexivity.
Qed.

Lemma rsi_formula_range (avgGain avgLoss : Q) :
  0 <= avgGain -> 0 < avgLoss ->
  0 <= 100 - 100 / (1 + avgGain / avgLoss) <= 100.
Proof.
  intros Hg Hl.
  assert (Hrs : 0 <= avgGain / avgLoss).
  { apply Qle_shift_div_l; [assumption | lra]. }
  set (rs := avgGain / avgLoss) in *.
  assert (H1 : 100 / (1 + rs) <= 100).
  { apply Qle_shift_div_r; [lra | nra]. }
  assert (H2 : 0 <= 100 / (1 + rs)).
  { apply Qle_shift_div_l; [lra | lra]. }
  lra.
Qed.

(** C1.  [calculateRSI] with the default period 14: a history of fewer than
    15 prices gives the neutral 50; otherwise, with the positive deltas among
    the 14 most recent ones summed into the gains and the absolute values of
    the negative ones into the losses, and both divided by 14, the result is
    100 when the average loss is zero and [100 - 100 / (1 + avgGain / avgLoss)]
    when it is not.  The result always lies between 0 and 100. *)
Theorem C1_calculateRSI (prices : list Q) :
  ((length prices < 15)%nat -> calculateRSI prices 14 = 50) /\
  ((15 <= length prices)%nat ->
     let ds := recent 14 (deltas prices) in
     let avgGain := gains ds / 14 in
     let avgLoss := losses ds / 14 in
     (avgLoss == 0 -> calculateRSI prices 14 = 100) /\
     (~ avgLoss == 0 ->
        calculateRSI prices 14 == 100 - 100 / (1 + avgGain / avgLoss))) /\
  0 <= calculateRSI prices 14 <= 100.
Proof.
  split; [|split].
  - intros Hlen. unfold calculateRSI.
    destruct (Nat.ltb_spec (length prices) (14 + 1)) as [_|?]; [reflexivity | lia].
  - intros Hlen ds avgGain avgLoss.
    destruct (rsi_loop_spec prices 14) as [Hg Hl]; [lia|].
    fold ds in Hg, Hl.
    rewrite (calculateRSI_14 prices Hlen). cbv zeta.
    assert (HL : snd (rsi_loop prices 14) / 14 == avgLoss).
    { unfold avgLoss. rewrite Hl. reflexivity. }
    assert (HG : fst (rsi_loop prices 14) / 14 == avgGain).
    { unfold avgGain. rewrite Hg. reflexivity. }
    split.
    + intros H0. case_cmp; [reflexivity|].
      exfalso. apply E. rewrite HL. exact H0.
    + intros Hn. case_cmp.
      * exfalso. apply Hn. rewrite <- HL. exact E.
      * rewrite HG, HL. reflexivity.
  - destruct (Nat.lt_ge_cases (length prices) 15) as [Hlen|Hlen].
    + unfold calculateRSI.
      destruct (Nat.ltb_spec (length prices) (14 + 1)) as [_|?]; [lra | lia].
    + rewrite (calculateRSI_14 prices Hlen). cbv zeta.
      destruct (rsi_loop_nonneg prices (seq (length prices - 14) 14) 0 0)
        as [Hg Hl]; [lra | lra |].
      fold (rsi_loop prices 14) in Hg, Hl.
      case_cmp; [lra|].
      apply rsi_formula_range.
      * apply Qle_shift_div_l; [reflexivity | lra].
      * assert (0 <= snd (rsi_loop prices 14) / 14)
          by (apply Qle_shift_div_l; [reflexivity | lra]).
        destruct (Qlt_le_dec 0 (snd (rsi_loop prices 14) / 14)) as [?|?];
          [assumption|].
        exfalso. apply E. lra.
Qed.

(** A strictly increasing history of at least 15 prices has no loss among
    its 14 most recent deltas, and its RSI is 100. *)
Lemma rsi_loop_no_loss (prices : list Q) (idx : list nat) :
  (forall i, In i idx -> at_index prices (i - 1) < at_index prices i) ->
  forall g l, snd (fold_left (rsi_loop_body prices) idx (g, l)) = l.
Proof.
  induction idx as [|i idx IH]; intros Hup g l; [reflexivity|].
  cbn [fold_left]. unfold rsi_loop_body at 2.
  assert (Hi : 0 < at_index prices i - at_index prices (i - 1)).
  { specialize (Hup i (or_introl eq_refl)). lra. }
  apply Qlt_bool_iff in Hi. rewrite Hi.
  apply IH. intros j Hj. apply Hup. right. exact Hj.
Qed.

Lemma calculateRSI_increasing (prices : list Q) :
  (15 <= length prices)%nat ->
  (forall i, (S i < length prices)%nat ->
             at_index prices i < at_index prices (S i)) ->
  calculateRSI prices 14 = 100.
Proof.
  intros Hlen Hup. rewrite (calculateRSI_14 prices Hlen). cbv zeta.
  assert (Hl : snd (rsi_loop prices 14) = 0).
  { unfold rsi_loop. apply rsi_loop_no_loss.
    intros i Hi. apply in_seq in Hi.
    replace i with (S (i - 1)) at 2 by lia. apply Hup. lia. }
  rewrite Hl. reflexivity.
Qed.

(** C1 at two histories: three prices, and sixteen prices with a single
    down move (gains 14, losses 1). *)
Lemma C1_calculateRSI_witness :
  calculateRSI [1; 2; 3] 14 = 50 /\
  calculateRSI [1; 2; 3; 4; 5; 6; 7; 8; 9; 10; 11; 12; 13; 14; 13; 15] 14
    == 100 - 100 / (1 + 14 / 1).
Proof.
  split.
  - apply (proj1 (C1_calculateRSI [1; 2; 3])). simpl. lia.
  - destruct (proj1 (proj2 (C1_calculateRSI
        [1; 2; 3; 4; 5; 6; 7; 8; 9; 10; 11; 12; 13; 14; 13; 15])))
      as [_ H]; [simpl; lia|].
    rewrite H; [reflexivity|]. vm_compute. discriminate.
Defined.

End RSI.

(** ** The signal classifier *)

Section Signal.

Import Num Auto.

Lemma getSignal_cases (rsi change24h : Q) :
  (rsi < 35 /\ change24h < -3 /\ getSignal rsi change24h = BUY) \/
  (~ (rsi < 35 /\ change24h < -3) /\ 70 < rsi /\ getSignal rsi change24h = SELL) \/
  (~ (rsi < 35 /\ change24h < -3) /\ ~ 70 < rsi /\ getSignal rsi change24h = HOLD).
Proof.
  unfold getSignal, CONFIG.RSI_BUY, CONFIG.MIN_CHANGE_BUY, CONFIG.RSI_SELL.
  destruct (Qlt_bool rsi 35) eqn:E1;
    [apply Qlt_bool_iff in E1 | apply Qlt_bool_false in E1];
    (destruct (Qlt_bool change24h (-3)) eqn:E2;
     [apply Qlt_bool_iff in E2 | apply Qlt_bool_false in E2]);
    (destruct (Qlt_bool 70 rsi) eqn:E3;
     [apply Qlt_bool_iff in E3 | apply Qlt_bool_false in E3]);
    simpl; try (left; repeat split; (assumption || reflexivity));
    try (right; left; repeat split; try assumption; try reflexivity;
         intros [? ?]; lra);
    try (right; right; repeat split; try reflexivity;
         try (intros [? ?]; lra); intros ?; lra).
Qed.

(** C2.  [getSignal] is BUY exactly when [rsi < 35] and [change24h < -3];
    SELL exactly when [rsi > 70] and the BUY condition fails; HOLD in every
    other case; and it takes the four documented values. *)
Theorem C2_getSignal (rsi change24h : Q) :
  (getSignal rsi change24h = BUY <-> rsi < 35 /\ change24h < -3) /\
  (getSignal rsi change24h = SELL <->
     70 < rsi /\ ~ (rsi < 35 /\ change24h < -3)) /\
  (getSignal rsi change24h = HOLD <->
     ~ (rsi < 35 /\ change24h < -3) /\ ~ 70 < rsi) /\
  getSignal 30 (-5) = BUY /\
  getSignal 30 (-1) = HOLD /\
  getSignal 75 2 = SELL /\
  getSignal 50 0 = HOLD.
Proof.
  split; [|split; [|split; [|repeat split; reflexivity]]];
    destruct (getSignal_cases rsi change24h)
      as [(H1 & H2 & ->) | [(H1 & H2 & ->) | (H1 & H2 & ->)]];
    split; intros H; try discriminate; try reflexivity; try tauto;
    try (exfalso; destruct H as [? ?]; tauto || lra).
Qed.

(** C2 at an oversold dip. *)
Lemma C2_getSignal_witness : getSignal 20 (-4) = BUY.
Proof.
  apply (proj1 (C2_getSignal 20 (-4))). split; reflexivity.
Defined.

End Signal.


(** ** Exit rules *)

Section Exits.

Import Num.

(** What [closeTrade] leaves in the state. *)
Lemma closeTrade_trades pos exitPrice reason now st :
  Auto.trades (Auto.closeTrade pos exitPrice reason now st)
  = Auto.Trade.mk (Auto.Position.id pos) (Auto.Position.symbol pos)
      (Auto.Position.entryPrice pos) exitPrice (Auto.Position.quantity pos)
      ((exitPrice - Auto.Position.entryPrice pos) * Auto.Position.quantity pos)
      ((exitPrice - Auto.Position.entryPrice pos) / Auto.Position.entryPrice pos * 100)
      (if Qle_bool 0 ((exitPrice - Auto.Position.entryPrice pos) * Auto.Position.quantity pos)
       then Auto.WIN else Auto.LOSS)
      reason (Auto.Position.openedAt pos) now
    :: Auto.trades st.
Proof. reflexivity. Qed.



Lemma closeTrade_changes pos exitPrice reason now st :
  Auto.closeTrade pos exitPrice reason now st <> st.
Proof.
  intros H. apply (f_equal (fun s => length (Auto.trades s))) in H.
  rewrite closeTrade_trades in H. simpl in H. lia.
Qed.


(** The four ways out of the callback of [Auto.checkPositions] when the
    position's token is quoted. *)
Lemma auto_checkPosition_cases currentTokens now stillOpen st pos token :
  find (fun t => String.eqb (Auto.Token.symbol t) (Auto.Position.symbol pos))
       currentTokens = Some token ->
  let price := Auto.Token.price token in
  let pnl := (price - Auto.Position.entryPrice pos) * Auto.Position.quantity pos in
  let res := Auto.checkPosition currentTokens now (stillOpen, st) pos in
  (price <= Auto.Position.stopLoss pos /\
   res = (stillOpen, Auto.closeTrade pos price Auto.SL now st)) \/
  (Auto.Position.stopLoss pos < price /\ Auto.Position.takeProfit pos <= price /\
   res = (stillOpen, Auto.closeTrade pos price Auto.TP now st)) \/
  (Auto.Position.stopLoss pos < price /\ price < Auto.Position.takeProfit pos /\
   Auto.Token.signal token = Auto.SELL /\ 0 < pnl /\
   res = (stillOpen, Auto.closeTrade pos price Auto.SIGNAL now st)) \/
  (Auto.Position.stopLoss pos < price /\ price < Auto.Position.takeProfit pos /\
   ~ (Auto.Token.signal token = Auto.SELL /\ 0 < pnl) /\
   res = (stillOpen ++ [Auto.remark pos price pnl
            ((price - Auto.Position.entryPrice pos) / Auto.Position.entryPrice pos * 100)],
          st)).
Proof.
  intros Hfind price pnl res. subst res. unfold Auto.checkPosition.
  rewrite Hfind. fold price. fold pnl.
  destruct (Qle_bool price (Auto.Position.stopLoss pos)) eqn:E1;
    [apply Qle_bool_iff in E1 | apply Qle_bool_false in E1].
  { left. split; [assumption | reflexivity]. }
  destruct (Qle_bool (Auto.Position.takeProfit pos) price) eqn:E2;
    [apply Qle_bool_iff in E2 | apply Qle_bool_false in E2].
  { right. left. repeat split; assumption || reflexivity. }
  destruct (Qlt_bool 0 pnl) eqn:E3;
    [apply Qlt_bool_iff in E3 | apply Qlt_bool_false in E3];
    destruct (Auto.Token.signal token) eqn:E4; simpl;
    try (right; right; left; repeat split; (assumption || reflexivity));
    right; right; right; repeat split; try assumption; try reflexivity;
    intros [? ?]; try discriminate; lra.
Qed.

(** The three ways out of the callback of [Manual.checkPositions] when the
    position's token is quoted. *)
Lemma manual_checkPosition_cases currentTokens stillOpen toClose st pos token :
  find (fun t => String.eqb (Manual.Token.symbol t) (Manual.Position.symbol pos))
       currentTokens = Some token ->
  let price := Manual.Token.price token in
  let pnlEUR :=
    (price - Manual.Position.entryPrice pos) * Manual.Position.quantity pos
    * Manual.EUR_RATE in
  let res := Manual.checkPosition currentTokens (stillOpen, toClose, st) pos in
  (price <= Manual.Position.stopLoss pos /\
   res = (stillOpen,
          toClose ++ [Manual.Trade.mk pos "SL HIT ❌" (Some price) (Some pnlEUR)],
          Manual.setBalance (fun b => b + Manual.Position.valueEUR pos + pnlEUR) st)) \/
  (Manual.Position.stopLoss pos < price /\ Manual.Position.takeProfit pos <= price /\
   res = (stillOpen,
          toClose ++ [Manual.Trade.mk pos "TP HIT ✅" (Some price) (Some pnlEUR)],
          Manual.setBalance (fun b => b + Manual.Position.valueEUR pos + pnlEUR) st)) \/
  (Manual.Position.stopLoss pos < price /\ price < Manual.Position.takeProfit pos /\
   res = (stillOpen ++ [pos], toClose, st)).
Proof.
  intros Hfind price pnlEUR res. subst res. unfold Manual.checkPosition.
  rewrite Hfind. fold price. fold pnlEUR.
  destruct (Qle_bool price (Manual.Position.stopLoss pos)) eqn:E1;
    [apply Qle_bool_iff in E1 | apply Qle_bool_false in E1].
  { left. split; [assumption | reflexivity]. }
  destruct (Qle_bool (Manual.Position.takeProfit pos) price) eqn:E2;
    [apply Qle_bool_iff in E2 | apply Qle_bool_false in E2].
  { right. left. repeat split; assumption || reflexivity. }
  right. right. repeat split; assumption || reflexivity.
Qed.




End Exits.

(** ** The signal exit of the autonomous bot *)

Section SignalExit.

Import Num Auto Inv.

(** Any property of states kept by every call holds after a sequence of
    calls. *)
Lemma auto_calls_ind (P : State -> Prop) (ok : Call -> Prop) :
  (forall st c, ok c -> P st -> P (call st c)) ->
  forall cs st, Forall ok cs -> P st -> P (calls cs st).
Proof.
  intros Hcall cs. induction cs as [|c cs IH]; intros st Hok HP; [exact HP|].
  inversion Hok; subst. simpl. apply IH; [assumption|]. apply Hcall; assumption.
Qed.




Lemma checkPosition_None currentTokens now stillOpen st pos :
  find (fun t => String.eqb (Token.symbol t) (Position.symbol pos)) currentTokens = None ->
  checkPosition currentTokens now (stillOpen, st) pos = (stillOpen ++ [pos], st).
Proof. intros H. unfold checkPosition. rewrite H. reflexivity. Qed.







End SignalExit.

(** ** Opening a position in the autonomous bot *)

Section Opening.

Import Num Auto.

(** An accepted size is the 15% share: the reserve of 10 never binds. *)
Lemma tradeValue_accepted (b : Q) :
  20 <= min (b * CONFIG.POSITION_SIZE) (b - 10) ->
  min (b * CONFIG.POSITION_SIZE) (b - 10) = b * CONFIG.POSITION_SIZE /\ 50 < b.
Proof.
  unfold CONFIG.POSITION_SIZE.
  destruct (min_cases (b * (15 # 100)) (b - 10)) as [[H ->]|[H ->]]; intros H20.
  - split; [reflexivity | lra].
  - exfalso. lra.
Qed.

Lemma openPosition_rejected r token now st :
  min (balance r * CONFIG.POSITION_SIZE) (balance r - 10) < 20 ->
  openPosition r token now st = st.
Proof.
  intros H. unfold openPosition. apply Qlt_bool_iff in H. rewrite H. reflexivity.
Qed.

Lemma openPosition_accepted r token now st :
  20 <= min (balance r * CONFIG.POSITION_SIZE) (balance r - 10) ->
  let tradeValue := balance r * CONFIG.POSITION_SIZE in
  let position :=
    Position.mk now (Token.symbol token) (Token.price token) (Token.price token)
      (tradeValue / Token.price token) tradeValue 0 0
      (Token.price token * (1 - CONFIG.STOP_LOSS))
      (Token.price token * (1 + CONFIG.TAKE_PROFIT)) now in
  openPosition r token now st
  = addLog LogBUY now
      (setBalance (fun prev => prev - tradeValue)
         (setPositions (fun prev => prev ++ [position]) st)).
Proof.
  intros H. destruct (tradeValue_accepted _ H) as [Heq _].
  unfold openPosition. rewrite Heq.
  rewrite Heq in H. apply Qlt_bool_false in H. rewrite H. reflexivity.
Qed.

(** Two BUY tokens in one tick are both sized against the balance of the
    render (1000): each open debits 150, although 850 is left when the second
    debit is applied. *)
Lemma processSignals_two_opens :
  let sol := Token.mk "SOL" "Solana" 100 100 (-5) 20 BUY in
  let bonk := Token.mk "BONK" "Bonk" 2 2 (-6) 25 BUY in
  let st' := processSignals init [sol; bonk] 7 init in
  balance st' == 700 /\
  map Position.valueEUR (positions st') = [1000 * (15 # 100); 1000 * (15 # 100)].
Proof. split; vm_compute; reflexivity. Qed.

(** What one signal-driven open does, in terms of the render of its
    handler: when it goes through (BUY signal, positive price, no open
    position for the symbol and fewer than 4 open positions in the render's
    open set, size accepted), the amount debited is 15% of the balance the
    render shows, with no ceiling, and that amount is the new position's
    value; when the computed size is below 20, or when the render shows 4
    open positions, nothing in the state changes, not even the log. *)
Lemma processSignal_open_sizing (r : State) (token : Token.t) (now : Z) (st : State) :
  let shownBalance := balance r in
  let size := min (shownBalance * CONFIG.POSITION_SIZE) (shownBalance - 10) in
  let st' := processSignal r now st token in
  (Token.signal token = BUY -> 0 < Token.price token ->
   existsb (fun p => String.eqb (Position.symbol p) (Token.symbol token))
           (positions r) = false ->
   (length (positions r) < CONFIG.MAX_POSITIONS)%nat ->
   20 <= size ->
   balance st' = balance st - shownBalance * (15 # 100) /\
   exists pos,
     positions st' = positions st ++ [pos] /\
     Position.symbol pos = Token.symbol token /\
     Position.entryPrice pos = Token.price token /\
     Position.valueEUR pos = shownBalance * (15 # 100) /\
     Position.quantity pos = shownBalance * (15 # 100) / Token.price token) /\
  (size < 20 -> st' = st) /\
  (length (positions r) = CONFIG.MAX_POSITIONS -> st' = st).
Proof.
  intros shownBalance size st'. subst st'. unfold processSignal.
  split; [|split].
  - intros Hsig Hprice Hnone Hlen Hsize.
    destruct (tradeValue_accepted _ Hsize) as [_ H50].
    rewrite Hsig, Hnone. cbn [Signal_eqb negb andb].
    apply Qlt_bool_iff in Hprice. rewrite Hprice.
    apply Nat.ltb_lt in Hlen. rewrite Hlen.
    apply Qlt_bool_iff in H50. fold shownBalance. rewrite H50. cbn [andb].
    rewrite (openPosition_accepted r token now st Hsize).
    split; [reflexivity|]. eexists. split; [reflexivity|]. repeat split.
  - intros Hsize.
    repeat match goal with
           | |- context [if ?b then _ else _] => destruct b
           end; try reflexivity.
    apply openPosition_rejected. exact Hsize.
  - intros Hlen. rewrite Hlen, Nat.ltb_irrefl.
    rewrite andb_false_r. cbn [andb].
    destruct (_ && _); reflexivity.
Qed.


End Opening.

(** ** Closing a position: what the ledger receives *)

Section Closing.

Import Num.

Lemma manual_closePosition_found r posId st pos :
  find (fun p => Z.eqb (Manual.Position.id p) posId) (Manual.positions st) = Some pos ->
  let currentPrice :=
    or_else (Manual.Token.price <$>
               find (fun t => String.eqb (Manual.Token.symbol t) (Manual.Position.symbol pos))
                    (Manual.tokens r))
            (Manual.Position.entryPrice pos) in
  let pnlEUR :=
    (currentPrice - Manual.Position.entryPrice pos) * Manual.Position.quantity pos
    * Manual.EUR_RATE in
  Manual.closePosition r posId st
  = Manual.setPositions
      (fun prev => List.filter (fun p => negb (Z.eqb (Manual.Position.id p) posId)) prev)
      (Manual.setTrades
         (fun t => Manual.Trade.mk pos "CLOSED" (Some currentPrice) (Some pnlEUR) :: t)
         (Manual.setBalance (fun b => b + Manual.Position.valueEUR pos + pnlEUR) st)).
Proof. intros H. unfold Manual.closePosition. rewrite H. reflexivity. Qed.

(** The exit check of the manual simulator leaves the trade history to its
    caller: the callbacks only collect the records. *)
Lemma manual_checkPositions_trades currentTokens (ps : list Manual.Position.t) :
  forall stillOpen toClose st,
    Manual.trades
      (fold_left (Manual.checkPosition currentTokens) ps (stillOpen, toClose, st)).2
    = Manual.trades st.
Proof.
  induction ps as [|p ps IH]; intros stillOpen toClose st; [reflexivity|].
  cbn [fold_left]. unfold Manual.checkPosition at 2.
  destruct (find _ currentTokens) as [token|]; [|apply IH].
  destruct (Qle_bool _ _); [rewrite IH; reflexivity|].
  destruct (Qle_bool _ _); [rewrite IH; reflexivity|].
  apply IH.
Qed.

(** C5, as the code has it.  A position with allocated value [V], entry
    price [P] and quantity [V / P] (manual: [(V / rate) / P]) that is closed
    at exit price [P'] leaves the balance at the balance before plus
    [V + (P' - P) * Q] (manual: [V + (P' - P) * qty * rate]), whatever closes
    it: an exit of the autonomous bot (stop-loss, take-profit or signal), a
    stop-loss or take-profit exit of the manual simulator, or a manual close.
    The trade recorded by the autonomous bot carries result WIN when that P&L
    is at least 0 and LOSS otherwise.  The record of the manual simulator
    carries a status, the close price and the P&L: a stop-loss or take-profit
    exit collects a record with status SL HIT or TP HIT, which the exit check
    puts in front of the history, and a manual close a record with status
    CLOSED. *)
Theorem C5_close_credit :
  (forall pos P' reason now st V P,
     Auto.Position.valueEUR pos = V ->
     Auto.Position.entryPrice pos = P ->
     Auto.Position.quantity pos = V / P ->
     let qty := V / P in
     let st' := Auto.closeTrade pos P' reason now st in
     Auto.balance st' == Auto.balance st + V + (P' - P) * qty /\
     exists trade,
       Auto.trades st' = trade :: Auto.trades st /\
       Auto.Trade.reason trade = reason /\
       Auto.Trade.exitPrice trade = P' /\
       Auto.Trade.pnl trade = (P' - P) * qty /\
       (0 <= (P' - P) * qty -> Auto.Trade.result trade = Auto.WIN) /\
       ((P' - P) * qty < 0 -> Auto.Trade.result trade = Auto.LOSS)) /\
  (forall currentTokens stillOpen toClose st pos token V P,
     Manual.Position.valueEUR pos = V ->
     Manual.Position.entryPrice pos = P ->
     Manual.Position.quantity pos = V / Manual.EUR_RATE / P ->
     find (fun t => String.eqb (Manual.Token.symbol t) (Manual.Position.symbol pos))
          currentTokens = Some token ->
     let qty := V / Manual.EUR_RATE / P in
     let P' := Manual.Token.price token in
     let res := Manual.checkPosition currentTokens (stillOpen, toClose, st) pos in
     P' <= Manual.Position.stopLoss pos \/ Manual.Position.takeProfit pos <= P' ->
     res.1.1 = stillOpen /\
     Manual.balance res.2 == Manual.balance st + V + (P' - P) * qty * Manual.EUR_RATE /\
     exists status pnl,
       res.1.2 = toClose ++ [Manual.Trade.mk pos status (Some P') (Some pnl)] /\
       pnl == (P' - P) * qty * Manual.EUR_RATE /\
       (status = "SL HIT ❌"%string /\ P' <= Manual.Position.stopLoss pos \/
        status = "TP HIT ✅"%string /\ Manual.Position.stopLoss pos < P' /\
        Manual.Position.takeProfit pos <= P')) /\
  (forall currentTokens st,
     let res :=
       fold_left (Manual.checkPosition currentTokens) (Manual.positions st) ([], [], st) in
     Manual.positions (Manual.checkPositions currentTokens st) = res.1.1 /\
     Manual.trades (Manual.checkPositions currentTokens st) = res.1.2 ++ Manual.trades st) /\
  (forall r posId st pos V P,
     Manual.Position.valueEUR pos = V ->
     Manual.Position.entryPrice pos = P ->
     Manual.Position.quantity pos = V / Manual.EUR_RATE / P ->
     find (fun p => Z.eqb (Manual.Position.id p) posId) (Manual.positions st) = Some pos ->
     let qty := V / Manual.EUR_RATE / P in
     let P' :=
       or_else (Manual.Token.price <$>
                  find (fun t => String.eqb (Manual.Token.symbol t) (Manual.Position.symbol pos))
                       (Manual.tokens r)) P in
     let st' := Manual.closePosition r posId st in
     Manual.balance st' == Manual.balance st + V + (P' - P) * qty * Manual.EUR_RATE /\
     exists pnl,
       Manual.trades st' = Manual.Trade.mk pos "CLOSED" (Some P') (Some pnl) :: Manual.trades st /\
       pnl == (P' - P) * qty * Manual.EUR_RATE).
Proof.
  split; [|split; [|split]].
  - intros pos P' reason now st V P HV HP HQ qty st'. subst st'.
    split.
    + unfold Auto.closeTrade, Auto.addLog.
      cbn [Auto.balance Auto.setBalance Auto.setTrades Auto.setLogs].
      rewrite HV, HP, HQ. subst qty. ring.
    + eexists. split; [apply closeTrade_trades|].
      cbn [Auto.Trade.reason Auto.Trade.exitPrice Auto.Trade.pnl Auto.Trade.result].
      rewrite HP, HQ. subst qty. repeat split.
      * intros H. apply Qle_bool_iff in H. rewrite H. reflexivity.
      * intros H. apply Qle_bool_false in H. rewrite H. reflexivity.
  - intros currentTokens stillOpen toClose st pos token V P HV HP HQ Hfind qty P' res Hexit.
    destruct (manual_checkPosition_cases currentTokens stillOpen toClose st pos token Hfind)
      as [(H1 & Hres) | [(H1 & H2 & Hres) | (H1 & H2 & Hres)]];
      fold P' in H1, Hres; try fold P' in H2; fold res in Hres.
    + rewrite Hres. cbn [fst snd Manual.balance Manual.setBalance].
      rewrite HV, HP, HQ. subst qty. split; [reflexivity|]. split; [reflexivity|].
      eexists. eexists. split; [reflexivity|]. split; [reflexivity|].
      left. split; [reflexivity | exact H1].
    + rewrite Hres. cbn [fst snd Manual.balance Manual.setBalance].
      rewrite HV, HP, HQ. subst qty. split; [reflexivity|]. split; [reflexivity|].
      eexists. eexists. split; [reflexivity|]. split; [reflexivity|].
      right. split; [reflexivity|]. split; assumption.
    + exfalso. destruct Hexit; lra.
  - intros currentTokens st res. subst res. unfold Manual.checkPositions.
    pose proof (manual_checkPositions_trades currentTokens (Manual.positions st) [] [] st)
      as Htr.
    destruct (fold_left _ _ _) as [[stillOpen toClose] st1]. cbn [fst snd] in *.
    destruct toClose as [|t toClose]; cbn [length Nat.ltb Nat.leb];
      cbn [Manual.positions Manual.trades Manual.setPositions Manual.setTrades app];
      (split; [reflexivity|]); rewrite Htr; reflexivity.
  - intros r posId st pos V P HV HP HQ Hfind qty P' st'. subst st'.
    rewrite (manual_closePosition_found r posId st pos Hfind).
    cbn [Manual.balance Manual.trades Manual.setBalance Manual.setTrades
         Manual.setPositions].
    rewrite HV, HP, HQ. fold P'. subst qty. split.
    + reflexivity.
    + eexists. split; reflexivity.
Qed.

(** C5 at a position of value 150 opened at 100 and stopped out at 97 by the
    autonomous bot, and at a position of value 92 opened at 100 in the manual
    simulator, stopped out at 97 by the exit check and closed by hand at
    103. *)
Lemma C5_close_credit_witness :
  (let pos := Auto.Position.mk 1 "SOL" 100 100 (150 / 100) 150 0 0 97 108 0 in
   Auto.balance (Auto.closeTrade pos 97 Auto.SL 9 Auto.init)
   == 1000 + 150 + (97 - 100) * (150 / 100)) /\
  (let pos := Manual.Position.mk 1 "SOL" 100 (92 / Manual.EUR_RATE / 100) 92
                (975 # 10) 106 0 in
   let tok := Manual.Token.mk "solana" "SOL" "Solana" 97 0 "blue-chip" in
   let st := Manual.mkState 908 [pos] [] [tok] false None in
   exists status pnl,
     (Manual.checkPosition [tok] ([], [], st) pos).1.2
     = [] ++ [Manual.Trade.mk pos status (Some 97) (Some pnl)] /\
     pnl == (97 - 100) * (92 / Manual.EUR_RATE / 100) * Manual.EUR_RATE) /\
  (let pos := Manual.Position.mk 1 "SOL" 100 (92 / Manual.EUR_RATE / 100) 92
                (975 # 10) 106 0 in
   let tok := Manual.Token.mk "solana" "SOL" "Solana" 103 0 "blue-chip" in
   let st := Manual.mkState 908 [pos] [] [tok] false None in
   Manual.balance (Manual.closePosition st 1 st)
   == 908 + 92 + (103 - 100) * (92 / Manual.EUR_RATE / 100) * Manual.EUR_RATE).
Proof.
  split; [|split].
  - intros pos.
    apply (proj1 (proj1 C5_close_credit pos 97 Auto.SL 9%Z Auto.init 150 100
                    eq_refl eq_refl eq_refl)).
  - intros pos tok st.
    destruct (proj1 (proj2 C5_close_credit) [tok] [] [] st pos tok 92 100
                eq_refl eq_refl eq_refl eq_refl)
      as (_ & _ & status & pnl & Hrec & Hpnl & _).
    + left. vm_compute. discriminate.
    + exists status, pnl. split; [exact Hrec | exact Hpnl].
  - intros pos tok st.
    apply (proj1 (proj2 (proj2 (proj2 C5_close_credit)) st 1%Z st pos 92 100
                    eq_refl eq_refl eq_refl eq_refl)).
Defined.

(** C5 as stated fails for the manual simulator: its trade record has a
    status and a P&L but no WIN/LOSS result.  The same position closed by
    hand at a gain (price 103) and at a loss (price 99) is recorded with the
    same status ["CLOSED"], which is neither ["WIN"] nor ["LOSS"]. *)
Lemma C5_manual_trade_has_no_result :
  let pos := Manual.Position.mk 1 "SOL" 100 (92 / Manual.EUR_RATE / 100) 92
               (975 # 10) 106 0 in
  let quoted price :=
    Manual.mkState 908 [pos] []
      [Manual.Token.mk "solana" "SOL" "Solana" price 0 "blue-chip"] false None in
  exists gain loss,
    Manual.trades (Manual.closePosition (quoted 103) 1 (quoted 103))
    = [Manual.Trade.mk pos "CLOSED" (Some 103) (Some gain)] /\
    Manual.trades (Manual.closePosition (quoted 99) 1 (quoted 99))
    = [Manual.Trade.mk pos "CLOSED" (Some 99) (Some loss)] /\
    0 <= gain /\ loss < 0 /\
    "CLOSED"%string <> "WIN"%string /\ "CLOSED"%string <> "LOSS"%string.
Proof.
  intros pos quoted. eexists. eexists.
  split; [reflexivity|]. split; [reflexivity|].
  split; [vm_compute; discriminate|]. split; [reflexivity|].
  split; discriminate.
Qed.

(** C10.  In the manual simulator, closing a position by hand removes it
    from the open set, which is otherwise unchanged, and records it as CLOSED
    at the price [token?.price || pos.entryPrice], with the P&L at that price
    credited with the allocated value.  For a position whose symbol has no
    token in the current quotes, or a token with price zero, that price is
    the entry price: the recorded close price is the entry price, the
    realized P&L is zero and the balance receives exactly the position's
    allocated value. *)
Theorem C10_closePosition_without_quote
  (r : Manual.State) (posId : Z) (st : Manual.State) (pos : Manual.Position.t) :
  find (fun p => Z.eqb (Manual.Position.id p) posId) (Manual.positions st) = Some pos ->
  let closePrice := ManualStats.currentPrice r pos in
  let pnl :=
    (closePrice - Manual.Position.entryPrice pos) * Manual.Position.quantity pos
    * Manual.EUR_RATE in
  let st' := Manual.closePosition r posId st in
  ~ In pos (Manual.positions st') /\
  Manual.positions st'
  = List.filter (fun p => negb (Z.eqb (Manual.Position.id p) posId)) (Manual.positions st) /\
  Manual.balance st' = Manual.balance st + Manual.Position.valueEUR pos + pnl /\
  Manual.trades st'
  = Manual.Trade.mk pos "CLOSED" (Some closePrice) (Some pnl) :: Manual.trades st /\
  ((forall token,
      find (fun t => String.eqb (Manual.Token.symbol t) (Manual.Position.symbol pos))
           (Manual.tokens r) = Some token ->
      Manual.Token.price token == 0) ->
   closePrice = Manual.Position.entryPrice pos /\
   pnl == 0 /\
   Manual.balance st' == Manual.balance st + Manual.Position.valueEUR pos).
Proof.
  intros Hfind closePrice pnl st'. subst st'.
  rewrite (manual_closePosition_found r posId st pos Hfind).
  cbn [Manual.balance Manual.trades Manual.positions Manual.setBalance Manual.setTrades
       Manual.setPositions].
  fold (ManualStats.currentPrice r pos). fold closePrice. fold pnl.
  split; [|split; [reflexivity|split; [reflexivity|split; [reflexivity|]]]].
  - intros Hin. apply filter_In in Hin. destruct Hin as [_ Hid].
    apply find_some in Hfind. destruct Hfind as [_ Heq].
    rewrite Heq in Hid. discriminate Hid.
  - intros Hquote.
    assert (Hprice : closePrice = Manual.Position.entryPrice pos).
    { subst closePrice. unfold ManualStats.currentPrice.
      destruct (find _ (Manual.tokens r)) as [token|] eqn:E; [|reflexivity].
      cbn. rewrite (Qeq_eq_bool _ _ (Hquote token eq_refl)). reflexivity. }
    split; [exact Hprice|]. subst pnl. rewrite Hprice. split; ring.
Qed.

(** C10 at the state in which the user holds SOL, bought at 100 and still
    quoted at 100, and at a position on SOL while SOL is quoted at zero and
    while no token is quoted: each close empties the open set, and without a
    quote the value of 92 comes back. *)
Lemma C10_closePosition_without_quote_witness :
  (let st := Manual.run Scenario.manual_buy Manual.init in
   Manual.positions (Manual.closePosition st 2 st) = []) /\
  (let pos := Manual.Position.mk 1 "SOL" 100 (92 / Manual.EUR_RATE / 100) 92
                (975 # 10) 106 0 in
   let loading := Manual.mkState 908 [pos] [] [] true None in
   let zero :=
     Manual.mkState 908 [pos] []
       [Manual.Token.mk "solana" "SOL" "Solana" 0 0 "blue-chip"] false None in
   (Manual.positions (Manual.closePosition loading 1 loading) = [] /\
    Manual.balance (Manual.closePosition loading 1 loading) == 908 + 92) /\
   (Manual.positions (Manual.closePosition zero 1 zero) = [] /\
    Manual.balance (Manual.closePosition zero 1 zero) == 908 + 92)).
Proof.
  split.
  - intros st.
    pose (tradeSize := min 100 (Manual.INITIAL_BALANCE * (1 # 10))).
    pose (pos := Manual.Position.mk 2 "SOL" 100 (tradeSize / Manual.EUR_RATE / 100)
                   tradeSize (100 * (1 - Manual.STOP_LOSS))
                   (100 * (1 + Manual.TAKE_PROFIT)) 2).
    destruct (C10_closePosition_without_quote st 2%Z st pos) as (_ & Hpos & _).
    + reflexivity.
    + exact Hpos.
  - intros pos loading zero. split.
    + destruct (C10_closePosition_without_quote loading 1%Z loading pos eq_refl)
        as (_ & Hpos & _ & _ & Hfallback).
      destruct Hfallback as (_ & _ & Hbal); [intros token H; discriminate H|].
      split; [exact Hpos | exact Hbal].
    + destruct (C10_closePosition_without_quote zero 1%Z zero pos eq_refl)
        as (_ & Hpos & _ & _ & Hfallback).
      destruct Hfallback as (_ & _ & Hbal); [intros token H; injection H as <-; reflexivity|].
      split; [exact Hpos | exact Hbal].
Defined.

End Closing.

(** ** The ledger of the autonomous bot *)

Section AutoLedger.

Import Num Auto Inv.

Lemma hasPosition_false (ps : list Position.t) (symbol : string) :
  existsb (fun p => String.eqb (Position.symbol p) symbol) ps = false <->
  symbol ∉ map Position.symbol ps.
Proof.
  induction ps as [|p ps IH]; simpl.
  - split; [intros _ H; inversion H | reflexivity].
  - rewrite orb_false_iff, IH, not_elem_of_cons.
    destruct (String.eqb_spec (Position.symbol p) symbol) as [->|Hne].
    + split; [intros [H _]; discriminate | intros [H _]; congruence].
    + split; [intros [_ H]; split; [congruence | exact H]
             | intros [_ H]; split; [reflexivity | exact H]].
Qed.

(** What one callback of [processSignals] does to the balance and to the
    open set. *)
Lemma processSignal_effect r now st token :
  0 <= balance r ->
  let st' := processSignal r now st token in
  balance st - balance r * (15 # 100) <= balance st' <= balance st /\
  (positions st' = positions st \/
   exists pos,
     positions st' = positions st ++ [pos] /\ auto_pos_ok pos /\
     Position.symbol pos = Token.symbol token /\
     Token.symbol token ∉ map Position.symbol (positions r)).
Proof.
  intros Hb st'. subst st'. unfold processSignal.
  assert (Hsame : balance st - balance r * (15 # 100) <= balance st <= balance st /\
                  (positions st = positions st \/
                   exists pos,
                     positions st = positions st ++ [pos] /\ auto_pos_ok pos /\
                     Position.symbol pos = Token.symbol token /\
                     Token.symbol token ∉ map Position.symbol (positions r))).
  { split; [lra | left; reflexivity]. }
  destruct (Signal_eqb (Token.signal token) BUY); [|exact Hsame].
  destruct (Qlt_bool 0 (Token.price token)) eqn:Hprice; [|exact Hsame].
  apply Qlt_bool_iff in Hprice. cbn [andb].
  destruct (existsb _ (positions r)) eqn:Hhas; [exact Hsame|].
  apply hasPosition_false in Hhas.
  destruct (length (positions r) <? CONFIG.MAX_POSITIONS)%nat; [|exact Hsame].
  destruct (Qlt_bool 50 (balance r)) eqn:H50; [|exact Hsame].
  apply Qlt_bool_iff in H50. cbn [negb andb].
  destruct (Qlt_le_dec (min (balance r * CONFIG.POSITION_SIZE) (balance r - 10)) 20)
    as [Hrej|Hacc].
  - rewrite (openPosition_rejected r token now st Hrej). exact Hsame.
  - rewrite (openPosition_accepted r token now st Hacc).
    unfold addLog.
    cbn [balance positions setLogs setBalance setPositions].
    unfold CONFIG.POSITION_SIZE. split; [lra|].
    right. eexists. split; [reflexivity|].
    split; [|split; [reflexivity | exact Hhas]].
    unfold auto_pos_ok. cbn [Position.quantity Position.entryPrice Position.valueEUR].
    split.
    + apply Qle_shift_div_l; [exact Hprice | lra].
    + rewrite Qmult_div_r by lra. lra.
Qed.

(** The number of tokens of a tick, as a number. *)
Lemma inject_length_cons {A : Type} (x : A) (l : list A) :
  inject_Z (Z.of_nat (length (x :: l))) == 1 + inject_Z (Z.of_nat (length l)).
Proof.
  cbn [length]. rewrite Nat2Z.inj_succ, <- Z.add_1_l, inject_Z_plus. reflexivity.
Qed.

(** A whole [processSignals]: every open of the tick debits at most 15% of
    the balance of the render, and every position it adds is sound, carries
    the symbol of one of the tokens, in their order, and a symbol that is
    not in the render's open set. *)
Lemma processSignals_effect r now (currentTokens : list Token.t) :
  0 <= balance r ->
  forall st,
    let st' := processSignals r currentTokens now st in
    balance st - inject_Z (Z.of_nat (length currentTokens)) * (balance r * (15 # 100))
      <= balance st' /\
    exists news,
      positions st' = positions st ++ news /\
      Forall auto_pos_ok news /\
      map Position.symbol news `sublist_of` map Token.symbol currentTokens /\
      Forall (fun s => s ∉ map Position.symbol (positions r)) (map Position.symbol news).
Proof.
  intros Hb. unfold processSignals. cbv zeta.
  induction currentTokens as [|t ts IH]; intros st; cbv zeta.
  - cbn [fold_left length]. split; [change (inject_Z (Z.of_nat 0)) with 0; lra|].
    exists []. rewrite app_nil_r. repeat split; constructor.
  - cbn [fold_left]. rewrite inject_length_cons.
    destruct (processSignal_effect r now st t Hb) as [[Hlo Hhi] Hpos].
    destruct (IH (processSignal r now st t)) as [Hbal (news & Hnews & Hok & Hsub & Hfresh)].
    split; [nra|].
    destruct Hpos as [Hpos | (pos & Hpos & Hpok & Hsym & Hnot)].
    + exists news. rewrite Hnews, Hpos. split; [reflexivity|].
      split; [exact Hok|]. split; [|exact Hfresh].
      cbn [map]. apply sublist_cons. exact Hsub.
    + exists (pos :: news). rewrite Hnews, Hpos, <- app_assoc. split; [reflexivity|].
      split; [constructor; assumption|].
      cbn [map]. split.
      * rewrite Hsym. apply sublist_skip. exact Hsub.
      * constructor; [rewrite Hsym; exact Hnot | exact Hfresh].
Qed.

(** What one callback of [checkPositions] does to [stillOpen]: the position
    is dropped, or kept under its symbol with the same entry, quantity and
    value. *)
Lemma checkPosition_open_set currentTokens now stillOpen st pos :
  let res := checkPosition currentTokens now (stillOpen, st) pos in
  positions res.2 = positions st /\
  (res.1 = stillOpen \/
   exists pos',
     res.1 = stillOpen ++ [pos'] /\
     Position.symbol pos' = Position.symbol pos /\
     (auto_pos_ok pos -> auto_pos_ok pos')).
Proof.
  intros res. subst res.
  destruct (find (fun t => String.eqb (Token.symbol t) (Position.symbol pos))
                 currentTokens) as [token|] eqn:Hfind.
  - destruct (auto_checkPosition_cases currentTokens now stillOpen st pos token Hfind)
      as [(_ & ->) | [(_ & _ & ->) | [(_ & _ & _ & _ & ->) | (_ & _ & _ & ->)]]];
      cbn [fst snd]; (split; [reflexivity|]);
      try (left; reflexivity).
    right. eexists. split; [reflexivity|]. split; [reflexivity|].
    intros Hok. exact Hok.
  - rewrite (checkPosition_None _ _ _ _ _ Hfind). cbn [fst snd].
    split; [reflexivity|]. right. exists pos.
    split; [reflexivity|]. split; [reflexivity|]. intros Hok; exact Hok.
Qed.

(** A sound position closed at a price that is not negative credits an
    amount that is not negative. *)
Lemma auto_credit_nonneg pos exitPrice :
  auto_pos_ok pos -> 0 <= exitPrice ->
  0 <= Position.valueEUR pos + (exitPrice - Position.entryPrice pos) * Position.quantity pos.
Proof. intros [Hq Hv] Hp. nra. Qed.

Lemma balance_closeTrade pos exitPrice reason now st :
  balance (closeTrade pos exitPrice reason now st)
  = balance st
    + (Position.valueEUR pos + (exitPrice - Position.entryPrice pos) * Position.quantity pos).
Proof. reflexivity. Qed.

Lemma checkPosition_balance currentTokens now stillOpen st pos :
  Forall (fun t => 0 <= Token.price t) currentTokens ->
  auto_pos_ok pos ->
  balance st <= balance (checkPosition currentTokens now (stillOpen, st) pos).2.
Proof.
  intros Hprices Hpos.
  destruct (find (fun t => String.eqb (Token.symbol t) (Position.symbol pos))
                 currentTokens) as [token|] eqn:Hfind.
  - assert (Hprice : 0 <= Token.price token).
    { rewrite Forall_forall in Hprices. apply Hprices.
      apply list_elem_of_In. apply (find_some _ _ Hfind). }
    pose proof (auto_credit_nonneg pos (Token.price token) Hpos Hprice) as Hcredit.
    destruct (auto_checkPosition_cases currentTokens now stillOpen st pos token Hfind)
      as [(_ & ->) | [(_ & _ & ->) | [(_ & _ & _ & _ & ->) | (_ & _ & _ & ->)]]];
      cbn [snd]; rewrite ?balance_closeTrade; lra.
  - rewrite (checkPosition_None _ _ _ _ _ Hfind). cbn [snd]. lra.
Qed.

(** A whole [checkPositions]: the open set shrinks to a sub-list (by
    symbol), sound positions stay sound, and with prices that are not
    negative the balance does not go down. *)
Lemma checkPositions_fold currentTokens now (ps : list Position.t) :
  forall stillOpen st,
    let res := fold_left (checkPosition currentTokens now) ps (stillOpen, st) in
    positions res.2 = positions st /\
    (exists kept,
       res.1 = stillOpen ++ kept /\
       map Position.symbol kept `sublist_of` map Position.symbol ps /\
       (Forall auto_pos_ok ps -> Forall auto_pos_ok kept)) /\
    (Forall (fun t => 0 <= Token.price t) currentTokens ->
     Forall auto_pos_ok ps -> balance st <= balance res.2).
Proof.
  induction ps as [|p ps IH]; intros stillOpen st; cbv zeta.
  - cbn [fold_left fst snd]. split; [reflexivity|]. split; [|intros; lra].
    exists []. rewrite app_nil_r. repeat split; constructor.
  - cbn [fold_left].
    destruct (checkPosition currentTokens now (stillOpen, st) p) as [so1 st1] eqn:E.
    pose proof (checkPosition_open_set currentTokens now stillOpen st p) as Hset.
    pose proof (checkPosition_balance currentTokens now stillOpen st p) as Hbal.
    rewrite E in Hset, Hbal. cbn [fst snd] in Hset, Hbal.
    destruct Hset as [Hpos1 Hset].
    destruct (IH so1 st1) as (Hpos & (kept & Hkept & Hsub & Hok) & Hb).
    split; [congruence|]. split.
    + destruct Hset as [-> | (pos' & -> & Hsym & Hpok)].
      * exists kept. split; [exact Hkept|]. split.
        -- cbn [map]. apply sublist_cons. exact Hsub.
        -- intros H. inversion H; subst. apply Hok. assumption.
      * exists (pos' :: kept). rewrite Hkept, <- app_assoc. split; [reflexivity|].
        split.
        -- cbn [map]. rewrite Hsym. apply sublist_skip. exact Hsub.
        -- intros H. inversion H; subst. constructor; [apply Hpok | apply Hok]; assumption.
    + intros Hprices H. inversion H; subst.
      specialize (Hbal Hprices ltac:(assumption)).
      specialize (Hb Hprices ltac:(assumption)). lra.
Qed.

Lemma checkPositions_effect currentTokens now st :
  let st' := checkPositions currentTokens now st in
  map Position.symbol (positions st') `sublist_of` map Position.symbol (positions st) /\
  (Forall auto_pos_ok (positions st) -> Forall auto_pos_ok (positions st')) /\
  (Forall (fun t => 0 <= Token.price t) currentTokens ->
   Forall auto_pos_ok (positions st) -> balance st <= balance st').
Proof.
  cbv zeta. unfold checkPositions.
  pose proof (checkPositions_fold currentTokens now (positions st) [] st) as H.
  cbv zeta in H. destruct (fold_left _ _ _) as [stillOpen st'].
  cbn [fst snd] in H. destruct H as (_ & (kept & -> & Hsub & Hok) & Hb).
  cbn [positions balance setPositions app]. repeat split; assumption.
Qed.

(** The tokens a tick builds: one per configured token, under its symbol,
    priced at the quoted price (0 when the quote is missing). *)
Lemma updateTokens_facts r data (cfgs : list TokenConfig.t) :
  forall out h,
    let res := fold_left (updateToken r data) cfgs (out, h) in
    map Token.symbol res.1 = map Token.symbol out ++ map TokenConfig.symbol cfgs /\
    (Forall (fun t => 0 <= Token.price t) out ->
     forallb (fun t => Qle_bool 0 (or_else (data !! TokenConfig.id t ≫= Quote.usd) 0)) cfgs
     = true ->
     Forall (fun t => 0 <= Token.price t) res.1).
Proof.
  induction cfgs as [|c cs IH]; intros out h; cbv zeta.
  - cbn [fold_left fst map]. rewrite app_nil_r. split; [reflexivity | intros H _; exact H].
  - cbn [fold_left]. unfold updateToken at 2.
    match goal with
    | |- context [fold_left _ cs (?o, ?h')] => destruct (IH o h') as [Hsym Hprice]
    end.
    split.
    + rewrite Hsym, map_app, <- app_assoc. reflexivity.
    + intros Hout Hq. cbn [forallb] in Hq. apply andb_true_iff in Hq.
      destruct Hq as [Hc Hcs]. apply Hprice; [|exact Hcs].
      apply Forall_app. split; [exact Hout|]. constructor; [|constructor].
      cbn [Token.price]. apply Qle_bool_iff. exact Hc.
Qed.

Lemma TOKENS_CONFIG_symbols_NoDup : NoDup (map TokenConfig.symbol TOKENS_CONFIG).
Proof. apply (bool_decide_unpack _). vm_compute. exact I. Qed.

(** A render that shows a balance of 50 or less opens nothing. *)
Lemma processSignals_poor r currentTokens now st :
  balance r <= 50 -> processSignals r currentTokens now st = st.
Proof.
  intros Hb. unfold processSignals. revert st.
  induction currentTokens as [|t ts IH]; intros st; [reflexivity|].
  cbn [fold_left]. rewrite <- (IH st) at 2. f_equal. unfold processSignal.
  assert (H50 : Qlt_bool 50 (balance r) = false) by (apply Qlt_bool_false; exact Hb).
  rewrite H50, andb_false_r. destruct (_ && _); reflexivity.
Qed.

(** What a whole [processSignals] adds to the open set, whatever the
    balance of the render. *)
Lemma processSignals_news r now (currentTokens : list Token.t) st :
  exists news,
    positions (processSignals r currentTokens now st) = positions st ++ news /\
    Forall auto_pos_ok news /\
    map Position.symbol news `sublist_of` map Token.symbol currentTokens /\
    Forall (fun s => s ∉ map Position.symbol (positions r)) (map Position.symbol news).
Proof.
  destruct (Qlt_le_dec (balance r) 0) as [Hneg|Hb].
  - rewrite processSignals_poor by lra. exists []. rewrite app_nil_r.
    split; [reflexivity|]. split; [constructor|]. split; [|constructor].
    apply sublist_nil_l.
  - destruct (processSignals_effect r now currentTokens Hb st) as [_ H]. exact H.
Qed.

(** A tick whose handler reads the balance that is available keeps the
    ledger sound when no quoted price is negative: the at most six opens take
    at most 90% of the balance, and every close credits an amount that is not
    negative. *)
Lemma auto_tick_ledger r st data now :
  auto_quotes_nonneg data = true ->
  balance r = balance st ->
  auto_ledger_ok st -> auto_ledger_ok (fetchPrices r (Some data) now st).
Proof.
  intros Hq Hr [Hb Hpos]. unfold fetchPrices.
  pose proof (updateTokens_facts r data TOKENS_CONFIG [] (priceHistory st)) as Hup.
  cbv zeta in Hup. destruct (fold_left _ _ _) as [updatedTokens h].
  cbn [fst map app] in Hup. destruct Hup as [Hsym Hprices].
  specialize (Hprices ltac:(constructor) Hq).
  set (st1 := setLastUpdate (Some now)
                (setTokens (fun _ => updatedTokens) (setPriceHistory h st))).
  destruct (isRunning r); [|split; assumption].
  assert (Hlen : length updatedTokens = 6%nat).
  { apply (f_equal length) in Hsym. rewrite !length_map in Hsym. exact Hsym. }
  assert (Hbr : 0 <= balance r) by (rewrite Hr; exact Hb).
  destruct (processSignals_effect r now updatedTokens Hbr st1)
    as [Hbal (news & Hnews & Hok & _ & _)].
  rewrite Hlen, Hr in Hbal. change (balance st1) with (balance st) in Hbal.
  change (positions st1) with (positions st) in Hnews.
  change (inject_Z (Z.of_nat 6)) with 6 in Hbal.
  set (st2 := processSignals r updatedTokens now st1) in *.
  assert (Hpos2 : Forall auto_pos_ok (positions st2)).
  { rewrite Hnews. apply Forall_app. split; assumption. }
  destruct (checkPositions_effect updatedTokens now st2) as (_ & Hkeep & Hcredit).
  split; [|apply Hkeep; exact Hpos2].
  specialize (Hcredit Hprices Hpos2). lra.
Qed.

(** Every position a tick leaves open is sound, whatever the render and the
    quotes. *)
Lemma auto_tick_pos_ok r resp now st :
  Forall auto_pos_ok (positions st) ->
  Forall auto_pos_ok (positions (fetchPrices r resp now st)).
Proof.
  intros Hpos. unfold fetchPrices. destruct resp as [data|]; [|exact Hpos].
  destruct (fold_left _ _ _) as [updatedTokens h].
  set (st1 := setLastUpdate (Some now)
                (setTokens (fun _ => updatedTokens) (setPriceHistory h st))).
  destruct (isRunning r); [|exact Hpos].
  destruct (processSignals_news r now updatedTokens st1) as (news & Hnews & Hok & _).
  change (positions st1) with (positions st) in Hnews.
  destruct (checkPositions_effect updatedTokens now
              (processSignals r updatedTokens now st1)) as (_ & Hkeep & _).
  apply Hkeep. rewrite Hnews. apply Forall_app. split; assumption.
Qed.

(** A tick whose handler reads the open set as it is keeps one position per
    symbol. *)
Lemma auto_tick_one_per_symbol r resp now st :
  positions r = positions st ->
  auto_one_per_symbol st -> auto_one_per_symbol (fetchPrices r resp now st).
Proof.
  unfold auto_one_per_symbol. intros Hr Hnd. unfold fetchPrices.
  destruct resp as [data|]; [|exact Hnd].
  pose proof (updateTokens_facts r data TOKENS_CONFIG [] (priceHistory st)) as Hup.
  cbv zeta in Hup. destruct (fold_left _ _ _) as [updatedTokens h].
  cbn [fst map app] in Hup. destruct Hup as [Hsym _].
  set (st1 := setLastUpdate (Some now)
                (setTokens (fun _ => updatedTokens) (setPriceHistory h st))).
  destruct (isRunning r); [|exact Hnd].
  assert (Hopen : NoDup (map Position.symbol
                           (positions (processSignals r updatedTokens now st1)))).
  { destruct (processSignals_news r now updatedTokens st1)
      as (news & Hnews & _ & Hsub & Hfresh).
    rewrite Hnews. change (positions st1) with (positions st).
    rewrite map_app. apply NoDup_app. split; [exact Hnd|]. split.
    + intros s Hin Hin'. rewrite Forall_forall in Hfresh.
      apply (Hfresh s Hin'). rewrite Hr. exact Hin.
    + eapply sublist_NoDup; [|exact Hsub]. rewrite Hsym.
      apply TOKENS_CONFIG_symbols_NoDup. }
  destruct (checkPositions_effect updatedTokens now
              (processSignals r updatedTokens now st1)) as (Hsub & _ & _).
  eapply sublist_NoDup; [exact Hopen | exact Hsub].
Qed.

Lemma auto_calls_pos_ok cs : Forall auto_pos_ok (positions (calls cs init)).
Proof.
  apply (auto_calls_ind (fun st => Forall auto_pos_ok (positions st)) (fun _ => True)).
  - intros st c _ Hst. destruct c as [r resp now | r now | now]; cbn [call].
    + apply auto_tick_pos_ok, Hst.
    + exact Hst.
    + constructor.
  - apply Forall_forall. intros; exact I.
  - constructor.
Qed.

(** A [fetchPrices] that belongs to a render in which the bot does not run
    passes [if (isRunning)] by: it neither opens nor closes. *)
Lemma fetchPrices_stopped r resp now st :
  isRunning r = false ->
  balance (fetchPrices r resp now st) = balance st /\
  positions (fetchPrices r resp now st) = positions st /\
  trades (fetchPrices r resp now st) = trades st /\
  isRunning (fetchPrices r resp now st) = isRunning st.
Proof.
  intros Hr. unfold fetchPrices.
  destruct resp as [data|]; [|repeat split].
  destruct (fold_left _ _ _) as [updatedTokens h]. rewrite Hr. repeat split.
Qed.

Lemma calls_stopped cs :
  Forall auto_call_stopped cs ->
  balance (calls cs init) = CONFIG.INITIAL_BALANCE /\
  positions (calls cs init) = [] /\ trades (calls cs init) = [].
Proof.
  intros Hcs.
  apply (auto_calls_ind
           (fun st => balance st = CONFIG.INITIAL_BALANCE /\
                      positions st = [] /\ trades st = [])
           auto_call_stopped); [|exact Hcs|repeat split].
  intros st c Hc (Hb & Hp & Ht).
  destruct c as [r resp now | r now | now]; cbn [call].
  - destruct (fetchPrices_stopped r resp now st Hc) as (H1 & H2 & H3 & _).
    repeat split; congruence.
  - repeat split; assumption.
  - repeat split.
Qed.

(** The component keeps its closures stopped: [toggleBot] hands out the
    [fetchPrices] of the render it belongs to only when that render shows a
    stopped bot. *)
Lemma step_closures_stopped c e :
  auto_closures_stopped c -> auto_closures_stopped (step c e).
Proof.
  unfold auto_closures_stopped. destruct c as [st m i].
  cbn [mountCall interval]. intros [Hm Hi].
  destruct e as [resp now | resp now | now | now];
    cbn [step state mountCall interval].
  - destruct m as [r|]; cbn [mountCall interval]; split; try assumption.
    intros r' H. discriminate H.
  - destruct i as [r|]; cbn [mountCall interval]; split; assumption.
  - split; [exact Hm|].
    destruct (isRunning st) eqn:E; intros r H; [discriminate H|].
    injection H as <-. exact E.
  - split; [exact Hm | intros r H; discriminate H].
Qed.

(** Every run of the component is a sequence of handler calls in which
    every [fetchPrices] belongs to a render with a stopped bot. *)
Lemma run_calls es :
  forall c,
    auto_closures_stopped c ->
    exists cs, Forall auto_call_stopped cs /\ state (run es c) = calls cs (state c).
Proof.
  induction es as [|e es IH]; intros c Hc.
  - exists []. split; [constructor | reflexivity].
  - cbn [run fold_left]. fold (run es (step c e)).
    destruct (IH (step c e) (step_closures_stopped c e Hc)) as (cs & Hcs & Heq).
    rewrite Heq. clear Heq IH. destruct Hc as [Hm Hi]. destruct c as [st m i].
    cbn [mountCall interval] in Hm, Hi.
    destruct e as [resp now | resp now | now | now];
      cbn [step state mountCall interval].
    + destruct m as [r|]; cbn [state].
      * exists (CallFetch r resp now :: cs).
        split; [constructor; [apply Hm; reflexivity | exact Hcs] | reflexivity].
      * exists cs. split; [exact Hcs | reflexivity].
    + destruct i as [r|]; cbn [state].
      * exists (CallFetch r resp now :: cs).
        split; [constructor; [apply Hi; reflexivity | exact Hcs] | reflexivity].
      * exists cs. split; [exact Hcs | reflexivity].
    + exists (CallToggle st now :: cs).
      split; [constructor; [exact I | exact Hcs] | reflexivity].
    + exists (CallReset now :: cs).
      split; [constructor; [exact I | exact Hcs] | reflexivity].
Qed.

Lemma mounted_closures_stopped : auto_closures_stopped mounted.
Proof.
  split; cbn; intros r H; [injection H as <-; reflexivity | discriminate H].
Qed.

(** As it is wired, the component never opens or closes a position. *)
Lemma run_never_trades es :
  balance (state (run es mounted)) = CONFIG.INITIAL_BALANCE /\
  positions (state (run es mounted)) = [] /\
  trades (state (run es mounted)) = [].
Proof.
  destruct (run_calls es mounted mounted_closures_stopped) as (cs & Hcs & ->).
  apply calls_stopped. exact Hcs.
Qed.

End AutoLedger.

(** ** The ledger of the manual simulator *)

Section ManualLedger.

Import Num Manual Inv.

Lemma manual_run_ind (P : State -> Prop) (ok : Event -> Prop) :
  (forall st e, ok e -> P st -> P (step st e)) ->
  forall es st, Forall ok es -> P st -> P (run es st).
Proof.
  intros Hstep es. induction es as [|e es IH]; intros st Hok HP; [exact HP|].
  inversion Hok; subst. simpl. apply IH; [assumption|]. apply Hstep; assumption.
Qed.

Lemma manual_hasPosition_false (ps : list Position.t) (symbol : string) :
  existsb (fun p => String.eqb (Position.symbol p) symbol) ps = false <->
  symbol ∉ map Position.symbol ps.
Proof.
  induction ps as [|p ps IH]; simpl.
  - split; [intros _ H; inversion H | reflexivity].
  - rewrite orb_false_iff, IH, not_elem_of_cons.
    destruct (String.eqb_spec (Position.symbol p) symbol) as [->|Hne].
    + split; [intros [H _]; discriminate | intros [H _]; congruence].
    + split; [intros [_ H]; split; [congruence | exact H]
             | intros [_ H]; split; [reflexivity | exact H]].
Qed.

(** [executeTrade]: nothing happens, or the size [min(100, balance / 10)] of
    the render's balance, at least 10, is debited and one position of that
    value is appended under the symbol. *)
Lemma executeTrade_effect r symbol now st :
  let tradeSize := min 100 (balance r * (1 # 10)) in
  let st' := executeTrade r symbol now st in
  st' = st \/
  (10 <= tradeSize /\
   balance st' = balance st - tradeSize /\
   exists token pos,
     In token (tokens r) /\ ~ Token.price token == 0 /\
     positions st' = positions st ++ [pos] /\
     Position.symbol pos = symbol /\
     Position.entryPrice pos = Token.price token /\
     Position.valueEUR pos = tradeSize /\
     Position.quantity pos = tradeSize / EUR_RATE / Token.price token).
Proof.
  cbv zeta. unfold executeTrade.
  destruct (find _ (tokens r)) as [token|] eqn:Hfind; [|left; reflexivity].
  destruct (Qeq_bool (Token.price token) 0) eqn:Hz; [left; reflexivity|].
  apply Qeq_bool_neq in Hz.
  destruct (Qlt_bool (min 100 (balance r * (1 # 10))) 10) eqn:Hsz; [left; reflexivity|].
  apply Qlt_bool_false in Hsz. right. split; [exact Hsz|].
  split; [reflexivity|]. exists token. eexists.
  split; [apply (find_some _ _ Hfind)|]. split; [exact Hz|].
  split; [reflexivity|]. repeat split.
Qed.

Lemma executeTrade_rejected r symbol now st :
  min 100 (balance r * (1 # 10)) < 10 -> executeTrade r symbol now st = st.
Proof.
  intros H. unfold executeTrade.
  destruct (find _ (tokens r)) as [token|]; [|reflexivity].
  destruct (Qeq_bool (Token.price token) 0); [reflexivity|].
  apply Qlt_bool_iff in H. rewrite H. reflexivity.
Qed.

Lemma manual_credit_nonneg pos exitPrice :
  manual_pos_ok pos -> 0 <= exitPrice ->
  0 <= Position.valueEUR pos
       + (exitPrice - Position.entryPrice pos) * Position.quantity pos * EUR_RATE.
Proof.
  intros (He & Hq & Hv) Hp. unfold EUR_RATE in *.
  assert (0 <= exitPrice * Position.quantity pos) by nra. lra.
Qed.

(** A position opened by [executeTrade] at a positive price is sound. *)
Lemma executeTrade_pos_ok pos price tradeSize :
  0 < price -> 0 <= tradeSize ->
  Position.entryPrice pos = price ->
  Position.valueEUR pos = tradeSize ->
  Position.quantity pos = tradeSize / EUR_RATE / price ->
  manual_pos_ok pos.
Proof.
  intros Hp Hs He Hv Hq. unfold manual_pos_ok. rewrite He, Hv, Hq.
  unfold EUR_RATE.
  assert (H1 : 0 <= tradeSize / (92 # 100)).
  { apply Qle_shift_div_l; [reflexivity | lra]. }
  split; [lra|]. split.
  - apply Qle_shift_div_l; [exact Hp | lra].
  - rewrite Qmult_div_r by lra.
    rewrite Qmult_comm, Qmult_div_r by (intros H; discriminate H). lra.
Qed.

Lemma Forall_sublist_of {A : Type} (P : A -> Prop) (l k : list A) :
  l `sublist_of` k -> Forall P k -> Forall P l.
Proof.
  intros Hsub Hk. rewrite Forall_forall in *. intros x Hx.
  apply Hk. eapply elem_of_sublist; eassumption.
Qed.

Lemma map_sublist {A B : Type} (f : A -> B) (l k : list A) :
  l `sublist_of` k -> map f l `sublist_of` map f k.
Proof.
  induction 1; cbn [map]; [constructor | apply sublist_skip | apply sublist_cons];
    assumption.
Qed.

Lemma manual_checkPosition_None currentTokens stillOpen toClose st pos :
  find (fun t => String.eqb (Token.symbol t) (Position.symbol pos)) currentTokens = None ->
  checkPosition currentTokens (stillOpen, toClose, st) pos
  = (stillOpen ++ [pos], toClose, st).
Proof. intros H. unfold checkPosition. rewrite H. reflexivity. Qed.

(** What one callback of [checkPositions] does: the position is kept as it
    is or dropped, only the balance changes in the state, and with a price
    that is not negative a sound position credits an amount that is not
    negative. *)
Lemma manual_checkPosition_effect currentTokens stillOpen toClose st pos :
  let res := checkPosition currentTokens (stillOpen, toClose, st) pos in
  positions res.2 = positions st /\ tokens res.2 = tokens st /\
  (res.1.1 = stillOpen \/ res.1.1 = stillOpen ++ [pos]) /\
  (Forall (fun t => 0 <= Token.price t) currentTokens -> manual_pos_ok pos ->
   balance st <= balance res.2).
Proof.
  cbv zeta.
  destruct (find (fun t => String.eqb (Token.symbol t) (Position.symbol pos))
                 currentTokens) as [token|] eqn:Hfind.
  - assert (Hcredit :
      Forall (fun t => 0 <= Token.price t) currentTokens -> manual_pos_ok pos ->
      0 <= Position.valueEUR pos
           + (Token.price token - Position.entryPrice pos) * Position.quantity pos
             * EUR_RATE).
    { intros Hprices Hpos. apply manual_credit_nonneg; [exact Hpos|].
      rewrite Forall_forall in Hprices. apply Hprices.
      apply list_elem_of_In. apply (find_some _ _ Hfind). }
    destruct (manual_checkPosition_cases currentTokens stillOpen toClose st pos token Hfind)
      as [(_ & ->) | [(_ & _ & ->) | (_ & _ & ->)]];
      cbn [fst snd positions tokens balance setBalance];
      (split; [reflexivity|]); (split; [reflexivity|]);
      (split; [(left; reflexivity) || (right; reflexivity)|]);
      intros Hprices Hpos; try specialize (Hcredit Hprices Hpos); lra.
  - rewrite (manual_checkPosition_None _ _ _ _ _ Hfind). cbn [fst snd].
    split; [reflexivity|]. split; [reflexivity|]. split; [right; reflexivity|].
    intros _ _. lra.
Qed.

Lemma manual_checkPositions_fold currentTokens (ps : list Position.t) :
  forall stillOpen toClose st,
    let res := fold_left (checkPosition currentTokens) ps (stillOpen, toClose, st) in
    positions res.2 = positions st /\ tokens res.2 = tokens st /\
    (exists kept, res.1.1 = stillOpen ++ kept /\ kept `sublist_of` ps) /\
    (Forall (fun t => 0 <= Token.price t) currentTokens -> Forall manual_pos_ok ps ->
     balance st <= balance res.2).
Proof.
  induction ps as [|p ps IH]; intros stillOpen toClose st; cbv zeta.
  - cbn [fold_left fst snd]. split; [reflexivity|]. split; [reflexivity|].
    split; [|intros; lra]. exists []. rewrite app_nil_r. split; [reflexivity | constructor].
  - cbn [fold_left].
    pose proof (manual_checkPosition_effect currentTokens stillOpen toClose st p) as H1.
    cbv zeta in H1.
    destruct (checkPosition currentTokens (stillOpen, toClose, st) p)
      as [[so1 tc1] st1].
    cbn [fst snd] in H1. destruct H1 as (Hp1 & Ht1 & Hso1 & Hb1).
    destruct (IH so1 tc1 st1) as (Hp & Ht & (kept & Hkept & Hsub) & Hb).
    split; [congruence|]. split; [congruence|]. split.
    + destruct Hso1 as [-> | ->].
      * exists kept. split; [exact Hkept | apply sublist_cons; exact Hsub].
      * exists (p :: kept). rewrite Hkept, <- app_assoc.
        split; [reflexivity | apply sublist_skip; exact Hsub].
    + intros Hprices H. inversion H; subst.
      specialize (Hb1 Hprices ltac:(assumption)).
      specialize (Hb Hprices ltac:(assumption)). lra.
Qed.

Lemma manual_checkPositions_effect currentTokens st :
  let st' := checkPositions currentTokens st in
  tokens st' = tokens st /\
  positions st' `sublist_of` positions st /\
  (Forall (fun t => 0 <= Token.price t) currentTokens ->
   Forall manual_pos_ok (positions st) -> balance st <= balance st').
Proof.
  cbv zeta. unfold checkPositions.
  pose proof (manual_checkPositions_fold currentTokens (positions st) [] [] st) as H.
  cbv zeta in H. destruct (fold_left _ _ _) as [[stillOpen toClose] st'].
  cbn [fst snd app] in H. destruct H as (_ & Ht & (kept & -> & Hsub) & Hb).
  destruct (0 <? length toClose)%nat;
    cbn [positions tokens balance setPositions setTrades];
    (split; [exact Ht|]); (split; [exact Hsub | exact Hb]).
Qed.

Lemma manual_updated_prices data :
  manual_quotes_nonneg data = true ->
  Forall (fun t => 0 <= Token.price t) (map (updateToken data) TOKENS).
Proof.
  unfold manual_quotes_nonneg. generalize TOKENS.
  induction l as [|c cs IH]; intros H; [constructor|].
  cbn [forallb] in H. apply andb_true_iff in H. destruct H as [Hc Hcs].
  cbn [map]. constructor; [|apply IH; exact Hcs].
  cbn [updateToken Token.price]. apply Qle_bool_iff. exact Hc.
Qed.

Lemma manual_tick_ledger st data now :
  manual_quotes_nonneg data = true ->
  manual_ledger_ok st -> manual_ledger_ok (fetchPrices (Some data) now st).
Proof.
  intros Hq (Hb & Hpos & _). unfold fetchPrices.
  pose proof (manual_updated_prices data Hq) as Hprices.
  set (updatedTokens := map (updateToken data) TOKENS) in *.
  set (st1 := setLoading false
                (setLastUpdate (Some now) (setTokens (fun _ => updatedTokens) st))).
  destruct (manual_checkPositions_effect updatedTokens st1) as (Ht & Hsub & Hbal).
  change (positions st1) with (positions st) in Hsub, Hbal.
  change (balance st1) with (balance st) in Hbal.
  change (tokens st1) with updatedTokens in Ht.
  specialize (Hbal Hprices Hpos).
  split; [lra|]. split.
  - eapply Forall_sublist_of; [exact Hsub | exact Hpos].
  - rewrite Ht. exact Hprices.
Qed.

Lemma manual_click_ledger st symbol now :
  manual_ledger_ok st -> manual_ledger_ok (marketButton_onClick st symbol now st).
Proof.
  intros (Hb & Hpos & Htok). unfold marketButton_onClick.
  destruct (negb _); [|repeat split; assumption].
  destruct (executeTrade_effect st symbol now st)
    as [-> | (Hsz & Hbal & token & pos & Hin & Hnz & Hps & _ & He & Hv & Hq)];
    [repeat split; assumption|].
  assert (Htokens : tokens (executeTrade st symbol now st) = tokens st).
  { unfold executeTrade.
    destruct (find _ (tokens st)) as [t|]; [|reflexivity].
    destruct (Qeq_bool (Token.price t) 0); [reflexivity|].
    destruct (Qlt_bool _ 10); reflexivity. }
  pose proof (min_le_r 100 (balance st * (1 # 10))) as Hle.
  assert (Hprice : 0 < Token.price token).
  { rewrite Forall_forall in Htok.
    specialize (Htok token (proj2 (list_elem_of_In _ _) Hin)).
    destruct (Qlt_le_dec 0 (Token.price token)) as [?|?]; [assumption|].
    exfalso. apply Hnz. lra. }
  split; [rewrite Hbal; lra|]. split.
  - rewrite Hps. apply Forall_app. split; [exact Hpos|].
    constructor; [|constructor].
    apply (executeTrade_pos_ok pos (Token.price token)
             (min 100 (balance st * (1 # 10)))); try assumption. lra.
  - rewrite Htokens. exact Htok.
Qed.

Lemma filter_sublist {A : Type} (f : A -> bool) (l : list A) :
  List.filter f l `sublist_of` l.
Proof.
  induction l as [|x l IH]; [constructor|]. cbn [List.filter].
  destruct (f x); [apply sublist_skip | apply sublist_cons]; exact IH.
Qed.

Lemma manual_close_ledger st posId :
  manual_ledger_ok st -> manual_ledger_ok (closePosition st posId st).
Proof.
  intros (Hb & Hpos & Htok).
  destruct (find (fun p => Z.eqb (Position.id p) posId) (positions st))
    as [pos|] eqn:Hfind.
  - rewrite (manual_closePosition_found st posId st pos Hfind).
    unfold manual_ledger_ok.
    cbn [balance positions tokens setPositions setTrades setBalance].
    assert (Hok : manual_pos_ok pos).
    { rewrite Forall_forall in Hpos. apply Hpos.
      apply list_elem_of_In. apply (find_some _ _ Hfind). }
    assert (Hprice :
      0 <= or_else (Token.price <$>
                      find (fun t => String.eqb (Token.symbol t) (Position.symbol pos))
                           (tokens st))
                   (Position.entryPrice pos)).
    { apply or_else_nonneg; [exact (proj1 Hok)|].
      intros v Hv. destruct (find _ (tokens st)) as [t|] eqn:Ht; [|discriminate].
      injection Hv as <-. rewrite Forall_forall in Htok. apply Htok.
      apply list_elem_of_In. apply (find_some _ _ Ht). }
    pose proof (manual_credit_nonneg pos _ Hok Hprice) as Hcredit.
    split; [lra|]. split; [|exact Htok].
    eapply Forall_sublist_of; [apply filter_sublist | exact Hpos].
  - unfold closePosition. rewrite Hfind. repeat split; assumption.
Qed.

Lemma manual_step_ledger st e :
  manual_event_ok e -> manual_ledger_ok st -> manual_ledger_ok (step st e).
Proof.
  intros Hok Hst. destruct e as [[data|] now | symbol now | posId | [|]]; cbn [step].
  - apply manual_tick_ledger; assumption.
  - exact Hst.
  - apply manual_click_ledger, Hst.
  - apply manual_close_ledger, Hst.
  - destruct Hst as (_ & _ & Htok).
    split; [vm_compute; discriminate|]. split; [constructor | exact Htok].
  - exact Hst.
Qed.

Lemma manual_run_ledger es :
  Forall manual_event_ok es -> manual_ledger_ok (run es init).
Proof.
  intros Hok. apply (manual_run_ind manual_ledger_ok manual_event_ok).
  - intros st e. apply manual_step_ledger.
  - exact Hok.
  - split; [vm_compute; discriminate|]. split; constructor.
Qed.

Lemma manual_click_one_per_symbol st symbol now :
  manual_one_per_symbol st ->
  manual_one_per_symbol (marketButton_onClick st symbol now st).
Proof.
  unfold manual_one_per_symbol. intros Hnd. unfold marketButton_onClick.
  destruct (existsb _ (positions st)) eqn:Hhas; [exact Hnd|]. cbn [negb].
  apply manual_hasPosition_false in Hhas.
  destruct (executeTrade_effect st symbol now st)
    as [-> | (_ & _ & token & pos & _ & _ & -> & Hsym & _)]; [exact Hnd|].
  rewrite map_app. cbn [map]. rewrite Hsym.
  apply NoDup_app. split; [exact Hnd|]. split.
  - intros s Hin Hin'. apply list_elem_of_singleton in Hin'. subst s.
    exact (Hhas Hin).
  - apply NoDup_singleton.
Qed.

Lemma manual_step_one_per_symbol st e :
  manual_one_per_symbol st -> manual_one_per_symbol (step st e).
Proof.
  unfold manual_one_per_symbol.
  intros Hst. destruct e as [[data|] now | symbol now | posId | [|]]; cbn [step].
  - unfold fetchPrices.
    match goal with
    | |- context [checkPositions ?ts ?s] =>
        destruct (manual_checkPositions_effect ts s) as (_ & Hsub & _)
    end.
    eapply sublist_NoDup; [exact Hst|]. apply map_sublist. exact Hsub.
  - exact Hst.
  - apply manual_click_one_per_symbol, Hst.
  - unfold closePosition.
    destruct (find _ (positions st)) as [pos|]; [|exact Hst].
    cbn [positions setPositions setTrades setBalance].
    eapply sublist_NoDup; [exact Hst|]. apply map_sublist, filter_sublist.
  - constructor.
  - exact Hst.
Qed.

Lemma manual_run_one_per_symbol es : manual_one_per_symbol (run es init).
Proof.
  apply (manual_run_ind manual_one_per_symbol (fun _ => True)).
  - intros st e _. apply manual_step_one_per_symbol.
  - apply Forall_forall. intros; exact I.
  - constructor.
Qed.

End ManualLedger.

(** ** Balance and open set along every run *)

Section Runs.

Import Num Inv.

(** C6, for quotes that are not negative.  Starting from the initial
    balance of 1000, after every sequence of ticks and user actions in which
    the provider quotes no negative price, the cash balance is at least 0, in
    both programs; the component of the bot, as it is wired, never debits or
    credits its balance at all.  Every debit at open time is sized against
    the balance available before it is applied: the manual simulator debits
    [min(100, balance * 0.1)] of the balance the debit is applied to and
    rejects a size below 10; the open of the bot, called by a handler whose
    render shows the balance that is available, debits
    [min(balance * 0.15, balance - 10)] of it and rejects a size below 20,
    and a whole tick of such a handler leaves the balance at 0 or above.
    Every open position of either program, closed at a price that is not
    negative, credits an amount that is at least 0. *)
Theorem C6_balance_nonneg :
  (forall es,
     0 <= Auto.balance (Auto.state (Auto.run es Auto.mounted)) /\
     forall e,
       Auto.balance (Auto.state (Auto.step (Auto.run es Auto.mounted) e))
       = Auto.balance (Auto.state (Auto.run es Auto.mounted))) /\
  (forall es, Forall manual_event_ok es -> 0 <= Manual.balance (Manual.run es Manual.init)) /\
  (forall r symbol now st,
     Manual.balance r = Manual.balance st ->
     let size := min 100 (Manual.balance st * (1 # 10)) in
     (size < 10 -> Manual.executeTrade r symbol now st = st) /\
     (Manual.executeTrade r symbol now st = st \/
      Manual.balance (Manual.executeTrade r symbol now st) = Manual.balance st - size) /\
     (0 <= Manual.balance st -> size <= Manual.balance st)) /\
  (forall r token now st,
     Auto.balance r = Auto.balance st ->
     let size := min (Auto.balance st * (15 # 100)) (Auto.balance st - 10) in
     (size < 20 -> Auto.openPosition r token now st = st) /\
     (20 <= size ->
      Auto.balance (Auto.openPosition r token now st) = Auto.balance st - size) /\
     size <= Auto.balance st) /\
  (forall cs r data now,
     let st := Auto.calls cs Auto.init in
     auto_quotes_nonneg data = true ->
     Auto.balance r = Auto.balance st ->
     0 <= Auto.balance st ->
     0 <= Auto.balance (Auto.fetchPrices r (Some data) now st)) /\
  (forall cs pos exitPrice,
     In pos (Auto.positions (Auto.calls cs Auto.init)) ->
     0 <= exitPrice ->
     0 <= Auto.Position.valueEUR pos
          + (exitPrice - Auto.Position.entryPrice pos) * Auto.Position.quantity pos) /\
  (forall es pos exitPrice,
     Forall manual_event_ok es -> In pos (Manual.positions (Manual.run es Manual.init)) ->
     0 <= exitPrice ->
     0 <= Manual.Position.valueEUR pos
          + (exitPrice - Manual.Position.entryPrice pos) * Manual.Position.quantity pos
            * Manual.EUR_RATE).
Proof.
  split; [|split; [|split; [|split; [|split; [|split]]]]].
  - intros es. destruct (run_never_trades es) as (Hb & _). rewrite Hb.
    split; [vm_compute; discriminate|].
    intros e. destruct (run_never_trades (es ++ [e])) as (Hb' & _).
    unfold Auto.run in Hb'. rewrite fold_left_app in Hb'. exact Hb'.
  - intros es Hok. exact (proj1 (manual_run_ledger es Hok)).
  - intros r symbol now st Hr size. subst size. rewrite <- Hr. split; [|split].
    + apply executeTrade_rejected.
    + destruct (executeTrade_effect r symbol now st) as [H | (_ & H & _)];
        [left; exact H | right; rewrite H, Hr; reflexivity].
    + intros Hb. pose proof (min_le_r 100 (Manual.balance r * (1 # 10))). lra.
  - intros r token now st Hr size. subst size. rewrite <- Hr. split; [|split].
    + apply openPosition_rejected.
    + intros Hacc.
      rewrite (openPosition_accepted r token now st Hacc).
      destruct (tradeValue_accepted _ Hacc) as [Heq _].
      unfold Auto.CONFIG.POSITION_SIZE in Heq. rewrite Heq, Hr. reflexivity.
    + pose proof (min_le_r (Auto.balance r * (15 # 100)) (Auto.balance r - 10)).
      lra.
  - intros cs r data now st Hq Hr Hb.
    apply (auto_tick_ledger r st data now Hq Hr).
    split; [exact Hb | apply auto_calls_pos_ok].
  - intros cs pos exitPrice Hin Hp.
    apply auto_credit_nonneg; [|exact Hp].
    pose proof (auto_calls_pos_ok cs) as Hpos.
    rewrite Forall_forall in Hpos. apply Hpos, list_elem_of_In, Hin.
  - intros es pos exitPrice Hok Hin Hp.
    apply manual_credit_nonneg; [|exact Hp].
    destruct (manual_run_ledger es Hok) as (_ & Hpos & _).
    rewrite Forall_forall in Hpos. apply Hpos, list_elem_of_In, Hin.
Qed.

(** C7.  In every state either component reaches there is at most one open
    position per symbol.  The signal-driven open of the bot does nothing for
    a symbol that is in the open set its handler reads, and a tick whose
    handler reads the open set as it is keeps one position per symbol.  In
    the manual simulator [executeTrade] is called by the market button only,
    and the button calls it only when the symbol has no open position. *)
Theorem C7_one_position_per_symbol :
  (forall es,
     NoDup (map Auto.Position.symbol
                (Auto.positions (Auto.state (Auto.run es Auto.mounted))))) /\
  (forall r now st token,
     existsb (fun p => String.eqb (Auto.Position.symbol p) (Auto.Token.symbol token))
             (Auto.positions r) = true ->
     Auto.processSignal r now st token = st) /\
  (forall r resp now st,
     Auto.positions r = Auto.positions st ->
     NoDup (map Auto.Position.symbol (Auto.positions st)) ->
     NoDup (map Auto.Position.symbol (Auto.positions (Auto.fetchPrices r resp now st)))) /\
  (forall es,
     NoDup (map Manual.Position.symbol (Manual.positions (Manual.run es Manual.init)))) /\
  (forall r symbol now st,
     existsb (fun p => String.eqb (Manual.Position.symbol p) symbol)
             (Manual.positions r) = true ->
     Manual.marketButton_onClick r symbol now st = st).
Proof.
  split; [|split; [|split; [|split]]].
  - intros es. destruct (run_never_trades es) as (_ & -> & _). constructor.
  - intros r now st token Hhas. unfold Auto.processSignal. rewrite Hhas.
    cbn [negb andb]. destruct (_ && _); reflexivity.
  - intros r resp now st. apply auto_tick_one_per_symbol.
  - apply manual_run_one_per_symbol.
  - intros r symbol now st Hhas. unfold Manual.marketButton_onClick.
    rewrite Hhas. reflexivity.
Qed.

(** C6 along two scenarios: the component of the bot while SOL falls for
    fifteen ticks, and the user buying SOL once. *)
Lemma C6_balance_nonneg_witness :
  0 <= Auto.balance (Auto.state (Auto.run Scenario.auto_dip_events Auto.mounted)) /\
  0 <= Manual.balance (Manual.run Scenario.manual_buy Manual.init).
Proof.
  split.
  - apply (proj1 (proj1 C6_balance_nonneg Scenario.auto_dip_events)).
  - apply (proj1 (proj2 C6_balance_nonneg)).
    unfold Scenario.manual_buy. repeat constructor.
Defined.

(** C6 as stated fails when a quote is negative, which nothing in the code
    rules out: the user buys SOL at 100 for 100 (balance 900), the next tick
    quotes SOL at -1000, the stop-loss exit credits 100 - 1100 and the balance
    is -100. *)
Lemma C6_negative_quote_overdraws :
  let es :=
    Scenario.manual_buy ++ [Manual.Tick (Some (Scenario.manual_sol (-1000) 0)) 3] in
  Manual.balance (Manual.run es Manual.init) == -100 /\
  ~ 0 <= Manual.balance (Manual.run es Manual.init).
Proof.
  intros es. split.
  - vm_compute. reflexivity.
  - vm_compute. intros H. apply H. reflexivity.
Qed.

(** C7 at the state in which the user holds SOL: the market button of SOL
    does nothing. *)
Lemma C7_one_position_per_symbol_witness :
  let st := Manual.run Scenario.manual_buy Manual.init in
  Manual.marketButton_onClick st "SOL" 3 st = st.
Proof.
  intros st.
  apply (proj2 (proj2 (proj2 (proj2 C7_one_position_per_symbol))) st "SOL"%string 3%Z st).
  reflexivity.
Defined.

(** C9, evaluated.  A tick whose answer quotes nothing for SOL prices SOL at
    0; [checkPositions] compares that 0 with the stop-loss and closes the open
    SOL position at exit price 0.  Autonomous bot, with the handlers of a
    render in which the bot runs: the position bought for 150 is closed with
    reason SL, result LOSS and a P&L of -150, and nothing comes back to the
    balance.  Manual simulator: the position bought for 100 is
    recorded as a stop-loss hit at close price 0 with a P&L of -100, and
    nothing comes back to the balance. *)
Theorem C9_missing_quote_stops_out_position :
  (let before := Auto.calls Scenario.auto_dip Auto.init in
   let after := Auto.call before (Auto.CallFetch Scenario.auto_running (Some ∅) 16) in
   map Auto.Position.symbol (Auto.positions before) = ["SOL"%string] /\
   Auto.balance before == 850 /\
   Auto.positions after = [] /\
   map (fun t => (Auto.Trade.symbol t, Auto.Trade.reason t, Auto.Trade.result t))
       (Auto.trades after) = [("SOL"%string, Auto.SL, Auto.LOSS)] /\
   Forall (fun t => Auto.Trade.exitPrice t == 0 /\ Auto.Trade.pnl t == -150)
          (Auto.trades after) /\
   Auto.balance after == 850) /\
  (let before := Manual.run Scenario.manual_buy Manual.init in
   let after := Manual.step before (Manual.Tick (Some ∅) 3) in
   map Manual.Position.symbol (Manual.positions before) = ["SOL"%string] /\
   Manual.balance before == 900 /\
   Manual.positions after = [] /\
   (exists pos pnl,
      head (Manual.trades after)
      = Some (Manual.Trade.mk pos "SL HIT ❌" (Some 0) (Some pnl)) /\
      Manual.Position.symbol pos = "SOL"%string /\ pnl == -100) /\
   Manual.balance after == 900).
Proof.
  split.
  - intros before after.
    split; [vm_compute; reflexivity|]. split; [vm_compute; reflexivity|].
    split; [vm_compute; reflexivity|]. split; [vm_compute; reflexivity|].
    split; [|vm_compute; reflexivity].
    vm_compute. constructor; [split; reflexivity | constructor].
  - intros before after.
    split; [vm_compute; reflexivity|]. split; [vm_compute; reflexivity|].
    split; [vm_compute; reflexivity|]. split; [|vm_compute; reflexivity].
    vm_compute. eexists. eexists. split; [reflexivity|]. split; reflexivity.
Qed.

End Runs.

(** ** More on the indicator *)

Section RSIMore.

Import Num Auto RsiSpec.

Lemma at_index_app_r (older recent : list Q) (i : nat) :
  at_index (older ++ recent) (length older + i) = at_index recent i.
Proof.
  unfold at_index. rewrite app_nth2 by lia. f_equal. lia.
Qed.

Lemma rsi_loop_window (older recent : list Q) (c : nat) :
  forall s acc, (1 <= s)%nat ->
    fold_left (rsi_loop_body (older ++ recent)) (seq (length older + s) c) acc
    = fold_left (rsi_loop_body recent) (seq s c) acc.
Proof.
  induction c as [|c IH]; intros s acc Hs; [reflexivity|].
  cbn [seq fold_left].
  replace (S (length older + s)) with (length older + S s)%nat by lia.
  rewrite <- IH by lia. f_equal.
  unfold rsi_loop_body. destruct acc as [g l].
  replace (length older + s - 1)%nat with (length older + (s - 1))%nat by lia.
  rewrite !at_index_app_r. reflexivity.
Qed.

(** X1.  The RSI looks at the 15 most recent prices only: whatever older
    prices precede a history of at least 15 prices, the result is the
    same. *)
Theorem X1_calculateRSI_window (older recent : list Q) :
  (15 <= length recent)%nat ->
  calculateRSI (older ++ recent) 14 = calculateRSI recent 14.
Proof.
  intros Hlen. unfold calculateRSI. rewrite length_app.
  destruct (Nat.ltb_spec (length older + length recent) (14 + 1)) as [?|_]; [lia|].
  destruct (Nat.ltb_spec (length recent) (14 + 1)) as [?|_]; [lia|].
  unfold rsi_loop. rewrite length_app.
  replace (length older + length recent - 14)%nat
    with (length older + (length recent - 14))%nat by lia.
  rewrite rsi_loop_window by lia. reflexivity.
Qed.

Lemma X1_calculateRSI_window_witness :
  calculateRSI ([7; 3] ++ [1; 2; 3; 4; 5; 6; 7; 8; 9; 10; 11; 12; 13; 14; 13]) 14
  = calculateRSI [1; 2; 3; 4; 5; 6; 7; 8; 9; 10; 11; 12; 13; 14; 13] 14.
Proof. apply X1_calculateRSI_window. simpl. lia. Defined.

(** Without a down move the loss stays what it was, up to [==]. *)
Lemma rsi_loop_no_down (prices : list Q) (idx : list nat) :
  (forall i, In i idx -> at_index prices (i - 1) <= at_index prices i) ->
  forall g l, snd (fold_left (rsi_loop_body prices) idx (g, l)) == l.
Proof.
  induction idx as [|i idx IH]; intros Hup g l; [reflexivity|].
  cbn [fold_left]. unfold rsi_loop_body at 2.
  specialize (Hup i (or_introl eq_refl)) as Hi.
  case_cmp.
  - apply IH. intros j Hj. apply Hup. right. exact Hj.
  - rewrite IH by (intros j Hj; apply Hup; right; exact Hj). lra.
Qed.

(** X2.  A history of at least 15 prices with no down move among its 14 most
    recent deltas (a flat market included) has RSI 100, so its signal is SELL
    whatever the 24h change is. *)
Theorem X2_no_down_move_is_SELL (prices : list Q) (change24h : Q) :
  (15 <= length prices)%nat ->
  (forall i, (length prices - 15 <= i)%nat -> (S i < length prices)%nat ->
             at_index prices i <= at_index prices (S i)) ->
  calculateRSI prices 14 = 100 /\
  getSignal (calculateRSI prices 14) change24h = SELL.
Proof.
  intros Hlen Hup.
  assert (H100 : calculateRSI prices 14 = 100).
  { rewrite (calculateRSI_14 prices Hlen). cbv zeta.
    assert (Hl : snd (rsi_loop prices 14) == 0).
    { unfold rsi_loop. apply rsi_loop_no_down.
      intros i Hi. apply in_seq in Hi.
      replace i with (S (i - 1)) at 2 by lia. apply Hup; lia. }
    case_cmp; [reflexivity|]. exfalso. apply E. rewrite Hl. reflexivity. }
  split; [exact H100|]. rewrite H100. reflexivity.
Qed.

Lemma X2_no_down_move_is_SELL_witness :
  getSignal (calculateRSI (repeat 5 15) 14) (-9) = SELL.
Proof.
  apply (X2_no_down_move_is_SELL (repeat 5 15) (-9)).
  - simpl. lia.
  - intros i _ Hi. simpl in Hi.
    do 14 (destruct i as [|i]; [apply Qle_refl|]). lia.
Defined.

(** X3.  With at least 15 prices and some loss among the 14 most recent
    deltas, the RSI is the share of the gains in the total movement:
    [100 * gains / (gains + losses)]; with no gain at all it is 0. *)
Theorem X3_calculateRSI_share (prices : list Q) :
  (15 <= length prices)%nat ->
  let g := gains (recent 14 (deltas prices)) in
  let l := losses (recent 14 (deltas prices)) in
  ~ l == 0 ->
  calculateRSI prices 14 == 100 * g / (g + l) /\
  (g == 0 -> calculateRSI prices 14 == 0).
Proof.
  intros Hlen g l Hl.
  destruct (rsi_loop_spec prices 14) as [Hg' Hl']; [lia|].
  fold g in Hg'. fold l in Hl'.
  destruct (rsi_loop_nonneg prices (seq (length prices - 14) 14) 0 0)
    as [Hg0 Hl0]; [lra | lra |].
  fold (rsi_loop prices 14) in Hg0, Hl0.
  rewrite Hg' in Hg0. rewrite Hl' in Hl0.
  assert (Hlpos : 0 < l).
  { destruct (Qlt_le_dec 0 l); [assumption|]. exfalso. apply Hl. lra. }
  assert (Heq : calculateRSI prices 14 == 100 - 100 / (1 + (g / 14) / (l / 14))).
  { rewrite (calculateRSI_14 prices Hlen). cbv zeta.
    case_cmp.
    - exfalso. apply Hl. rewrite Hl' in E.
      assert (l == l / 14 * 14) as -> by (field). rewrite E. reflexivity.
    - rewrite Hg', Hl'. reflexivity. }
  assert (Hform : 100 - 100 / (1 + (g / 14) / (l / 14)) == 100 * g / (g + l)).
  { field. split; intros H; lra. }
  split.
  - rewrite Heq. exact Hform.
  - intros Hz. rewrite Heq, Hform, Hz. field. lra.
Qed.

Lemma X3_calculateRSI_share_witness :
  calculateRSI [1; 2; 3; 4; 5; 6; 7; 8; 9; 10; 11; 12; 13; 14; 13; 15] 14
  == 100 * 14 / (14 + 1).
Proof.
  apply (proj1 (X3_calculateRSI_share
                  [1; 2; 3; 4; 5; 6; 7; 8; 9; 10; 11; 12; 13; 14; 13; 15]
                  ltac:(simpl; lia) ltac:(vm_compute; discriminate))).
Defined.

End RSIMore.

(** ** The rolling history *)

Section History.

Import Num Auto RsiSpec.

Lemma recent_short {A : Type} (n : nat) (l : list A) :
  (length l <= n)%nat -> recent n l = l.
Proof. intros H. unfold recent. replace (length l - n)%nat with 0%nat by lia. reflexivity. Qed.

Lemma length_recent {A : Type} (n : nat) (l : list A) :
  length (recent n l) = Nat.min n (length l).
Proof. unfold recent. rewrite length_drop. lia. Qed.

Lemma recent_app_recent {A : Type} (n : nat) (l k : list A) :
  recent n (recent n l ++ k) = recent n (l ++ k).
Proof.
  unfold recent.
  destruct (Nat.le_gt_cases (length l) n) as [Hle|Hgt].
  - replace (length l - n)%nat with 0%nat by lia. reflexivity.
  - rewrite !length_app, length_drop.
    replace (length l - (length l - n) + length k - n)%nat with (length k) by lia.
    replace (length l + length k - n)%nat with (length l - n + length k)%nat by lia.
    rewrite <- drop_drop. rewrite (drop_app_le l k) by lia. reflexivity.
Qed.

(** What [pushHistory] stores for the symbol, and that it leaves the other
    symbols alone. *)
Lemma pushHistory_lookup (h : gmap string (list Q)) (symbol : string) (price : Q) :
  (length (default [] (h !! symbol)) <= 50)%nat ->
  pushHistory h symbol price !! symbol
  = Some (recent 50 (default [] (h !! symbol) ++ [price])).
Proof.
  intros Hlen. unfold pushHistory. rewrite lookup_insert_eq. f_equal.
  set (old := default [] (h !! symbol)) in *.
  destruct (Nat.ltb_spec 50 (length (old ++ [price]))) as [Hgt|Hle].
  - rewrite length_app in Hgt. cbn [length] in Hgt.
    unfold recent. rewrite length_app. cbn [length].
    replace (length old + 1 - 50)%nat with 1%nat by lia.
    destruct old; reflexivity.
  - rewrite recent_short by exact Hle. reflexivity.
Qed.

Lemma pushHistory_other (h : gmap string (list Q)) (symbol other : string) (price : Q) :
  other <> symbol -> pushHistory h symbol price !! other = h !! other.
Proof. intros Hne. unfold pushHistory. apply lookup_insert_ne. congruence. Qed.

(** Whatever was stored, the new entry is the last one, and a history that
    was within 50 entries stays within 50. *)
Lemma pushHistory_last (h : gmap string (list Q)) (symbol : string) (price : Q) :
  exists hist,
    pushHistory h symbol price !! symbol = Some hist /\
    last hist = Some price /\
    (length hist <= S (length (default [] (h !! symbol))))%nat /\
    ((length (default [] (h !! symbol)) <= 50)%nat -> (length hist <= 50)%nat).
Proof.
  unfold pushHistory. rewrite lookup_insert_eq. eexists. split; [reflexivity|].
  set (old := default [] (h !! symbol)).
  destruct (Nat.ltb_spec 50 (length (old ++ [price]))) as [Hgt|Hle].
  - rewrite length_app in Hgt. cbn [length] in Hgt.
    destruct old as [|x old]; [cbn [length] in Hgt; lia|].
    cbn [app tail length] in *. rewrite last_snoc, length_app. cbn [length].
    split; [reflexivity|]. split; lia.
  - rewrite length_app in Hle. cbn [length] in Hle.
    rewrite last_snoc, length_app. cbn [length]. split; [reflexivity|]. split; lia.
Qed.

(** X4.  The history of a symbol is a first-in first-out window of 50: after
    pushing the prices [ps] one by one onto a stored history [old] of at most
    50 entries, what is stored is the 50 most recent entries of [old ++ ps],
    and no other symbol's history has changed. *)
Theorem X4_history_window (h : gmap string (list Q)) (symbol : string) (ps : list Q) :
  (length (default [] (h !! symbol)) <= 50)%nat ->
  ps <> [] ->
  let h' := fold_left (fun h p => pushHistory h symbol p) ps h in
  h' !! symbol = Some (recent 50 (default [] (h !! symbol) ++ ps)) /\
  forall other, other <> symbol -> h' !! other = h !! other.
Proof.
  intros Hlen Hne h'. subst h'. split.
  - revert h Hlen Hne. induction ps as [|p ps IH]; intros h Hlen Hne; [congruence|].
    cbn [fold_left].
    pose proof (pushHistory_lookup h symbol p Hlen) as Hp.
    destruct ps as [|q ps].
    + exact Hp.
    + rewrite IH; [|rewrite Hp; cbn [default from_option id]; rewrite length_recent; lia | discriminate].
      rewrite Hp. cbn [default from_option id]. rewrite recent_app_recent, <- app_assoc. reflexivity.
  - intros other Hother. revert h Hlen. clear Hne.
    induction ps as [|p ps IH]; intros h Hlen; [reflexivity|].
    cbn [fold_left].
    destruct (pushHistory_last h symbol p) as (hist & Hl & _ & _ & Hb).
    rewrite IH; [apply pushHistory_other; exact Hother|].
    rewrite Hl. cbn [default from_option id]. apply Hb. exact Hlen.
Qed.

Lemma X4_history_window_witness :
  fold_left (fun h p => pushHistory h "SOL" p) [1; 2; 3] ∅ !! "SOL"%string
  = Some [1; 2; 3].
Proof.
  apply (proj1 (X4_history_window ∅ "SOL"%string [1; 2; 3]
                  ltac:(rewrite lookup_empty; simpl; lia) ltac:(discriminate))).
Defined.

End History.

(** ** Ticks of the autonomous bot *)

Section AutoTicks.

Import Num Auto RsiSpec Acct.

(** What the open path and the exit path of a tick leave alone. *)
Lemma openPosition_frame r token now st :
  let st' := openPosition r token now st in
  tokens st' = tokens st /\ priceHistory st' = priceHistory st /\
  isRunning st' = isRunning st /\ lastUpdate st' = lastUpdate st /\
  trades st' = trades st.
Proof. cbv zeta. unfold openPosition. case_cmp; repeat split. Qed.

Lemma processSignal_frame r now st token :
  let st' := processSignal r now st token in
  tokens st' = tokens st /\ priceHistory st' = priceHistory st /\
  isRunning st' = isRunning st /\ lastUpdate st' = lastUpdate st /\
  trades st' = trades st.
Proof.
  cbv zeta. unfold processSignal.
  destruct (_ && _); [|repeat split].
  destruct (_ && _); [|repeat split].
  apply openPosition_frame.
Qed.

Lemma processSignals_frame r currentTokens now st :
  let st' := processSignals r currentTokens now st in
  tokens st' = tokens st /\ priceHistory st' = priceHistory st /\
  isRunning st' = isRunning st /\ lastUpdate st' = lastUpdate st /\
  trades st' = trades st.
Proof.
  cbv zeta. unfold processSignals. revert st.
  induction currentTokens as [|t ts IH]; intros st; [repeat split|].
  cbn [fold_left].
  destruct (IH (processSignal r now st t)) as (H1 & H2 & H3 & H4 & H5).
  destruct (processSignal_frame r now st t) as (G1 & G2 & G3 & G4 & G5).
  repeat split; congruence.
Qed.

Lemma checkPosition_frame currentTokens now stillOpen st pos :
  let st' := (checkPosition currentTokens now (stillOpen, st) pos).2 in
  tokens st' = tokens st /\ priceHistory st' = priceHistory st /\
  isRunning st' = isRunning st /\ lastUpdate st' = lastUpdate st.
Proof.
  cbv zeta.
  destruct (find (fun t => String.eqb (Token.symbol t) (Position.symbol pos))
                 currentTokens) as [token|] eqn:Hfind.
  - destruct (auto_checkPosition_cases currentTokens now stillOpen st pos token Hfind)
      as [(_ & ->) | [(_ & _ & ->) | [(_ & _ & _ & _ & ->) | (_ & _ & _ & ->)]]];
      repeat split.
  - rewrite (checkPosition_None _ _ _ _ _ Hfind). repeat split.
Qed.

Lemma checkPositions_frame currentTokens now st :
  let st' := checkPositions currentTokens now st in
  tokens st' = tokens st /\ priceHistory st' = priceHistory st /\
  isRunning st' = isRunning st /\ lastUpdate st' = lastUpdate st.
Proof.
  cbv zeta. unfold checkPositions.
  assert (H : forall ps stillOpen s,
            let s' := (fold_left (checkPosition currentTokens now) ps (stillOpen, s)).2 in
            tokens s' = tokens s /\ priceHistory s' = priceHistory s /\
            isRunning s' = isRunning s /\ lastUpdate s' = lastUpdate s).
  { induction ps as [|p ps IH]; intros stillOpen s; cbv zeta; [repeat split|].
    cbn [fold_left].
    pose proof (checkPosition_frame currentTokens now stillOpen s p) as Hp.
    cbv zeta in Hp.
    destruct (checkPosition currentTokens now (stillOpen, s) p) as [so1 s1].
    cbn [snd] in Hp. destruct Hp as (G1 & G2 & G3 & G4).
    destruct (IH so1 s1) as (H1 & H2 & H3 & H4).
    repeat split; congruence. }
  specialize (H (positions st) [] st). cbv zeta in H.
  destruct (fold_left _ _ _) as [stillOpen st']. exact H.
Qed.

(** The tokens and the history a successful tick leaves. *)
Lemma fetchPrices_view r data now st :
  let res := fold_left (updateToken r data) TOKENS_CONFIG ([], priceHistory st) in
  tokens (fetchPrices r (Some data) now st) = res.1 /\
  priceHistory (fetchPrices r (Some data) now st) = res.2.
Proof.
  cbv zeta. unfold fetchPrices.
  destruct (fold_left _ _ _) as [updatedTokens h]. cbn [fst snd].
  destruct (isRunning r); [|split; reflexivity].
  match goal with
  | |- context [checkPositions ?ts ?n ?s] =>
      destruct (checkPositions_frame ts n s) as (H1 & H2 & _)
  end.
  match goal with
  | H : context [processSignals ?r0 ?ts ?n ?s] |- _ =>
      destruct (processSignals_frame r0 ts n s) as (G1 & G2 & _)
  end.
  cbn [tokens priceHistory setLastUpdate setTokens setPriceHistory] in G1, G2.
  split; congruence.
Qed.

Lemma token_consistent_other data h h' c t :
  h' !! TokenConfig.symbol c = h !! TokenConfig.symbol c ->
  token_consistent data h c t -> token_consistent data h' c t.
Proof.
  intros Heq (H1 & H2 & H3 & H4 & hist & Hh & Hrest).
  repeat (split; [assumption|]). exists hist. rewrite Heq. split; assumption.
Qed.

Lemma token_consistent_push data h symbol price done out :
  symbol ∉ map TokenConfig.symbol done ->
  Forall2 (token_consistent data h) done out ->
  Forall2 (token_consistent data (pushHistory h symbol price)) done out.
Proof.
  intros Hnot Hall. induction Hall as [|c0 t0 done out Hc0 Hall IH]; [constructor|].
  cbn [map] in Hnot. apply not_elem_of_cons in Hnot. destruct Hnot as [Hne Hnot].
  constructor; [|apply IH; exact Hnot].
  eapply token_consistent_other; [|exact Hc0].
  apply pushHistory_other. congruence.
Qed.

Lemma updateTokens_consistent r data (cfgs : list TokenConfig.t) :
  forall done out h,
    NoDup (map TokenConfig.symbol (done ++ cfgs)) ->
    Forall2 (token_consistent data h) done out ->
    let res := fold_left (updateToken r data) cfgs (out, h) in
    Forall2 (token_consistent data res.2) (done ++ cfgs) res.1.
Proof.
  induction cfgs as [|c cs IH]; intros done out h Hnd Hdone; cbv zeta.
  - rewrite app_nil_r. exact Hdone.
  - cbn [fold_left]. unfold updateToken at 2.
    set (price := or_else (data !! TokenConfig.id c ≫= Quote.usd) 0).
    set (h' := pushHistory h (TokenConfig.symbol c) price).
    match goal with
    | |- context [fold_left _ cs (out ++ [?t], h')] => set (tok := t)
    end.
    replace (done ++ c :: cs) with ((done ++ [c]) ++ cs)
      by (rewrite <- app_assoc; reflexivity).
    apply IH.
    + rewrite <- app_assoc. exact Hnd.
    + apply Forall2_app.
      * apply token_consistent_push; [|exact Hdone].
        rewrite map_app in Hnd. apply NoDup_app in Hnd.
        destruct Hnd as (_ & Hdisj & _). intros Hin.
        apply (Hdisj _ Hin). cbn [map]. apply list_elem_of_here.
      * constructor; [|constructor].
        destruct (pushHistory_last h (TokenConfig.symbol c) price)
          as (hist & Hl & Hlast & _).
        fold h' in Hl. subst tok. unfold token_consistent.
        cbn [Token.symbol Token.name Token.price Token.change24h Token.rsi Token.signal].
        repeat (split; [reflexivity|]).
        exists hist. split; [exact Hl|]. split; [exact Hlast|].
        rewrite Hl. split; reflexivity.
Qed.

(** X6.  After a tick that the provider answered, whatever the render and
    whether the bot runs or not, the token list has one token per configured
    token, in the configured order, with the quoted price and change (0 where
    the answer has none); the stored history of its symbol ends with that
    price, its RSI is the RSI of that stored history and its signal is the
    classification of that RSI and change. *)
Theorem X6_tick_tokens (r : State) (data : gmap string Quote.t) (now : Z) (st : State) :
  let st' := fetchPrices r (Some data) now st in
  Forall2 (token_consistent data (priceHistory st')) TOKENS_CONFIG (tokens st').
Proof.
  cbv zeta. destruct (fetchPrices_view r data now st) as [-> ->].
  apply (updateTokens_consistent r data TOKENS_CONFIG [] [] (priceHistory st)).
  - apply TOKENS_CONFIG_symbols_NoDup.
  - constructor.
Qed.

(** Bounds on the stored histories through the tokens of a tick. *)
Lemma updateTokens_capped r data (cfgs : list TokenConfig.t) :
  forall out h,
    (forall symbol hist, h !! symbol = Some hist -> (1 <= length hist <= 50)%nat) ->
    forall symbol hist,
      (fold_left (updateToken r data) cfgs (out, h)).2 !! symbol = Some hist ->
      (1 <= length hist <= 50)%nat.
Proof.
  induction cfgs as [|c cs IH]; intros out h Hh; [exact Hh|].
  cbn [fold_left]. unfold updateToken at 2. apply IH.
  intros symbol hist Hl.
  match type of Hl with
  | pushHistory h ?s ?p !! _ = _ =>
      destruct (pushHistory_last h s p) as (hc & Hc & Hlast & _ & H50);
      destruct (decide (symbol = s)) as [->|Hne]
  end.
  - rewrite Hc in Hl. injection Hl as <-. split.
    + destruct hc; [discriminate Hlast | cbn; lia].
    + apply H50. destruct (h !! TokenConfig.symbol c) as [old|] eqn:E; cbn; [|lia].
      apply (Hh _ _ E).
  - rewrite pushHistory_other in Hl by exact Hne. apply (Hh _ _ Hl).
Qed.

Lemma updateTokens_grow r data (bound : nat) (cfgs : list TokenConfig.t) :
  NoDup (map TokenConfig.symbol cfgs) ->
  forall out h,
    (forall symbol hist, h !! symbol = Some hist ->
       (length hist <= S bound)%nat /\
       (symbol ∈ map TokenConfig.symbol cfgs -> (length hist <= bound)%nat)) ->
    forall symbol hist,
      (fold_left (updateToken r data) cfgs (out, h)).2 !! symbol = Some hist ->
      (length hist <= S bound)%nat.
Proof.
  induction cfgs as [|c cs IH]; intros Hnd out h Hh.
  - intros symbol hist Hl. apply (Hh _ _ Hl).
  - cbn [fold_left]. unfold updateToken at 2.
    cbn [map] in Hnd. apply NoDup_cons in Hnd. destruct Hnd as [Hc Hnd].
    apply (IH Hnd). intros symbol hist Hl.
    match type of Hl with
    | pushHistory h ?s ?p !! _ = _ =>
        destruct (pushHistory_last h s p) as (hc & Hlc & _ & Hlen & _);
        destruct (decide (symbol = s)) as [->|Hne]
    end.
    + rewrite Hlc in Hl. injection Hl as <-. split; [|intros Hin; contradiction].
      destruct (h !! TokenConfig.symbol c) as [old|] eqn:E; cbn in Hlen; [|lia].
      destruct (Hh _ _ E) as [_ Hold].
      specialize (Hold ltac:(cbn [map]; apply list_elem_of_here)). lia.
    + rewrite pushHistory_other in Hl by exact Hne.
      destruct (Hh _ _ Hl) as [H1 H2]. split; [exact H1|].
      intros Hin. apply H2. cbn [map]. apply list_elem_of_further. exact Hin.
Qed.

(** X5.  In every state the bot reaches, whatever renders the handlers
    that were called belong to, every stored history holds at least 1 and at
    most 50 prices. *)
Theorem X5_history_bounded (cs : list Call) (symbol : string) (hist : list Q) :
  priceHistory (calls cs init) !! symbol = Some hist ->
  (1 <= length hist <= 50)%nat.
Proof.
  revert symbol hist.
  apply (auto_calls_ind
           (fun st => forall symbol hist, priceHistory st !! symbol = Some hist ->
                                          (1 <= length hist <= 50)%nat)
           (fun _ => True)).
  - intros st c _ Hst. destruct c as [r [data|] now | r now | now]; cbn [call].
    + destruct (fetchPrices_view r data now st) as [_ ->].
      apply updateTokens_capped. exact Hst.
    + exact Hst.
    + exact Hst.
    + intros symbol hist H. cbn in H. rewrite lookup_empty in H. discriminate H.
  - apply Forall_forall. intros; exact I.
  - intros symbol hist H. cbn in H. rewrite lookup_empty in H. discriminate H.
Qed.

Lemma X5_history_bounded_witness :
  (1 <= length [114; 113] <= 50)%nat.
Proof.
  apply (X5_history_bounded
           [CallFetch init (Some (Scenario.auto_sol 114 (-5))) 1;
            CallFetch init (Some (Scenario.auto_sol 113 (-5))) 2]
           "SOL"%string [114; 113]).
  vm_compute. reflexivity.
Defined.

(** The log never grows beyond 100 entries. *)
Lemma logs_addLog type now st : (length (logs (addLog type now st)) <= 100)%nat.
Proof. unfold addLog. cbn [logs setLogs]. rewrite length_take. lia. Qed.

Lemma logs_openPosition r token now st :
  (length (logs st) <= 100)%nat ->
  (length (logs (openPosition r token now st)) <= 100)%nat.
Proof. intros H. unfold openPosition. case_cmp; [exact H | apply logs_addLog]. Qed.

Lemma logs_processSignals r currentTokens now st :
  (length (logs st) <= 100)%nat ->
  (length (logs (processSignals r currentTokens now st)) <= 100)%nat.
Proof.
  unfold processSignals. revert st.
  induction currentTokens as [|t ts IH]; intros st H; [exact H|].
  cbn [fold_left]. apply IH. unfold processSignal.
  destruct (_ && _); [|exact H]. destruct (_ && _); [|exact H].
  apply logs_openPosition, H.
Qed.

Lemma logs_checkPositions currentTokens now st :
  (length (logs st) <= 100)%nat ->
  (length (logs (checkPositions currentTokens now st)) <= 100)%nat.
Proof.
  intros H. unfold checkPositions.
  assert (Hfold : forall ps acc, (length (logs acc.2) <= 100)%nat ->
            (length (logs (fold_left (checkPosition currentTokens now) ps acc).2) <= 100)%nat).
  { induction ps as [|p ps IH]; intros acc Hacc; [exact Hacc|].
    cbn [fold_left]. apply IH. destruct acc as [stillOpen s]. cbn [snd] in Hacc.
    destruct (find (fun t => String.eqb (Token.symbol t) (Position.symbol p))
                   currentTokens) as [token|] eqn:Hfind.
    - destruct (auto_checkPosition_cases currentTokens now stillOpen s p token Hfind)
        as [(_ & ->) | [(_ & _ & ->) | [(_ & _ & _ & _ & ->) | (_ & _ & _ & ->)]]];
        cbn [snd]; try exact Hacc; apply logs_addLog.
    - rewrite (checkPosition_None _ _ _ _ _ Hfind). exact Hacc. }
  specialize (Hfold (positions st) ([], st) H).
  destruct (fold_left _ _ _) as [stillOpen st']. exact Hfold.
Qed.

(** X7.  In every state the bot reaches, whatever renders the handlers
    that were called belong to, the log holds at most 100 entries. *)
Theorem X7_log_bounded (cs : list Call) :
  (length (logs (calls cs init)) <= 100)%nat.
Proof.
  apply (auto_calls_ind (fun st => (length (logs st) <= 100)%nat) (fun _ => True)).
  - intros st c _ Hst. destruct c as [r [data|] now | r now | now]; cbn [call].
    + unfold fetchPrices. destruct (fold_left _ _ _) as [updatedTokens h].
      destruct (isRunning r); [|exact Hst].
      apply logs_checkPositions, logs_processSignals. exact Hst.
    + apply logs_addLog.
    + apply logs_addLog.
    + apply logs_addLog.
  - apply Forall_forall. intros; exact I.
  - cbn. lia.
Qed.

(** X8.  A stopped bot does not trade: a tick handled by a render in which
    the bot is not running leaves balance, positions and trades as they
    are; and along a run of the component in which the start button is never
    pressed the bot stays stopped, the balance stays 1000 and there is no
    position and no trade. *)
Theorem X8_stopped_bot_never_trades :
  (forall r resp now st,
     isRunning r = false ->
     balance (fetchPrices r resp now st) = balance st /\
     positions (fetchPrices r resp now st) = positions st /\
     trades (fetchPrices r resp now st) = trades st) /\
  (forall es,
     Forall (fun e => auto_is_toggle e = false) es ->
     isRunning (state (run es mounted)) = false /\
     balance (state (run es mounted)) = CONFIG.INITIAL_BALANCE /\
     positions (state (run es mounted)) = [] /\
     trades (state (run es mounted)) = []).
Proof.
  split.
  - intros r resp now st Hr.
    destruct (fetchPrices_stopped r resp now st Hr) as (H1 & H2 & H3 & _).
    repeat split; assumption.
  - intros es Hes. split; [|apply run_never_trades].
    assert (H : forall c, Inv.auto_closures_stopped c -> isRunning (state c) = false ->
                          isRunning (state (run es c)) = false).
    { induction es as [|e es IH]; intros c Hc Hr; [exact Hr|].
      inversion Hes as [|? ? He Hes']; subst.
      cbn [run fold_left]. fold (run es (step c e)).
      apply (IH Hes'); [apply step_closures_stopped, Hc|].
      destruct Hc as [Hm Hi]. destruct c as [st m i].
      cbn [state mountCall interval] in *.
      destruct e as [resp now | resp now | now | now];
        cbn [step state mountCall interval].
      - destruct m as [r|]; cbn [state]; [|exact Hr].
        destruct (fetchPrices_stopped r resp now st (Hm r eq_refl)) as (_ & _ & _ & ->).
        exact Hr.
      - destruct i as [r|]; cbn [state]; [|exact Hr].
        destruct (fetchPrices_stopped r resp now st (Hi r eq_refl)) as (_ & _ & _ & ->).
        exact Hr.
      - discriminate He.
      - reflexivity. }
    apply H; [apply mounted_closures_stopped | reflexivity].
Qed.

Lemma X8_stopped_bot_never_trades_witness :
  balance (state (run [FirstFetch (Some (Scenario.auto_sol 100 (-5))) 1; Reset 2] mounted))
  = CONFIG.INITIAL_BALANCE.
Proof.
  apply (proj2 X8_stopped_bot_never_trades
           [FirstFetch (Some (Scenario.auto_sol 100 (-5))) 1; Reset 2]).
  repeat constructor.
Defined.

(** With the neutral RSI of a short history the signal is HOLD. *)
Lemma getSignal_neutral (change24h : Q) : getSignal 50 change24h = HOLD.
Proof.
  destruct (getSignal_cases 50 change24h)
    as [(H & _) | [(_ & H & _) | (_ & _ & H)]]; [exfalso; lra | exfalso; lra | exact H].
Qed.

Lemma calculateRSI_short (prices : list Q) :
  (length prices < 15)%nat -> calculateRSI prices 14 = 50.
Proof.
  intros H. unfold calculateRSI.
  destruct (Nat.ltb_spec (length prices) (14 + 1)) as [_|?]; [reflexivity | lia].
Qed.

Lemma processSignals_all_HOLD r currentTokens now st :
  Forall (fun t => Token.signal t = HOLD) currentTokens ->
  processSignals r currentTokens now st = st.
Proof.
  unfold processSignals. revert st.
  induction currentTokens as [|t ts IH]; intros st H; [reflexivity|].
  inversion H as [|? ? Ht Hts]; subst. cbn [fold_left].
  unfold processSignal at 2. rewrite Ht. cbn [Signal_eqb andb]. apply IH, Hts.
Qed.

(** The state of the warm-up: [n] answered ticks so far. *)
Lemma warm_up_tick (n : nat) r st data now :
  (forall symbol hist, priceHistory st !! symbol = Some hist -> (length hist <= n)%nat) ->
  let st' := fetchPrices r (Some data) now st in
  (forall symbol hist, priceHistory st' !! symbol = Some hist -> (length hist <= S n)%nat) /\
  ((S n < 15)%nat ->
   positions st = [] ->
   Forall (fun t => Token.signal t = HOLD) (tokens st') /\
   balance st' = balance st /\ positions st' = [] /\ trades st' = trades st).
Proof.
  intros Hn. cbv zeta.
  pose proof (updateTokens_consistent r data TOKENS_CONFIG [] [] (priceHistory st)
                TOKENS_CONFIG_symbols_NoDup ltac:(constructor)) as Hcons.
  pose proof (updateTokens_grow r data n TOKENS_CONFIG TOKENS_CONFIG_symbols_NoDup
                [] (priceHistory st)
                (fun s x Hx => conj (Nat.le_trans _ _ _ (Hn s x Hx) (Nat.le_succ_diag_r n))
                                    (fun _ => Hn s x Hx))) as Hgrow.
  cbv zeta in Hcons. cbn [app] in Hcons.
  destruct (fetchPrices_view r data now st) as [Htok Hhist].
  split; [rewrite Hhist; exact Hgrow|].
  intros Hlt Hnone.
  assert (Hhold : Forall (fun t => Token.signal t = HOLD)
                         (fold_left (updateToken r data) TOKENS_CONFIG
                                    ([], priceHistory st)).1).
  { clear -Hcons Hgrow Hlt.
    induction Hcons as [|c t cs ts (_ & _ & _ & _ & hist & Hh & _ & Hrsi & Hsig) _ IH];
      constructor; [|exact IH].
    rewrite Hsig, Hrsi, calculateRSI_short; [apply getSignal_neutral|].
    specialize (Hgrow _ _ Hh). lia. }
  split; [rewrite Htok; exact Hhold|].
  unfold fetchPrices. destruct (fold_left _ _ _) as [updatedTokens h].
  cbn [fst] in Hhold.
  destruct (isRunning r); [|repeat split; assumption].
  rewrite (processSignals_all_HOLD _ _ _ _ Hhold).
  unfold checkPositions.
  cbn [positions setLastUpdate setTokens setPriceHistory]. rewrite Hnone.
  cbn [fold_left]. repeat split.
Qed.

Lemma warm_up_calls (cs : list Call) :
  forall (n : nat) st,
    (forall symbol hist, priceHistory st !! symbol = Some hist -> (length hist <= n)%nat) ->
    ((n < 15)%nat ->
     positions st = [] /\ trades st = [] /\ balance st = CONFIG.INITIAL_BALANCE /\
     Forall (fun t => Token.signal t = HOLD) (tokens st)) ->
    let m := (n + length (List.filter auto_answered cs))%nat in
    (m < 15)%nat ->
    positions (calls cs st) = [] /\ trades (calls cs st) = [] /\
    balance (calls cs st) = CONFIG.INITIAL_BALANCE /\
    Forall (fun t => Token.signal t = HOLD) (tokens (calls cs st)).
Proof.
  induction cs as [|c cs IH]; intros n st Hn Hst m Hm; subst m.
  - cbn [List.filter length] in Hm. cbn [calls fold_left]. apply Hst. lia.
  - cbn [calls fold_left]. fold (calls cs (call st c)).
    destruct c as [r [data|] now | r now | now]; cbn [List.filter auto_answered length] in Hm.
    + destruct (warm_up_tick n r st data now Hn) as [Hgrow Hkeep].
      destruct Hst as (Hp & Ht & Hb & _); [lia|].
      destruct Hkeep as (Hhold & Hb' & Hp' & Ht'); [lia | exact Hp |].
      apply (IH (S n)); [exact Hgrow | | lia].
      intros _. cbn [call]. repeat split; [exact Hp' | congruence | congruence | exact Hhold].
    + apply (IH n); [exact Hn | exact Hst | exact Hm].
    + apply (IH n); [exact Hn | exact Hst | exact Hm].
    + apply (IH n); [| | exact Hm].
      * intros symbol hist H. cbn in H. rewrite lookup_empty in H. discriminate H.
      * intros Hlt. destruct (Hst Hlt) as (_ & _ & _ & Hhold). repeat split. exact Hhold.
Qed.

(** X9.  The bot needs 15 answered ticks before it can trade: after a
    sequence of handler calls from the initial state in which fewer than 15
    calls of [fetchPrices] were answered, every token signals HOLD, and there
    is no position, no trade and the balance is 1000, whatever the quotes
    are and whatever renders the handlers belong to. *)
Theorem X9_warm_up (cs : list Call) :
  (length (List.filter auto_answered cs) < 15)%nat ->
  positions (calls cs init) = [] /\ trades (calls cs init) = [] /\
  balance (calls cs init) = CONFIG.INITIAL_BALANCE /\
  Forall (fun t => Token.signal t = HOLD) (tokens (calls cs init)).
Proof.
  intros H. apply (warm_up_calls cs 0 init).
  - intros symbol hist Hl. cbn in Hl. rewrite lookup_empty in Hl. discriminate Hl.
  - intros _. repeat split. constructor.
  - exact H.
Qed.

Lemma X9_warm_up_witness :
  positions (calls [CallToggle init 0;
                    CallFetch Scenario.auto_running (Some (Scenario.auto_sol 100 (-9))) 1]
                   init) = [].
Proof.
  apply (X9_warm_up [CallToggle init 0;
                     CallFetch Scenario.auto_running
                       (Some (Scenario.auto_sol 100 (-9))) 1]).
  simpl. lia.
Defined.

End AutoTicks.

(** ** The account of the autonomous bot *)

Section AutoAccount.

Import Num Auto Acct.

Lemma total_acc {A : Type} (f : A -> Q) (l : list A) (a : Q) :
  fold_left (fun sum x => sum + f x) l a == a + total f l.
Proof.
  unfold total. revert a. induction l as [|x l IH]; intros a; cbn [fold_left]; [lra|].
  rewrite (IH (a + f x)), (IH (0 + f x)). lra.
Qed.

Lemma total_cons {A : Type} (f : A -> Q) (x : A) (l : list A) :
  total f (x :: l) == f x + total f l.
Proof. unfold total at 1. cbn [fold_left]. rewrite total_acc. lra. Qed.

Lemma total_app {A : Type} (f : A -> Q) (l k : list A) :
  total f (l ++ k) == total f l + total f k.
Proof.
  induction l as [|x l IH]; cbn [app].
  - unfold total at 2. cbn [fold_left]. lra.
  - rewrite !total_cons, IH. lra.
Qed.

Lemma total_nil {A : Type} (f : A -> Q) : total f [] == 0.
Proof. reflexivity. Qed.

(** The account value the bot keeps: cash plus allocated value minus
    realized P&L. *)
Lemma account_openPosition r token now st :
  balance (openPosition r token now st)
  + total Position.valueEUR (positions (openPosition r token now st))
  == balance st + total Position.valueEUR (positions st).
Proof.
  unfold openPosition. case_cmp; [reflexivity|].
  unfold addLog. cbn [balance positions setLogs setBalance setPositions].
  rewrite total_app, total_cons, total_nil. cbn [Position.valueEUR]. lra.
Qed.

Lemma account_processSignals r currentTokens now st :
  balance (processSignals r currentTokens now st)
  + total Position.valueEUR (positions (processSignals r currentTokens now st))
  == balance st + total Position.valueEUR (positions st).
Proof.
  unfold processSignals. revert st.
  induction currentTokens as [|t ts IH]; intros st; [reflexivity|].
  cbn [fold_left]. rewrite IH. unfold processSignal.
  destruct (_ && _); [|reflexivity]. destruct (_ && _); [|reflexivity].
  apply account_openPosition.
Qed.

Lemma totalPnL_closeTrade pos exitPrice reason now st :
  total Trade.pnl (trades (closeTrade pos exitPrice reason now st))
  == (exitPrice - Position.entryPrice pos) * Position.quantity pos
     + total Trade.pnl (trades st).
Proof. rewrite closeTrade_trades, total_cons. reflexivity. Qed.

Lemma account_checkPosition currentTokens now stillOpen st pos :
  let res := checkPosition currentTokens now (stillOpen, st) pos in
  balance res.2 + total Position.valueEUR res.1 - total Trade.pnl (trades res.2)
  == balance st + total Position.valueEUR stillOpen + Position.valueEUR pos
     - total Trade.pnl (trades st).
Proof.
  cbv zeta.
  destruct (find (fun t => String.eqb (Token.symbol t) (Position.symbol pos))
                 currentTokens) as [token|] eqn:Hfind.
  - destruct (auto_checkPosition_cases currentTokens now stillOpen st pos token Hfind)
      as [(_ & ->) | [(_ & _ & ->) | [(_ & _ & _ & _ & ->) | (_ & _ & _ & ->)]]];
      cbn [fst snd];
      rewrite ?totalPnL_closeTrade, ?balance_closeTrade, ?total_app, ?total_cons,
        ?total_nil; cbn [Position.valueEUR remark]; lra.
  - rewrite (checkPosition_None _ _ _ _ _ Hfind). cbn [fst snd].
    rewrite total_app, total_cons, total_nil. lra.
Qed.

Lemma account_checkPositions currentTokens now st :
  let st' := checkPositions currentTokens now st in
  balance st' + total Position.valueEUR (positions st') - total Trade.pnl (trades st')
  == balance st + total Position.valueEUR (positions st) - total Trade.pnl (trades st).
Proof.
  cbv zeta. unfold checkPositions.
  assert (H : forall ps stillOpen s,
            let res := fold_left (checkPosition currentTokens now) ps (stillOpen, s) in
            balance res.2 + total Position.valueEUR res.1 - total Trade.pnl (trades res.2)
            == balance s + total Position.valueEUR stillOpen + total Position.valueEUR ps
               - total Trade.pnl (trades s)).
  { induction ps as [|p ps IH]; intros stillOpen s; cbv zeta.
    - cbn [fold_left fst snd]. rewrite total_nil. lra.
    - cbn [fold_left].
      pose proof (account_checkPosition currentTokens now stillOpen s p) as Hp.
      cbv zeta in Hp.
      destruct (checkPosition currentTokens now (stillOpen, s) p) as [so1 s1].
      cbn [fst snd] in Hp. rewrite (IH so1 s1), total_cons. lra. }
  specialize (H (positions st) [] st). cbv zeta in H.
  destruct (fold_left _ _ _) as [stillOpen st'].
  cbn [fst snd] in H. cbn [balance positions trades setPositions].
  rewrite H, total_nil. lra.
Qed.

(** X10.  The account of the bot balances in every state it reaches,
    whatever the quotes and whatever renders the handlers that were called
    belong to: cash plus the value allocated to the open positions equals the
    initial 1000 plus the total P&L of the recorded trades (the figure the
    component shows as total P&L). *)
Theorem X10_account_balances (cs : list Call) :
  balance (calls cs init) + auto_allocated (calls cs init)
  == CONFIG.INITIAL_BALANCE + AutoStats.totalPnL (calls cs init).
Proof.
  apply (auto_calls_ind
           (fun st => balance st + auto_allocated st
                      == CONFIG.INITIAL_BALANCE + AutoStats.totalPnL st)
           (fun _ => True)).
  - intros st c _ Hst. unfold auto_allocated, AutoStats.totalPnL in *.
    fold (total Trade.pnl (trades st)) in Hst.
    destruct c as [r [data|] now | r now | now]; cbn [call].
    + unfold fetchPrices. destruct (fold_left _ _ _) as [updatedTokens h].
      destruct (isRunning r); [|exact Hst].
      match goal with
      | |- context [checkPositions ?ts ?n ?s] =>
          pose proof (account_checkPositions ts n s) as Hc; cbv zeta in Hc;
          set (st2 := checkPositions ts n s) in *
      end.
      match type of Hc with
      | context [processSignals ?r0 ?ts ?n ?s] =>
          pose proof (account_processSignals r0 ts n s) as Hp;
          destruct (processSignals_frame r0 ts n s) as (_ & _ & _ & _ & Ht);
          set (st1 := processSignals r0 ts n s) in *
      end.
      cbn [balance positions trades setLastUpdate setTokens setPriceHistory] in Hp, Ht.
      fold (total Trade.pnl (trades st2)).
      rewrite Ht in Hc. lra.
    + exact Hst.
    + exact Hst.
    + reflexivity.
  - apply Forall_forall. intros; exact I.
  - reflexivity.
Qed.

(** What the open path does to the open set, whatever the balance is. *)
Lemma processSignal_opens r now st token :
  let st' := processSignal r now st token in
  st' = st \/
  (0 < Token.price token /\
   20 <= balance r * CONFIG.POSITION_SIZE /\
   positions st'
   = positions st
     ++ [Position.mk now (Token.symbol token) (Token.price token) (Token.price token)
           (balance r * CONFIG.POSITION_SIZE / Token.price token)
           (balance r * CONFIG.POSITION_SIZE) 0 0
           (Token.price token * (1 - CONFIG.STOP_LOSS))
           (Token.price token * (1 + CONFIG.TAKE_PROFIT)) now] /\
   trades st' = trades st).
Proof.
  cbv zeta. unfold processSignal.
  destruct (Signal_eqb (Token.signal token) BUY); [|left; reflexivity].
  destruct (Qlt_bool 0 (Token.price token)) eqn:Hprice; [|left; reflexivity].
  apply Qlt_bool_iff in Hprice. cbn [andb].
  destruct (_ && _); [|left; reflexivity].
  destruct (Qlt_le_dec (min (balance r * CONFIG.POSITION_SIZE) (balance r - 10)) 20)
    as [Hrej|Hacc].
  - left. apply openPosition_rejected. exact Hrej.
  - right. rewrite (openPosition_accepted r token now st Hacc).
    destruct (tradeValue_accepted _ Hacc) as [Heq _]. rewrite Heq in Hacc.
    split; [exact Hprice|]. split; [exact Hacc|]. split; reflexivity.
Qed.

Lemma processSignals_opens r currentTokens now :
  forall st,
    let st' := processSignals r currentTokens now st in
    trades st' = trades st /\
    exists news,
      positions st' = positions st ++ news /\
      Forall auto_pos_sound news /\ Forall auto_mark_consistent news /\
      map Position.symbol news `sublist_of` map Token.symbol currentTokens.
Proof.
  unfold processSignals.
  induction currentTokens as [|t ts IH]; intros st; cbv zeta.
  - cbn [fold_left]. split; [reflexivity|]. exists []. rewrite app_nil_r.
    split; [reflexivity|]. repeat split; constructor.
  - cbn [fold_left].
    destruct (IH (processSignal r now st t)) as (Ht & news & Hp & Hs & Hm & Hsub).
    destruct (processSignal_opens r now st t) as [Heq | (Hprice & Hsize & Hpos & Htr)].
    + rewrite Heq in *. split; [exact Ht|]. exists news.
      split; [exact Hp|]. split; [exact Hs|]. split; [exact Hm|].
      cbn [map]. apply sublist_cons. exact Hsub.
    + split; [congruence|]. eexists (_ :: news).
      split; [rewrite Hp, Hpos, <- app_assoc; reflexivity|].
      split; [|split].
      * constructor; [|exact Hs]. unfold auto_pos_sound.
        cbn [Position.entryPrice Position.quantity Position.stopLoss Position.takeProfit].
        split; [exact Hprice|]. split; [|split; reflexivity].
        apply Qlt_shift_div_l; [exact Hprice | lra].
      * constructor; [|exact Hm]. unfold auto_mark_consistent.
        cbn [Position.pnl Position.pnlPercent Position.currentPrice Position.entryPrice
             Position.quantity].
        split; unfold Qdiv; ring.
      * cbn [map Position.symbol]. apply sublist_skip. exact Hsub.
Qed.

(** One callback of [checkPositions], seen from the record it keeps or the
    trade it writes. *)
Lemma checkPosition_kept_or_closed currentTokens now stillOpen st pos :
  let res := checkPosition currentTokens now (stillOpen, st) pos in
  (res.2 = st /\
   exists pos',
     res.1 = stillOpen ++ [pos'] /\ auto_fixed pos' = auto_fixed pos /\
     (auto_mark_consistent pos -> auto_mark_consistent pos')) \/
  (res.1 = stillOpen /\
   exists trade,
     trades res.2 = trade :: trades st /\
     (auto_pos_sound pos -> auto_trade_outcome trade)).
Proof.
  cbv zeta.
  destruct (find (fun t => String.eqb (Token.symbol t) (Position.symbol pos))
                 currentTokens) as [token|] eqn:Hfind.
  - assert (Hresult : forall pnl : Q,
              (0 <= pnl -> (if Qle_bool 0 pnl then WIN else LOSS) = WIN) /\
              (pnl < 0 -> (if Qle_bool 0 pnl then WIN else LOSS) = LOSS)).
    { intros pnl. split; intros H.
      - apply Qle_bool_iff in H. rewrite H. reflexivity.
      - apply Qle_bool_false in H. rewrite H. reflexivity. }
    destruct (auto_checkPosition_cases currentTokens now stillOpen st pos token Hfind)
      as [(Hsl & ->) | [(_ & Htp & ->) | [(_ & _ & _ & Hpnl & ->) | (_ & _ & _ & ->)]]];
      set (price := Token.price token) in *; cbn [fst snd].
    + right. split; [reflexivity|]. eexists. split; [apply closeTrade_trades|].
      intros (He & Hq & Hs & _). unfold auto_trade_outcome.
      cbn [Trade.pnl Trade.exitPrice Trade.entryPrice Trade.quantity Trade.result
           Trade.reason].
      rewrite Hs in Hsl. unfold CONFIG.STOP_LOSS in Hsl.
      assert (Hneg : (price - Position.entryPrice pos) * Position.quantity pos < 0) by nra.
      split; [reflexivity|]. split; [apply Hresult|]. split; [apply Hresult|].
      split; [discriminate|]. split; [intros _; exact Hneg | discriminate].
    + right. split; [reflexivity|]. eexists. split; [apply closeTrade_trades|].
      intros (He & Hq & _ & Ht). unfold auto_trade_outcome.
      cbn [Trade.pnl Trade.exitPrice Trade.entryPrice Trade.quantity Trade.result
           Trade.reason].
      rewrite Ht in Htp. unfold CONFIG.TAKE_PROFIT in Htp.
      assert (Hgain : 0 < (price - Position.entryPrice pos) * Position.quantity pos) by nra.
      split; [reflexivity|]. split; [apply Hresult|]. split; [apply Hresult|].
      split; [intros _; exact Hgain|]. split; [discriminate | discriminate].
    + right. split; [reflexivity|]. eexists. split; [apply closeTrade_trades|].
      intros _. unfold auto_trade_outcome.
      cbn [Trade.pnl Trade.exitPrice Trade.entryPrice Trade.quantity Trade.result
           Trade.reason].
      split; [reflexivity|]. split; [apply Hresult|]. split; [apply Hresult|].
      split; [discriminate|]. split; [discriminate | intros _; exact Hpnl].
    + left. split; [reflexivity|]. eexists. split; [reflexivity|].
      split; [reflexivity|]. intros _. split; reflexivity.
  - rewrite (checkPosition_None _ _ _ _ _ Hfind). cbn [fst snd].
    left. split; [reflexivity|]. exists pos. split; [reflexivity|].
    split; [reflexivity | intros H; exact H].
Qed.

Lemma auto_fixed_sound pos pos' :
  auto_fixed pos' = auto_fixed pos -> auto_pos_sound pos -> auto_pos_sound pos'.
Proof.
  unfold auto_fixed, auto_pos_sound. intros Heq. injection Heq as _ _ He Hq _ Hs Ht _.
  rewrite He, Hq, Hs, Ht. intros H. exact H.
Qed.

(** A whole [checkPositions]. *)
Lemma checkPositions_kept_or_closed currentTokens now st :
  let st' := checkPositions currentTokens now st in
  map auto_fixed (positions st') `sublist_of` map auto_fixed (positions st) /\
  (Forall auto_pos_sound (positions st) -> Forall auto_pos_sound (positions st')) /\
  (Forall auto_mark_consistent (positions st) ->
   Forall auto_mark_consistent (positions st')) /\
  exists closed,
    trades st' = closed ++ trades st /\
    (length (positions st') + length closed = length (positions st))%nat /\
    (Forall auto_pos_sound (positions st) -> Forall auto_trade_outcome closed).
Proof.
  cbv zeta. unfold checkPositions.
  assert (H : forall ps stillOpen s,
            let res := fold_left (checkPosition currentTokens now) ps (stillOpen, s) in
            (exists kept,
               res.1 = stillOpen ++ kept /\
               map auto_fixed kept `sublist_of` map auto_fixed ps /\
               (Forall auto_pos_sound ps -> Forall auto_pos_sound kept) /\
               (Forall auto_mark_consistent ps -> Forall auto_mark_consistent kept) /\
               exists closed,
                 trades res.2 = closed ++ trades s /\
                 (length kept + length closed = length ps)%nat /\
                 (Forall auto_pos_sound ps -> Forall auto_trade_outcome closed))).
  { induction ps as [|p ps IH]; intros stillOpen s; cbv zeta.
    - cbn [fold_left fst snd]. exists []. rewrite app_nil_r.
      split; [reflexivity|]. split; [constructor|].
      split; [intros _; constructor|]. split; [intros _; constructor|].
      exists []. split; [reflexivity|]. split; [reflexivity | intros _; constructor].
    - cbn [fold_left].
      pose proof (checkPosition_kept_or_closed currentTokens now stillOpen s p) as Hp.
      cbv zeta in Hp.
      destruct (checkPosition currentTokens now (stillOpen, s) p) as [so1 s1].
      cbn [fst snd] in Hp.
      destruct (IH so1 s1)
        as (kept & Hk & Hsub & Hsound & Hmark & closed & Htr & Hlen & Hout).
      destruct Hp as [(-> & pos' & -> & Hfix & Hm) | (-> & trade & Ht1 & Ho)].
      + exists (pos' :: kept). rewrite Hk, <- app_assoc.
        split; [reflexivity|]. split; [|split; [|split]].
        * cbn [map]. rewrite Hfix. apply sublist_skip. exact Hsub.
        * intros Hall. inversion Hall; subst.
          constructor; [eapply auto_fixed_sound; eassumption | apply Hsound; assumption].
        * intros Hall. inversion Hall; subst.
          constructor; [apply Hm; assumption | apply Hmark; assumption].
        * exists closed. split; [exact Htr|]. split; [cbn [length]; lia|].
          intros Hall. inversion Hall; subst. apply Hout. assumption.
      + exists kept. split; [exact Hk|]. split; [|split; [|split]].
        * cbn [map]. apply sublist_cons. exact Hsub.
        * intros Hall. inversion Hall; subst. apply Hsound. assumption.
        * intros Hall. inversion Hall; subst. apply Hmark. assumption.
        * exists (closed ++ [trade]). rewrite Htr, Ht1, <- app_assoc.
          split; [reflexivity|]. rewrite length_app. cbn [length].
          split; [lia|]. intros Hall. inversion Hall; subst.
          apply Forall_app. split; [apply Hout; assumption|].
          constructor; [apply Ho; assumption | constructor]. }
  specialize (H (positions st) [] st). cbv zeta in H.
  destruct (fold_left _ _ _) as [stillOpen st']. cbn [fst snd app] in H.
  destruct H as (kept & -> & Hsub & Hsound & Hmark & closed & Htr & Hlen & Hout).
  cbn [positions trades setPositions].
  split; [exact Hsub|]. split; [exact Hsound|]. split; [exact Hmark|].
  exists closed. split; [exact Htr|]. split; [exact Hlen | exact Hout].
Qed.

(** The sound state of the bot: what every tick keeps, whatever the
    render of its handler. *)
Lemma auto_tick_sound r st resp now :
  Forall auto_pos_sound (positions st) /\
  Forall auto_mark_consistent (positions st) /\
  Forall auto_trade_outcome (trades st) /\
  Forall (fun p => Position.symbol p ∈ map TokenConfig.symbol TOKENS_CONFIG)
         (positions st) ->
  let st' := fetchPrices r resp now st in
  Forall auto_pos_sound (positions st') /\
  Forall auto_mark_consistent (positions st') /\
  Forall auto_trade_outcome (trades st') /\
  Forall (fun p => Position.symbol p ∈ map TokenConfig.symbol TOKENS_CONFIG)
         (positions st').
Proof.
  intros (Hs & Hm & Ho & Hc). cbv zeta. unfold fetchPrices.
  destruct resp as [data|]; [|repeat split; assumption].
  pose proof (updateTokens_facts r data TOKENS_CONFIG [] (priceHistory st)) as Hup.
  cbv zeta in Hup. destruct (fold_left _ _ _) as [updatedTokens h].
  cbn [fst map app] in Hup. destruct Hup as [Hsym _].
  destruct (isRunning r); [|repeat split; assumption].
  match goal with
  | |- context [processSignals ?r0 ?ts ?n ?s] =>
      destruct (processSignals_opens r0 ts n s) as (Ht & news & Hp & Hns & Hnm & Hsub);
      set (st1 := processSignals r0 ts n s) in *
  end.
  cbn [positions trades setLastUpdate setTokens setPriceHistory] in Ht, Hp.
  assert (Hs1 : Forall auto_pos_sound (positions st1))
    by (rewrite Hp; apply Forall_app; split; assumption).
  assert (Hm1 : Forall auto_mark_consistent (positions st1))
    by (rewrite Hp; apply Forall_app; split; assumption).
  assert (Hc1 : Forall (fun p => Position.symbol p ∈ map TokenConfig.symbol TOKENS_CONFIG)
                       (positions st1)).
  { rewrite Hp. apply Forall_app. split; [exact Hc|].
    apply Forall_forall. intros p Hin. rewrite <- Hsym.
    eapply elem_of_sublist; [|exact Hsub]. apply list_elem_of_fmap_2. exact Hin. }
  destruct (checkPositions_kept_or_closed updatedTokens now st1)
    as (Hfix & Hks & Hkm & closed & Htr & _ & Hout).
  split; [apply Hks; exact Hs1|]. split; [apply Hkm; exact Hm1|]. split.
  - rewrite Htr, Ht. apply Forall_app. split; [apply Hout; exact Hs1 | exact Ho].
  - apply Forall_forall. intros p Hin.
    assert (Hin' : auto_fixed p ∈ map auto_fixed (positions st1)).
    { eapply elem_of_sublist; [|exact Hfix]. apply list_elem_of_fmap_2. exact Hin. }
    apply list_elem_of_fmap in Hin'. destruct Hin' as (q & Hq & Hqin).
    rewrite Forall_forall in Hc1. specialize (Hc1 q Hqin).
    unfold auto_fixed in Hq. injection Hq as _ Hsymq _ _ _ _ _ _.
    rewrite Hsymq. exact Hc1.
Qed.

Lemma auto_calls_sound cs :
  Forall auto_pos_sound (positions (calls cs init)) /\
  Forall auto_mark_consistent (positions (calls cs init)) /\
  Forall auto_trade_outcome (trades (calls cs init)) /\
  Forall (fun p => Position.symbol p ∈ map TokenConfig.symbol TOKENS_CONFIG)
         (positions (calls cs init)).
Proof.
  apply (auto_calls_ind
           (fun st => Forall auto_pos_sound (positions st) /\
                      Forall auto_mark_consistent (positions st) /\
                      Forall auto_trade_outcome (trades st) /\
                      Forall (fun p => Position.symbol p
                                       ∈ map TokenConfig.symbol TOKENS_CONFIG)
                             (positions st))
           (fun _ => True)).
  - intros st c _ Hst. destruct c as [r resp now | r now | now]; cbn [call].
    + apply auto_tick_sound. exact Hst.
    + exact Hst.
    + repeat split; constructor.
  - apply Forall_forall. intros; exact I.
  - repeat split; constructor.
Qed.

(** X11.  One pass of the exit check accounts for every open position
    exactly once: each position is either kept, with its identity, symbol,
    entry price, quantity, value, stop-loss, take-profit and opening time
    unchanged and in the same order, or it is removed and exactly one trade is
    put in front of the untouched earlier history. *)
Theorem X11_exit_check_accounts_for_every_position
  (currentTokens : list Token.t) (now : Z) (st : State) :
  let st' := checkPositions currentTokens now st in
  map auto_fixed (positions st') `sublist_of` map auto_fixed (positions st) /\
  exists closed,
    trades st' = closed ++ trades st /\
    (length (positions st') + length closed = length (positions st))%nat.
Proof.
  cbv zeta.
  destruct (checkPositions_kept_or_closed currentTokens now st)
    as (Hfix & _ & _ & closed & Htr & Hlen & _).
  split; [exact Hfix|]. exists closed. split; assumption.
Qed.

(** X12.  In every state the bot reaches, every trade record is consistent
    with itself and with the reason it gives: its P&L is
    [(exitPrice - entryPrice) * quantity], its result is WIN exactly when that
    P&L is at least 0, a stop-loss trade has a negative P&L, and a take-profit
    or signal trade has a positive one, whatever the quotes were and whatever
    renders the handlers that were called belong to. *)
Theorem X12_trade_outcomes (cs : list Call) (t : Trade.t) :
  In t (trades (calls cs init)) ->
  Trade.pnl t = (Trade.exitPrice t - Trade.entryPrice t) * Trade.quantity t /\
  (Trade.result t = WIN <-> 0 <= Trade.pnl t) /\
  (Trade.reason t = SL -> Trade.pnl t < 0 /\ Trade.result t = LOSS) /\
  (Trade.reason t = TP -> 0 < Trade.pnl t /\ Trade.result t = WIN) /\
  (Trade.reason t = SIGNAL -> 0 < Trade.pnl t /\ Trade.result t = WIN).
Proof.
  intros Hin. destruct (auto_calls_sound cs) as (_ & _ & Hout & _).
  rewrite Forall_forall in Hout. specialize (Hout t (proj2 (list_elem_of_In _ _) Hin)).
  destruct Hout as (Hpnl & Hwin & Hloss & Htp & Hsl & Hsig).
  split; [exact Hpnl|]. split; [|split; [|split]].
  - split; [|exact Hwin]. intros Hres.
    destruct (Qlt_le_dec (Trade.pnl t) 0) as [Hneg|Hpos]; [|exact Hpos].
    rewrite (Hloss Hneg) in Hres. discriminate Hres.
  - intros Hr. specialize (Hsl Hr). split; [exact Hsl | apply Hloss; exact Hsl].
  - intros Hr. specialize (Htp Hr). split; [exact Htp | apply Hwin; lra].
  - intros Hr. specialize (Hsig Hr). split; [exact Hsig | apply Hwin; lra].
Qed.

Lemma X12_trade_outcomes_witness :
  let t :=
    Trade.mk 15 "SOL" 100 0 (1000 * (15 # 100) / 100)
      ((0 - 100) * (1000 * (15 # 100) / 100)) ((0 - 100) / 100 * 100)
      LOSS SL 15 16 in
  Trade.pnl t < 0 /\ Trade.result t = LOSS.
Proof.
  intros t.
  apply (X12_trade_outcomes
           (Scenario.auto_dip ++ [CallFetch Scenario.auto_running (Some ∅) 16]) t).
  - vm_compute. left. reflexivity.
  - reflexivity.
Defined.

Lemma total_ext {A : Type} (f g : A -> Q) (l : list A) :
  Forall (fun x => f x == g x) l -> total f l == total g l.
Proof.
  induction 1 as [|x l Hx _ IH]; [reflexivity|].
  rewrite !total_cons, Hx, IH. reflexivity.
Qed.

(** X13.  In every state the bot reaches, whatever renders the handlers
    that were called belong to, the mark of every open position agrees with
    its current price: [pnl] is [(currentPrice - entryPrice) * quantity] and
    [pnlPercent] is the move of the price in percent of the entry price; so
    the open P&L the component shows is the sum of those unrealized
    amounts. *)
Theorem X13_marks_consistent (cs : list Call) :
  Forall auto_mark_consistent (positions (calls cs init)) /\
  AutoStats.openPnL (calls cs init)
  == total (fun p => (Position.currentPrice p - Position.entryPrice p)
                     * Position.quantity p)
           (positions (calls cs init)).
Proof.
  destruct (auto_calls_sound cs) as (_ & Hm & _ & _).
  split; [exact Hm|].
  unfold AutoStats.openPnL. fold (total Position.pnl (positions (calls cs init))).
  apply total_ext. eapply Forall_impl; [exact Hm|].
  intros p [Hp _]. exact Hp.
Qed.

(** X14.  A position of a state the bot reaches, whatever renders the
    handlers that were called belong to, is neither stopped out nor taken at
    its own entry price: when its token is quoted at the entry price, the
    exit check keeps it, with a P&L of zero. *)
Theorem X14_entry_price_keeps_position
  (cs : list Call) (pos : Position.t) (currentTokens : list Token.t)
  (now : Z) (stillOpen : list Position.t) (st : State) (token : Token.t) :
  In pos (positions (calls cs init)) ->
  find (fun t => String.eqb (Token.symbol t) (Position.symbol pos)) currentTokens
  = Some token ->
  Token.price token == Position.entryPrice pos ->
  exists pos',
    checkPosition currentTokens now (stillOpen, st) pos = (stillOpen ++ [pos'], st) /\
    auto_fixed pos' = auto_fixed pos /\
    Position.currentPrice pos' = Token.price token /\
    Position.pnl pos' == 0.
Proof.
  intros Hin Hfind Hprice.
  destruct (auto_calls_sound cs) as (Hs & _ & _ & _).
  rewrite Forall_forall in Hs.
  destruct (Hs pos (proj2 (list_elem_of_In _ _) Hin)) as (He & Hq & Hsl & Htp).
  unfold CONFIG.STOP_LOSS in Hsl. unfold CONFIG.TAKE_PROFIT in Htp.
  destruct (auto_checkPosition_cases currentTokens now stillOpen st pos token Hfind)
    as [(H1 & _) | [(_ & H2 & _) | [(_ & _ & _ & H3 & _) | (_ & _ & _ & ->)]]].
  - exfalso. rewrite Hsl in H1. lra.
  - exfalso. rewrite Htp in H2. lra.
  - exfalso. rewrite Hprice in H3. lra.
  - eexists. split; [reflexivity|]. split; [reflexivity|]. split; [reflexivity|].
    cbn [Position.pnl remark]. rewrite Hprice. ring.
Qed.

Lemma X14_entry_price_keeps_position_witness :
  let pos :=
    Position.mk 15 "SOL" 100 100 (1000 * (15 # 100) / 100) (1000 * (15 # 100))
      ((100 - 100) * (1000 * (15 # 100) / 100)) ((100 - 100) / 100 * 100)
      (100 * (1 - (3 # 100))) (100 * (1 + (8 # 100))) 15 in
  let tok := Token.mk "SOL" "Solana" 100 101 (-5) 0 BUY in
  exists pos',
    checkPosition [tok] 16 ([], init) pos = ([] ++ [pos'], init) /\
    Position.pnl pos' == 0.
Proof.
  intros pos tok.
  destruct (X14_entry_price_keeps_position Scenario.auto_dip pos [tok] 16%Z [] init tok)
    as (pos' & Hc & _ & _ & Hp).
  - vm_compute. left. reflexivity.
  - reflexivity.
  - reflexivity.
  - exists pos'. split; assumption.
Defined.

(** X15.  The balance below which the bot opens nothing, and the size of
    a manual trade.  The bot opens no position in a tick whose render shows a
    balance below 400/3 (15% of it is below the minimum size of 20); every
    trade the manual simulator opens debits a size between 10 and 100. *)
Theorem X15_minimum_balance :
  (forall r currentTokens now st,
     balance r < 400 # 3 -> processSignals r currentTokens now st = st) /\
  (forall r symbol now st,
     Manual.executeTrade r symbol now st = st \/
     exists size,
       10 <= size <= 100 /\
       Manual.balance (Manual.executeTrade r symbol now st) = Manual.balance st - size).
Proof.
  split.
  - intros r currentTokens now st Hb. unfold processSignals. revert st.
    induction currentTokens as [|t ts IH]; intros st; [reflexivity|].
    cbn [fold_left].
    replace (processSignal r now st t) with st; [apply IH|].
    symmetry. unfold processSignal.
    destruct (_ && _); [|reflexivity]. destruct (_ && _); [|reflexivity].
    apply openPosition_rejected.
    pose proof (min_le_l (balance r * CONFIG.POSITION_SIZE) (balance r - 10)) as Hmin.
    unfold CONFIG.POSITION_SIZE in *.
    assert (balance r * (15 # 100) < 20) by lra. lra.
  - intros r symbol now st.
    destruct (executeTrade_effect r symbol now st) as [H | (Hsz & Hbal & _)];
      [left; exact H|].
    right. exists (min 100 (Manual.balance r * (1 # 10))).
    split; [|exact Hbal]. split; [exact Hsz | apply min_le_l].
Qed.

Lemma X15_minimum_balance_witness :
  let poor := setBalance (fun _ => 130) init in
  processSignals poor [Token.mk "SOL" "Solana" 100 100 (-5) 20 BUY] 1 poor = poor.
Proof.
  intros poor.
  apply (proj1 X15_minimum_balance poor). reflexivity.
Defined.

(** X16.  In every state the bot reaches, whatever renders the handlers
    that were called belong to, every open position is on one of the six
    configured tokens and was bought at a positive price, in a positive
    quantity, with its stop-loss 3% below and its take-profit 8% above the
    entry price. *)
Theorem X16_open_positions_configured (cs : list Call) :
  Forall (fun p => Position.symbol p ∈ map TokenConfig.symbol TOKENS_CONFIG /\
                   auto_pos_sound p)
         (positions (calls cs init)).
Proof.
  destruct (auto_calls_sound cs) as (Hs & _ & _ & Hc).
  rewrite Forall_forall in *. intros p Hp. split; [apply Hc | apply Hs]; exact Hp.
Qed.

End AutoAccount.

(** ** The account of the manual simulator *)

Section ManualAccount.

Import Num Manual Acct.

(** [executeTrade], with the position it opens written out. *)
Lemma executeTrade_opens r symbol now st :
  executeTrade r symbol now st = st \/
  exists token,
    In token (tokens r) /\ ~ Token.price token == 0 /\
    10 <= min 100 (balance r * (1 # 10)) /\
    let size := min 100 (balance r * (1 # 10)) in
    let position :=
      Position.mk now symbol (Token.price token) (size / EUR_RATE / Token.price token)
        size (Token.price token * (1 - STOP_LOSS))
        (Token.price token * (1 + TAKE_PROFIT)) now in
    executeTrade r symbol now st
    = setTrades (fun t => Trade.mk position "OPEN" None None :: t)
        (setPositions (fun p => p ++ [position])
           (setBalance (fun b => b - size) st)).
Proof.
  unfold executeTrade.
  destruct (find _ (tokens r)) as [token|] eqn:Hfind; [|left; reflexivity].
  destruct (Qeq_bool (Token.price token) 0) eqn:Hz; [left; reflexivity|].
  apply Qeq_bool_neq in Hz.
  destruct (Qlt_bool (min 100 (balance r * (1 # 10))) 10) eqn:Hsz; [left; reflexivity|].
  apply Qlt_bool_false in Hsz. right. exists token.
  split; [apply (find_some _ _ Hfind)|]. split; [exact Hz|]. split; [exact Hsz|].
  reflexivity.
Qed.

(** One callback of the exit check, seen from what it keeps or records. *)
Lemma manual_checkPosition_detail currentTokens stillOpen toClose st pos :
  let res := checkPosition currentTokens (stillOpen, toClose, st) pos in
  trades res.2 = trades st /\
  ((res = (stillOpen ++ [pos], toClose, st)) \/
   exists record price,
     res.1.1 = stillOpen /\ res.1.2 = toClose ++ [record] /\
     Trade.position record = pos /\
     ((Trade.status record = "SL HIT ❌"%string /\ price <= Position.stopLoss pos) \/
      (Trade.status record = "TP HIT ✅"%string /\
       Position.stopLoss pos < price /\ Position.takeProfit pos <= price)) /\
     Trade.closePrice record = Some price /\
     Trade.closePnL record
     = Some ((price - Position.entryPrice pos) * Position.quantity pos * EUR_RATE) /\
     balance res.2
     = balance st + Position.valueEUR pos
       + (price - Position.entryPrice pos) * Position.quantity pos * EUR_RATE).
Proof.
  cbv zeta.
  destruct (find (fun t => String.eqb (Token.symbol t) (Position.symbol pos))
                 currentTokens) as [token|] eqn:Hfind.
  - destruct (manual_checkPosition_cases currentTokens stillOpen toClose st pos token Hfind)
      as [(H1 & ->) | [(H1 & H2 & ->) | (_ & _ & ->)]]; cbn [fst snd];
      (split; [reflexivity|]); try (left; reflexivity);
      right; eexists; eexists; repeat (split; [reflexivity|]);
      (split; [(left; split; [reflexivity | exact H1])
               || (right; split; [reflexivity | split; [exact H1 | exact H2]])|]);
      repeat (split; [reflexivity|]); reflexivity.
  - rewrite (manual_checkPosition_None _ _ _ _ _ Hfind). cbn [fst snd].
    split; [reflexivity | left; reflexivity].
Qed.

Lemma manual_exit_record_weaken p ps record : manual_exit_record ps record -> manual_exit_record (p :: ps) record.
Proof. intros (Hin & H). split; [right; exact Hin | exact H]. Qed.

Lemma manual_checkPositions_detail currentTokens st :
  let st' := checkPositions currentTokens st in
  positions st' `sublist_of` positions st /\
  exists closed,
    trades st' = closed ++ trades st /\
    (length (positions st') + length closed = length (positions st))%nat /\
    Forall (manual_exit_record (positions st)) closed /\
    balance st' + total Position.valueEUR (positions st')
    - total (fun t => default 0 (Trade.closePnL t)) closed
    == balance st + total Position.valueEUR (positions st).
Proof.
  cbv zeta. unfold checkPositions.
  assert (H : forall ps stillOpen toClose s,
            let res := fold_left (checkPosition currentTokens) ps (stillOpen, toClose, s) in
            trades res.2 = trades s /\
            exists kept closed,
              res.1.1 = stillOpen ++ kept /\ res.1.2 = toClose ++ closed /\
              kept `sublist_of` ps /\
              (length kept + length closed = length ps)%nat /\
              Forall (manual_exit_record ps) closed /\
              balance res.2 + total Position.valueEUR kept
              - total (fun t => default 0 (Trade.closePnL t)) closed
              == balance s + total Position.valueEUR ps).
  { induction ps as [|p ps IH]; intros stillOpen toClose s; cbv zeta.
    - cbn [fold_left fst snd]. split; [reflexivity|]. exists [], [].
      rewrite !app_nil_r. repeat split; try constructor. rewrite !total_nil. lra.
    - cbn [fold_left].
      pose proof (manual_checkPosition_detail currentTokens stillOpen toClose s p) as Hp.
      cbv zeta in Hp.
      destruct (checkPosition currentTokens (stillOpen, toClose, s) p) as [[so1 tc1] s1].
      cbn [fst snd] in Hp. destruct Hp as [Ht1 Hp].
      destruct (IH so1 tc1 s1)
        as (Ht & kept & closed & Hk & Hc & Hsub & Hlen & Hrec & Hbal).
      split; [congruence|].
      destruct Hp as [Heq | (record & price & -> & -> & Hpos & Hst & Hcp & Hpnl & Hb1)].
      + injection Heq as -> -> ->.
        exists (p :: kept), closed. rewrite Hk, <- app_assoc.
        split; [reflexivity|]. split; [exact Hc|].
        split; [apply sublist_skip; exact Hsub|]. split; [cbn [length]; lia|].
        split; [eapply Forall_impl; [exact Hrec | apply manual_exit_record_weaken]|].
        rewrite !total_cons. lra.
      + exists kept, (record :: closed). rewrite Hc, <- app_assoc.
        split; [exact Hk|]. split; [reflexivity|].
        split; [apply sublist_cons; exact Hsub|]. split; [cbn [length]; lia|].
        split.
        * constructor.
          -- split; [left; symmetry; exact Hpos|].
             exists price. rewrite Hpos. split; [exact Hst|]. split; assumption.
          -- eapply Forall_impl; [exact Hrec | apply manual_exit_record_weaken].
        * rewrite !total_cons, Hpnl. cbn [default from_option id].
          rewrite Hb1 in Hbal. lra. }
  specialize (H (positions st) [] [] st). cbv zeta in H.
  destruct (fold_left _ _ _) as [[stillOpen toClose] st'].
  cbn [fst snd app] in H.
  destruct H as (Ht & kept & closed & -> & -> & Hsub & Hlen & Hrec & Hbal).
  assert (Htrades :
    trades (if (0 <? length closed)%nat then setTrades (fun t => closed ++ t) st' else st')
    = closed ++ trades st).
  { destruct closed as [|c closed]; cbn [length Nat.ltb Nat.leb app trades setTrades];
      congruence. }
  destruct (0 <? length closed)%nat;
    cbn [positions trades balance setPositions setTrades] in *;
    (split; [exact Hsub|]); exists closed;
    (split; [exact Htrades|]); (split; [exact Hlen|]); (split; [exact Hrec | exact Hbal]).
Qed.

(** X17.  One pass of the manual exit check accounts for every open
    position exactly once: the positions it keeps are kept as they are and in
    order, and for each one it removes it puts exactly one terminal record
    (a stop-loss hit at a price at or below the stop-loss, or a take-profit
    hit at a price above the stop-loss and at or above the take-profit, with
    that close price and its P&L) in front of the untouched earlier
    history. *)
Theorem X17_manual_exit_check (currentTokens : list Token.t) (st : State) :
  let st' := checkPositions currentTokens st in
  positions st' `sublist_of` positions st /\
  exists closed,
    trades st' = closed ++ trades st /\
    (length (positions st') + length closed = length (positions st))%nat /\
    Forall (manual_exit_record (positions st)) closed.
Proof.
  cbv zeta.
  destruct (manual_checkPositions_detail currentTokens st)
    as (Hsub & closed & Htr & Hlen & Hrec & _).
  split; [exact Hsub|]. exists closed. repeat split; assumption.
Qed.

Lemma find_filter_none (posId : Z) (ps : list Position.t) :
  find (fun p => Z.eqb (Position.id p) posId)
       (List.filter (fun p => negb (Z.eqb (Position.id p) posId)) ps) = None.
Proof.
  induction ps as [|p ps IH]; [reflexivity|]. cbn [List.filter].
  destruct (Z.eqb (Position.id p) posId) eqn:E; cbn [negb]; [exact IH|].
  cbn [find]. rewrite E. exact IH.
Qed.

Lemma filter_find_none (posId : Z) (ps : list Position.t) :
  find (fun p => Z.eqb (Position.id p) posId) ps = None ->
  List.filter (fun p => negb (Z.eqb (Position.id p) posId)) ps = ps.
Proof.
  induction ps as [|p ps IH]; [reflexivity|]. cbn [find List.filter].
  destruct (Z.eqb (Position.id p) posId); [discriminate|].
  intros H. cbn [negb]. rewrite IH by exact H. reflexivity.
Qed.

(** X18.  Closing by hand: whatever the identifier, the positions left are
    exactly those with another identifier, in order; an identifier that no
    open position carries changes nothing; and closing the same identifier
    again changes nothing more. *)
Theorem X18_closePosition (r : State) (posId : Z) (st : State) :
  positions (closePosition r posId st)
  = List.filter (fun p => negb (Z.eqb (Position.id p) posId)) (positions st) /\
  (posId ∉ map Position.id (positions st) -> closePosition r posId st = st) /\
  (posId ∉ map Position.id (positions (closePosition r posId st))) /\
  closePosition r posId (closePosition r posId st) = closePosition r posId st.
Proof.
  assert (Hpos : positions (closePosition r posId st)
                 = List.filter (fun p => negb (Z.eqb (Position.id p) posId))
                               (positions st)).
  { unfold closePosition.
    destruct (find _ (positions st)) as [pos|] eqn:Hfind; [reflexivity|].
    symmetry. apply filter_find_none. exact Hfind. }
  split; [exact Hpos|]. split; [|split].
  - intros Hnot. unfold closePosition.
    destruct (find _ (positions st)) as [pos|] eqn:Hfind; [|reflexivity].
    exfalso. apply Hnot. apply find_some in Hfind. destruct Hfind as [Hin Heq].
    apply Z.eqb_eq in Heq. rewrite <- Heq.
    apply list_elem_of_fmap_2. apply list_elem_of_In. exact Hin.
  - rewrite Hpos. intros Hin. apply list_elem_of_fmap in Hin.
    destruct Hin as (p & Hid & Hp). apply list_elem_of_In in Hp.
    apply filter_In in Hp. destruct Hp as [_ Hp].
    apply negb_true_iff, Z.eqb_neq in Hp. congruence.
  - unfold closePosition at 1. rewrite Hpos, find_filter_none. reflexivity.
Qed.

(** The sound state of the manual simulator, without any assumption on the
    quotes. *)
Lemma manual_step_records st e :
  Forall manual_record_ok (trades st) /\ Forall manual_exact (positions st) ->
  Forall manual_record_ok (trades (step st e)) /\
  Forall manual_exact (positions (step st e)).
Proof.
  intros [Hrec Hex]. destruct e as [[data|] now | symbol now | posId | [|]]; cbn [step].
  - unfold fetchPrices.
    match goal with
    | |- context [checkPositions ?ts ?s] =>
        destruct (manual_checkPositions_detail ts s)
          as (Hsub & closed & -> & _ & Hcl & _)
    end.
    cbn [positions trades setLoading setLastUpdate setTokens] in *.
    split; [|eapply Forall_sublist_of; [exact Hsub | exact Hex]].
    apply Forall_app. split; [|exact Hrec].
    eapply Forall_impl; [exact Hcl|].
    intros t (_ & price & Hst & Hcp & Hpnl). right.
    split; [destruct Hst as [[-> _]| [-> _]]; [left | right; left]; reflexivity|].
    eexists. eexists. split; [exact Hcp|]. split; [exact Hpnl | reflexivity].
  - split; assumption.
  - unfold marketButton_onClick. destruct (negb _); [|split; assumption].
    destruct (executeTrade_opens st symbol now st)
      as [-> | (token & _ & Hnz & _ & ->)]; [split; assumption|].
    cbn [positions trades setTrades setPositions setBalance]. split.
    + constructor; [|exact Hrec]. left. repeat split.
    + apply Forall_app. split; [exact Hex|]. constructor; [|constructor].
      unfold manual_exact.
      cbn [Position.entryPrice Position.quantity Position.valueEUR].
      unfold EUR_RATE. field. exact Hnz.
  - destruct (find (fun p => Z.eqb (Position.id p) posId) (positions st))
      as [pos|] eqn:Hfind.
    + rewrite (manual_closePosition_found st posId st pos Hfind).
      cbn [positions trades setTrades setPositions setBalance]. split.
      * constructor; [|exact Hrec]. right.
        split; [right; right; reflexivity|].
        eexists. eexists. repeat split.
      * eapply Forall_sublist_of; [apply filter_sublist | exact Hex].
    + unfold closePosition. rewrite Hfind. split; assumption.
  - split; constructor.
  - split; assumption.
Qed.

Lemma manual_run_records es :
  Forall manual_record_ok (trades (run es init)) /\
  Forall manual_exact (positions (run es init)).
Proof.
  apply (manual_run_ind
           (fun st => Forall manual_record_ok (trades st) /\
                      Forall manual_exact (positions st))
           (fun _ => True)).
  - intros st e _. apply manual_step_records.
  - apply Forall_forall. intros; exact I.
  - split; constructor.
Qed.

(** X19.  In every state the manual simulator reaches, every record of the
    history is either an OPEN marker without close price and P&L, or a
    terminal record (stop-loss hit, take-profit hit, or closed by hand) that
    carries both, its P&L being
    [(closePrice - entryPrice) * quantity * rate]. *)
Theorem X19_manual_records (es : list Event) (t : Trade.t) :
  In t (trades (run es init)) -> manual_record_ok t.
Proof.
  intros Hin. destruct (manual_run_records es) as [Hrec _].
  rewrite Forall_forall in Hrec. apply Hrec, list_elem_of_In, Hin.
Qed.

Lemma X19_manual_records_witness :
  manual_record_ok
    (Trade.mk (Position.mk 2 "SOL" 100 (min 100 (1000 * (1 # 10)) / EUR_RATE / 100)
                 (min 100 (1000 * (1 # 10))) (100 * (1 - STOP_LOSS))
                 (100 * (1 + TAKE_PROFIT)) 2)
              "OPEN" None None).
Proof.
  apply (X19_manual_records Scenario.manual_buy).
  vm_compute. left. reflexivity.
Defined.

(** X20.  The trade history only grows at the front: every handler call
    of the bot other than a reset, whatever render it belongs to, and every
    event of the manual simulator other than a reset, leaves the earlier
    records of the history as they are and in place. *)
Theorem X20_history_append_only :
  (forall st c,
     auto_is_reset c = false ->
     exists new, Auto.trades (Auto.call st c) = new ++ Auto.trades st) /\
  (forall st e,
     manual_is_reset e = false ->
     exists new, trades (step st e) = new ++ trades st).
Proof.
  split.
  - intros st c Hc. destruct c as [r [data|] now | r now | now]; cbn [Auto.call].
    + unfold Auto.fetchPrices. destruct (fold_left _ _ _) as [updatedTokens h].
      destruct (Auto.isRunning r); [|exists []; reflexivity].
      match goal with
      | |- context [Auto.checkPositions ?ts ?n ?s] =>
          destruct (checkPositions_kept_or_closed ts n s)
            as (_ & _ & _ & closed & Htr & _)
      end.
      match type of Htr with
      | context [Auto.processSignals ?r0 ?ts ?n ?s] =>
          destruct (processSignals_frame r0 ts n s) as (_ & _ & _ & _ & Ht)
      end.
      exists closed. rewrite Htr, Ht. reflexivity.
    + exists []. reflexivity.
    + exists []. reflexivity.
    + discriminate Hc.
  - intros st e He. destruct e as [[data|] now | symbol now | posId | [|]]; cbn [step].
    + unfold fetchPrices.
      match goal with
      | |- context [checkPositions ?ts ?s] =>
          destruct (manual_checkPositions_detail ts s) as (_ & closed & Htr & _)
      end.
      exists closed. exact Htr.
    + exists []. reflexivity.
    + unfold marketButton_onClick. destruct (negb _); [|exists []; reflexivity].
      destruct (executeTrade_opens st symbol now st) as [-> | (token & _ & _ & _ & ->)];
        [exists []; reflexivity|].
      eexists [_]. reflexivity.
    + unfold closePosition.
      destruct (find _ (positions st)) as [pos|]; [|exists []; reflexivity].
      eexists [_]. reflexivity.
    + discriminate He.
    + exists []. reflexivity.
Qed.

Lemma X20_history_append_only_witness :
  exists new,
    trades (step (run Scenario.manual_buy init) (Tick (Some ∅) 3))
    = new ++ trades (run Scenario.manual_buy init).
Proof.
  apply (proj2 X20_history_append_only). reflexivity.
Defined.

Lemma find_id_none (posId : Z) (ps : list Position.t) :
  posId ∉ map Position.id ps ->
  find (fun p => Z.eqb (Position.id p) posId) ps = None.
Proof.
  induction ps as [|p ps IH]; intros Hnot; [reflexivity|].
  cbn [map] in Hnot. apply not_elem_of_cons in Hnot. destruct Hnot as [Hne Hnot].
  cbn [find]. destruct (Z.eqb_spec (Position.id p) posId) as [Heq|_]; [congruence|].
  apply IH. exact Hnot.
Qed.

(** Removing the one position that carries an identifier. *)
Lemma total_filter_unique (posId : Z) (ps : list Position.t) (pos : Position.t) :
  NoDup (map Position.id ps) ->
  find (fun p => Z.eqb (Position.id p) posId) ps = Some pos ->
  total Position.valueEUR
        (List.filter (fun p => negb (Z.eqb (Position.id p) posId)) ps)
  == total Position.valueEUR ps - Position.valueEUR pos.
Proof.
  induction ps as [|p ps IH]; intros Hnd Hfind; [discriminate|].
  cbn [map] in Hnd. apply NoDup_cons in Hnd. destruct Hnd as [Hnot Hnd].
  cbn [find List.filter] in *.
  destruct (Z.eqb (Position.id p) posId) eqn:E.
  - injection Hfind as <-. cbn [negb]. apply Z.eqb_eq in E.
    rewrite filter_find_none, total_cons; [lra|].
    apply find_id_none. rewrite <- E. exact Hnot.
  - cbn [negb]. rewrite !total_cons, IH by assumption. lra.
Qed.

Lemma manual_account_step st e :
  NoDup (map Position.id (positions st)) ->
  (forall s now, e = ClickToken s now -> now ∉ map Position.id (positions st)) ->
  balance st + total Position.valueEUR (positions st)
  == INITIAL_BALANCE + total (fun t => default 0 (Trade.closePnL t)) (trades st) ->
  let st' := step st e in
  NoDup (map Position.id (positions st')) /\
  (forall i, i ∈ map Position.id (positions st') ->
             i ∈ map Position.id (positions st) \/
             exists s, e = ClickToken s i) /\
  balance st' + total Position.valueEUR (positions st')
  == INITIAL_BALANCE + total (fun t => default 0 (Trade.closePnL t)) (trades st').
Proof.
  intros Hnd Hfresh Hacc. cbv zeta.
  destruct e as [[data|] now | symbol now | posId | [|]]; cbn [step].
  - unfold fetchPrices.
    match goal with
    | |- context [checkPositions ?ts ?s] =>
        destruct (manual_checkPositions_detail ts s)
          as (Hsub & closed & Htr & _ & _ & Hbal);
        set (st' := checkPositions ts s) in *
    end.
    cbn [positions trades balance setLoading setLastUpdate setTokens] in Hsub, Htr, Hbal.
    split; [|split].
    + eapply sublist_NoDup; [exact Hnd | apply map_sublist; exact Hsub].
    + intros i Hi. left. eapply elem_of_sublist; [exact Hi | apply map_sublist; exact Hsub].
    + rewrite Htr, total_app. lra.
  - repeat split; [exact Hnd | intros i Hi; left; exact Hi | exact Hacc].
  - unfold marketButton_onClick.
    destruct (negb _); [|repeat split; [exact Hnd | intros i Hi; left; exact Hi | exact Hacc]].
    destruct (executeTrade_opens st symbol now st) as [-> | (token & _ & _ & _ & ->)];
      [repeat split; [exact Hnd | intros i Hi; left; exact Hi | exact Hacc]|].
    cbn [positions trades balance setTrades setPositions setBalance].
    split; [|split].
    + rewrite map_app. cbn [map Position.id]. apply NoDup_app.
      split; [exact Hnd|]. split; [|apply NoDup_singleton].
      intros i Hi Hi'. apply list_elem_of_singleton in Hi'. subst i.
      exact (Hfresh symbol now eq_refl Hi).
    + intros i Hi. rewrite map_app in Hi. apply elem_of_app in Hi.
      destruct Hi as [Hi|Hi]; [left; exact Hi|].
      right. cbn [map Position.id] in Hi. apply list_elem_of_singleton in Hi.
      subst i. exists symbol. reflexivity.
    + rewrite total_app, !total_cons, total_nil.
      cbn [Position.valueEUR Trade.closePnL default from_option id]. lra.
  - destruct (find (fun p => Z.eqb (Position.id p) posId) (positions st))
      as [pos|] eqn:Hfind.
    + rewrite (manual_closePosition_found st posId st pos Hfind).
      cbn [positions trades balance setTrades setPositions setBalance].
      split; [|split].
      * eapply sublist_NoDup; [exact Hnd | apply map_sublist, filter_sublist].
      * intros i Hi. left.
        eapply elem_of_sublist; [exact Hi | apply map_sublist, filter_sublist].
      * rewrite (total_filter_unique posId _ pos Hnd Hfind), total_cons.
        cbn [Trade.closePnL default from_option id]. lra.
    + unfold closePosition. rewrite Hfind.
      repeat split; [exact Hnd | intros i Hi; left; exact Hi | exact Hacc].
  - cbn [positions trades balance setTrades setPositions setBalance map].
    split; [constructor|]. split; [intros i Hi; inversion Hi | reflexivity].
  - repeat split; [exact Hnd | intros i Hi; left; exact Hi | exact Hacc].
Qed.

Lemma manual_account_run (es : list Event) :
  forall st,
    NoDup (manual_click_times es) ->
    NoDup (map Position.id (positions st)) ->
    (forall i, i ∈ map Position.id (positions st) -> i ∉ manual_click_times es) ->
    balance st + total Position.valueEUR (positions st)
    == INITIAL_BALANCE + total (fun t => default 0 (Trade.closePnL t)) (trades st) ->
    balance (run es st) + total Position.valueEUR (positions (run es st))
    == INITIAL_BALANCE
       + total (fun t => default 0 (Trade.closePnL t)) (trades (run es st)).
Proof.
  induction es as [|e es IH]; intros st Hclicks Hnd Hdisj Hacc; [exact Hacc|].
  cbn [run fold_left]. fold (run es (step st e)).
  assert (Htail : NoDup (manual_click_times es) /\
                  (forall s now, e = ClickToken s now -> now ∉ manual_click_times es) /\
                  (forall i, i ∈ manual_click_times es ->
                             i ∈ manual_click_times (e :: es))).
  { unfold manual_click_times in *. destruct e; cbn [omap] in *;
      try (split; [exact Hclicks|]; split; [discriminate | intros i Hi; exact Hi]).
    apply NoDup_cons in Hclicks. destruct Hclicks as [Hn Hc].
    split; [exact Hc|]. split.
    - intros s n Heq. injection Heq as _ <-. exact Hn.
    - intros i Hi. apply list_elem_of_further. exact Hi. }
  destruct Htail as (Hclicks' & Hnow & Hmono).
  destruct (manual_account_step st e Hnd) as (Hnd' & Hids & Hacc'); [|exact Hacc|].
  { intros s now Heq. intros Hin. apply (Hdisj now Hin).
    unfold manual_click_times. rewrite Heq. cbn [omap]. apply list_elem_of_here. }
  apply IH; [exact Hclicks' | exact Hnd' | | exact Hacc'].
  intros i Hi Hi'. destruct (Hids i Hi) as [Hold | (s & Heq)].
  - apply (Hdisj i Hold). apply Hmono. exact Hi'.
  - exact (Hnow s i Heq Hi').
Qed.

Lemma total_plus {A : Type} (f g : A -> Q) (l : list A) :
  total (fun x => f x + g x) l == total f l + total g l.
Proof.
  induction l as [|x l IH]; [reflexivity|]. rewrite !total_cons, IH. lra.
Qed.

(** X21.  The manual account balances along every run in which no two
    presses of a market button share a clock reading (so that no two positions
    share an identifier): cash plus the value allocated to the open positions
    equals the initial 1000 plus the P&L of the closes recorded in the
    history; and the total P&L the component shows is the realized P&L plus
    the unrealized P&L of the open positions at the prices they are valued
    at. *)
Theorem X21_manual_account (es : list Event) :
  NoDup (manual_click_times es) ->
  let st := run es init in
  balance st + manual_allocated st == INITIAL_BALANCE + manual_realized st /\
  ManualStats.totalPnL st
  == manual_realized st + total (manual_unrealized st) (positions st).
Proof.
  intros Hclicks st.
  assert (Hacc : balance st + manual_allocated st
                 == INITIAL_BALANCE + manual_realized st).
  { apply (manual_account_run es init Hclicks).
    - constructor.
    - intros i Hi. inversion Hi.
    - reflexivity. }
  split; [exact Hacc|].
  unfold ManualStats.totalPnL, ManualStats.totalValue, ManualStats.positionsValue.
  fold (total (fun pos => ManualStats.currentPrice st pos * Position.quantity pos * EUR_RATE)
              (positions st)).
  assert (Hval : total (fun pos => ManualStats.currentPrice st pos
                                   * Position.quantity pos * EUR_RATE) (positions st)
                 == manual_allocated st + total (manual_unrealized st) (positions st)).
  { unfold manual_allocated. rewrite <- total_plus. apply total_ext.
    destruct (manual_run_records es) as [_ Hex]. fold st in Hex.
    eapply Forall_impl; [exact Hex|]. intros p Hp.
    unfold manual_exact in Hp. unfold manual_unrealized. rewrite <- Hp. ring. }
  rewrite Hval. lra.
Qed.

Lemma X21_manual_account_witness :
  let st := run Scenario.manual_buy init in
  balance st + manual_allocated st == INITIAL_BALANCE + manual_realized st.
Proof.
  apply (X21_manual_account Scenario.manual_buy).
  vm_compute. repeat constructor. intros H. inversion H.
Defined.

Lemma manual_step_outcomes st e :
  Inv.manual_event_ok e ->
  Inv.manual_ledger_ok st /\ Forall manual_pos_sound (positions st) /\
  Forall manual_record_outcome (trades st) ->
  Inv.manual_ledger_ok (step st e) /\ Forall manual_pos_sound (positions (step st e)) /\
  Forall manual_record_outcome (trades (step st e)).
Proof.
  intros Hok (Hled & Hs & Ho).
  split; [apply manual_step_ledger; assumption|].
  destruct e as [[data|] now | symbol now | posId | [|]]; cbn [step].
  - unfold fetchPrices.
    match goal with
    | |- context [checkPositions ?ts ?s] =>
        destruct (manual_checkPositions_detail ts s)
          as (Hsub & closed & -> & _ & Hcl & _)
    end.
    cbn [positions trades setLoading setLastUpdate setTokens] in *.
    split; [eapply Forall_sublist_of; [exact Hsub | exact Hs]|].
    apply Forall_app. split; [|exact Ho].
    apply Forall_forall. intros t Ht. rewrite Forall_forall in Hcl.
    destruct (Hcl t Ht) as (Hin & price & Hst & _ & Hpnl).
    rewrite Forall_forall in Hs.
    destruct (Hs _ (proj2 (list_elem_of_In _ _) Hin)) as (He & Hq & Hsl & Htp).
    unfold STOP_LOSS in Hsl. unfold TAKE_PROFIT in Htp. unfold EUR_RATE in Hpnl.
    intros pnl Hp. rewrite Hpnl in Hp. injection Hp as <-.
    destruct Hst as [[-> Hprice] | [-> [_ Hprice]]].
    + rewrite Hsl in Hprice. split; [intros _; nra | discriminate].
    + rewrite Htp in Hprice. split; [discriminate | intros _; nra].
  - split; assumption.
  - unfold marketButton_onClick. destruct (negb _); [|split; assumption].
    destruct (executeTrade_opens st symbol now st)
      as [-> | (token & Hin & Hnz & Hsz & ->)]; [split; assumption|].
    cbn [positions trades setTrades setPositions setBalance]. split.
    + apply Forall_app. split; [exact Hs|]. constructor; [|constructor].
      destruct Hled as (_ & _ & Htok). rewrite Forall_forall in Htok.
      specialize (Htok token (proj2 (list_elem_of_In _ _) Hin)).
      assert (Hprice : 0 < Token.price token).
      { destruct (Qlt_le_dec 0 (Token.price token)) as [?|?]; [assumption|].
        exfalso. apply Hnz. lra. }
      unfold manual_pos_sound.
      cbn [Position.entryPrice Position.quantity Position.stopLoss Position.takeProfit].
      split; [exact Hprice|]. split; [|split; reflexivity].
      apply Qlt_shift_div_l; [exact Hprice|].
      assert (0 < min 100 (balance st * (1 # 10)) / EUR_RATE)
        by (apply Qlt_shift_div_l; [reflexivity | lra]).
      lra.
    + constructor; [|exact Ho]. intros pnl Hp. discriminate Hp.
  - unfold closePosition.
    destruct (find _ (positions st)) as [pos|]; [|split; assumption].
    cbn [positions trades setTrades setPositions setBalance]. split.
    + eapply Forall_sublist_of; [apply filter_sublist | exact Hs].
    + constructor; [|exact Ho]. intros pnl _. split; discriminate.
  - split; constructor.
  - split; assumption.
Qed.

(** X22.  While the provider quotes no negative price, every stop-loss hit
    recorded by the manual simulator is a loss and every take-profit hit is a
    gain. *)
Theorem X22_manual_hits (es : list Event) (t : Trade.t) (pnl : Q) :
  Forall Inv.manual_event_ok es ->
  In t (trades (run es init)) ->
  Trade.closePnL t = Some pnl ->
  (Trade.status t = "SL HIT ❌"%string -> pnl < 0) /\
  (Trade.status t = "TP HIT ✅"%string -> 0 < pnl).
Proof.
  intros Hok Hin.
  assert (H : Inv.manual_ledger_ok (run es init) /\
              Forall manual_pos_sound (positions (run es init)) /\
              Forall manual_record_outcome (trades (run es init))).
  { apply (manual_run_ind
             (fun st => Inv.manual_ledger_ok st /\ Forall manual_pos_sound (positions st) /\
                        Forall manual_record_outcome (trades st))
             Inv.manual_event_ok); [|exact Hok|].
    - intros st e. apply manual_step_outcomes.
    - split; [|split; constructor].
      split; [vm_compute; discriminate|]. split; constructor. }
  destruct H as (_ & _ & Ho). rewrite Forall_forall in Ho.
  apply (Ho t (proj2 (list_elem_of_In _ _) Hin)).
Qed.

Lemma X22_manual_hits_witness :
  (90 - 100) * (min 100 (1000 * (1 # 10)) / EUR_RATE / 100) * EUR_RATE < 0.
Proof.
  apply (X22_manual_hits
           (Scenario.manual_buy ++ [Tick (Some (Scenario.manual_sol 90 0)) 3])
           (Trade.mk (Position.mk 2 "SOL" 100 (min 100 (1000 * (1 # 10)) / EUR_RATE / 100)
                        (min 100 (1000 * (1 # 10))) (100 * (1 - STOP_LOSS))
                        (100 * (1 + TAKE_PROFIT)) 2)
                     "SL HIT ❌" (Some 90)
                     (Some ((90 - 100) * (min 100 (1000 * (1 # 10)) / EUR_RATE / 100)
                            * EUR_RATE)))).
  - unfold Scenario.manual_buy. cbn [app]. repeat constructor.
  - vm_compute. left. reflexivity.
  - reflexivity.
  - reflexivity.
Defined.

End ManualAccount.

(** ** Resetting the bot *)

Section AutoReset.

Import Num Auto Acct.

Lemma updateTokens_same r r' data (cfgs : list TokenConfig.t) :
  forall out out' h,
    Forall2 auto_same_quote out out' ->
    Forall2 auto_same_quote
            (fold_left (updateToken r data) cfgs (out, h)).1
            (fold_left (updateToken r' data) cfgs (out', h)).1 /\
    (fold_left (updateToken r data) cfgs (out, h)).2
    = (fold_left (updateToken r' data) cfgs (out', h)).2.
Proof.
  induction cfgs as [|c cs IH]; intros out out' h Hout; [split; [exact Hout | reflexivity]|].
  cbn [fold_left]. unfold updateToken at 2 4. apply IH.
  apply Forall2_app; [exact Hout|]. constructor; [|constructor]. repeat split.
Qed.

Lemma processSignal_same r r' now st st' t t' :
  auto_same_view r r' -> auto_same_ledger st st' -> auto_same_quote t t' ->
  auto_same_ledger (processSignal r now st t) (processSignal r' now st' t').
Proof.
  intros (_ & Hb & Hp) (Hb' & Hp' & Ht' & Hh' & Hr') (Hsym & _ & Hprice & _ & _ & Hsig).
  unfold processSignal. rewrite Hb, Hp, Hsym, Hprice, Hsig.
  destruct (_ && _); [|repeat split; assumption].
  destruct (_ && _); [|repeat split; assumption].
  unfold openPosition. rewrite Hb, Hsym, Hprice.
  destruct (Qlt_bool _ 20); [repeat split; assumption|].
  unfold auto_same_ledger, addLog.
  cbn [balance positions trades priceHistory isRunning setLogs setBalance setPositions].
  rewrite Hb', Hp'. repeat split; assumption.
Qed.

Lemma processSignals_same r r' now (ts ts' : list Token.t) :
  auto_same_view r r' -> Forall2 auto_same_quote ts ts' ->
  forall st st', auto_same_ledger st st' ->
    auto_same_ledger (processSignals r ts now st) (processSignals r' ts' now st').
Proof.
  intros Hr Hts. unfold processSignals.
  induction Hts as [|t t' ts ts' Ht _ IH]; intros st st' Hst; [exact Hst|].
  cbn [fold_left]. apply IH. apply processSignal_same; assumption.
Qed.

Lemma find_same (symbol : string) (ts ts' : list Token.t) :
  Forall2 auto_same_quote ts ts' ->
  match find (fun t => String.eqb (Token.symbol t) symbol) ts,
        find (fun t => String.eqb (Token.symbol t) symbol) ts' with
  | Some t, Some t' => auto_same_quote t t'
  | None, None => True
  | _, _ => False
  end.
Proof.
  induction 1 as [|t t' ts ts' Ht _ IH]; [exact I|].
  cbn [find]. destruct Ht as (Hsym & Hrest). rewrite <- Hsym.
  destruct (String.eqb (Token.symbol t) symbol); [|exact IH].
  split; assumption.
Qed.

Lemma closeTrade_same pos exitPrice reason now st st' :
  auto_same_ledger st st' ->
  auto_same_ledger (closeTrade pos exitPrice reason now st)
                   (closeTrade pos exitPrice reason now st').
Proof.
  intros (Hb & Hp & Ht & Hh & Hr). unfold auto_same_ledger, closeTrade, addLog.
  cbn [balance positions trades priceHistory isRunning setLogs setBalance setTrades].
  rewrite Hb, Ht. repeat split; assumption.
Qed.

Lemma checkPosition_same (ts ts' : list Token.t) now stillOpen st st' pos :
  Forall2 auto_same_quote ts ts' -> auto_same_ledger st st' ->
  (checkPosition ts now (stillOpen, st) pos).1
  = (checkPosition ts' now (stillOpen, st') pos).1 /\
  auto_same_ledger (checkPosition ts now (stillOpen, st) pos).2
                   (checkPosition ts' now (stillOpen, st') pos).2.
Proof.
  intros Hts Hst. pose proof (find_same (Position.symbol pos) ts ts' Hts) as Hfind.
  unfold checkPosition.
  destruct (find _ ts) as [t|]; destruct (find _ ts') as [t'|]; try contradiction.
  - destruct Hfind as (_ & _ & Hprice & _ & _ & Hsig). rewrite Hprice, Hsig.
    destruct (Qle_bool _ _); [split; [reflexivity | apply closeTrade_same, Hst]|].
    destruct (Qle_bool _ _); [split; [reflexivity | apply closeTrade_same, Hst]|].
    destruct (_ && _); [split; [reflexivity | apply closeTrade_same, Hst]|].
    split; [reflexivity | exact Hst].
  - split; [reflexivity | exact Hst].
Qed.

Lemma checkPositions_same (ts ts' : list Token.t) now st st' :
  Forall2 auto_same_quote ts ts' -> auto_same_ledger st st' ->
  auto_same_ledger (checkPositions ts now st) (checkPositions ts' now st').
Proof.
  intros Hts Hst. unfold checkPositions.
  assert (H : forall ps stillOpen s s', auto_same_ledger s s' ->
            (fold_left (checkPosition ts now) ps (stillOpen, s)).1
            = (fold_left (checkPosition ts' now) ps (stillOpen, s')).1 /\
            auto_same_ledger (fold_left (checkPosition ts now) ps (stillOpen, s)).2
                             (fold_left (checkPosition ts' now) ps (stillOpen, s')).2).
  { induction ps as [|p ps IH]; intros stillOpen s s' Hs;
      [split; [reflexivity | exact Hs]|].
    cbn [fold_left].
    destruct (checkPosition_same ts ts' now stillOpen s s' p Hts Hs) as [H1 H2].
    destruct (checkPosition ts now (stillOpen, s) p) as [so1 s1].
    destruct (checkPosition ts' now (stillOpen, s') p) as [so1' s1'].
    cbn [fst snd] in H1, H2. subst so1'. apply IH. exact H2. }
  destruct Hst as (Hb & Hp & Ht & Hh & Hr).
  specialize (H (positions st) [] st st' (conj Hb (conj Hp (conj Ht (conj Hh Hr))))).
  rewrite <- Hp.
  destruct (fold_left (checkPosition ts now) _ _) as [so s1].
  destruct (fold_left (checkPosition ts' now) _ _) as [so' s1'].
  cbn [fst snd] in H. destruct H as [-> (Hb1 & _ & Ht1 & Hh1 & Hr1)].
  unfold auto_same_ledger.
  cbn [balance positions trades priceHistory isRunning setPositions].
  repeat split; assumption.
Qed.

Lemma call_same st st' c c' :
  auto_same_call c c' ->
  auto_same_ledger st st' -> auto_same_ledger (call st c) (call st' c').
Proof.
  intros Hc Hst. pose proof Hst as (Hb & Hp & Ht & Hh & Hr).
  destruct c as [r [data|] now | r now | now];
    destruct c' as [r' resp' now' | r' now' | now']; try contradiction;
    cbn [auto_same_call] in Hc; cbn [call].
  - destruct Hc as (Hview & <- & <-). pose proof Hview as (Hrun & _).
    unfold fetchPrices. rewrite Hh, Hrun.
    destruct (updateTokens_same r r' data TOKENS_CONFIG [] [] (priceHistory st')
                ltac:(constructor)) as [Hts Hhist].
    destruct (fold_left (updateToken r data) _ _) as [ts h].
    destruct (fold_left (updateToken r' data) _ _) as [ts' h'].
    cbn [fst snd] in Hts, Hhist. subst h'.
    assert (H1 : auto_same_ledger
                   (setLastUpdate (Some now)
                      (setTokens (fun _ => ts) (setPriceHistory h st)))
                   (setLastUpdate (Some now)
                      (setTokens (fun _ => ts') (setPriceHistory h st'))))
      by (repeat split; assumption).
    destruct (isRunning r'); [|exact H1].
    apply checkPositions_same; [exact Hts|].
    apply processSignals_same; assumption.
  - destruct Hc as (_ & <- & <-). repeat split; assumption.
  - unfold auto_same_ledger, toggleBot, addLog.
    cbn [balance positions trades priceHistory isRunning setLogs setIsRunning].
    rewrite Hc. repeat split; assumption.
  - repeat split.
Qed.

Lemma calls_same cs cs' :
  Forall2 auto_same_call cs cs' ->
  forall st st', auto_same_ledger st st' -> auto_same_ledger (calls cs st) (calls cs' st').
Proof.
  induction 1 as [|c c' cs cs' Hc _ IH]; intros st st' Hst; [exact Hst|].
  cbn [calls fold_left]. apply IH, call_same; assumption.
Qed.

(** X23.  A reset gives the bot its initial behaviour back: whatever was
    called before the reset, the same handler calls after it, by closures
    whose renders show the same running flag, balance and open set, lead to the
    balance, the open positions, the trade history, the price histories and
    the running flag that they lead to from the initial state. *)
Theorem X23_reset_restarts (before after after' : list Call) (now : Z) :
  Forall2 auto_same_call after after' ->
  auto_same_ledger (calls (before ++ CallReset now :: after) init) (calls after' init).
Proof.
  intros Hsame. unfold calls. rewrite fold_left_app. cbn [fold_left].
  apply calls_same; [exact Hsame|].
  cbn [call]. repeat split.
Qed.

(** X23 after the fifteen ticks in which SOL was bought: two further
    answers lead to the ledger they lead to from the initial state. *)
Lemma X23_reset_restarts_witness :
  let after :=
    [CallFetch init (Some (Scenario.auto_sol 100 (-5))) 21;
     CallFetch init (Some (Scenario.auto_sol 99 (-5))) 22] in
  auto_same_ledger (calls (Scenario.auto_dip ++ CallReset 20 :: after) init)
                   (calls after init).
Proof.
  intros after. apply (X23_reset_restarts Scenario.auto_dip after after 20%Z).
  repeat constructor.
Defined.

End AutoReset.

(** ** The indicator under a change of unit *)

Section RSIScale.

Import Num Auto.

Lemma at_index_scale (c : Q) (prices : list Q) (i : nat) :
  (i < length prices)%nat ->
  at_index (map (Qmult c) prices) i = c * at_index prices i.
Proof.
  intros Hi. unfold at_index.
  rewrite (nth_indep _ 0 (c * 0)) by (rewrite length_map; exact Hi).
  apply map_nth.
Qed.

Lemma rsi_loop_scale (c : Q) (prices : list Q) (idx : list nat) :
  0 < c ->
  Forall (fun i => (1 <= i < length prices)%nat) idx ->
  forall g l g' l', g' == c * g -> l' == c * l ->
    fst (fold_left (rsi_loop_body (map (Qmult c) prices)) idx (g', l'))
    == c * fst (fold_left (rsi_loop_body prices) idx (g, l)) /\
    snd (fold_left (rsi_loop_body (map (Qmult c) prices)) idx (g', l'))
    == c * snd (fold_left (rsi_loop_body prices) idx (g, l)).
Proof.
  intros Hc Hidx. induction Hidx as [|i idx Hi _ IH]; intros g l g' l' Hg Hl.
  - split; assumption.
  - cbn [fold_left]. unfold rsi_loop_body at 2 4 6 8.
    rewrite !at_index_scale by lia.
    set (d := at_index prices i - at_index prices (i - 1)).
    assert (Hd : c * at_index prices i - c * at_index prices (i - 1) == c * d)
      by (unfold d; ring).
    destruct (Qlt_bool 0 d) eqn:E1;
      [apply Qlt_bool_iff in E1 | apply Qlt_bool_false in E1];
      (destruct (Qlt_bool 0 (c * at_index prices i - c * at_index prices (i - 1))) eqn:E2;
       [apply Qlt_bool_iff in E2 | apply Qlt_bool_false in E2]);
      try (exfalso; nra);
      apply IH; try assumption; rewrite ?Hg, ?Hl, ?Hd; ring.
Qed.

Lemma rsi_share_form (g l : Q) :
  0 <= g -> 0 < l ->
  100 - 100 / (1 + (g / 14) / (l / 14)) == 100 * g / (g + l).
Proof. intros Hg Hl. field. split; intros H; lra. Qed.

(** X24.  The RSI does not depend on the unit of the prices: multiplying
    every price of the history by the same positive factor leaves it
    unchanged. *)
Theorem X24_calculateRSI_scale (c : Q) (prices : list Q) :
  0 < c ->
  calculateRSI (map (Qmult c) prices) 14 == calculateRSI prices 14.
Proof.
  intros Hc.
  destruct (Nat.lt_ge_cases (length prices) 15) as [Hlen|Hlen].
  - rewrite !calculateRSI_short by (rewrite ?length_map; exact Hlen). reflexivity.
  - rewrite (calculateRSI_14 prices Hlen).
    rewrite (calculateRSI_14 (map (Qmult c) prices)) by (rewrite length_map; exact Hlen).
    cbv zeta. unfold rsi_loop. rewrite length_map.
    assert (Hidx : Forall (fun i => (1 <= i < length prices)%nat)
                          (seq (length prices - 14) 14)).
    { apply Forall_forall. intros i Hi. apply list_elem_of_In, in_seq in Hi. lia. }
    destruct (rsi_loop_scale c prices _ Hc Hidx 0 0 0 0) as [Hg Hl]; [ring | ring |].
    destruct (rsi_loop_nonneg prices (seq (length prices - 14) 14) 0 0)
      as [HG HL]; [lra | lra |].
    set (G := fst (fold_left (rsi_loop_body prices) _ (0, 0))) in *.
    set (L := snd (fold_left (rsi_loop_body prices) _ (0, 0))) in *.
    set (G' := fst (fold_left (rsi_loop_body (map (Qmult c) prices)) _ (0, 0))) in *.
    set (L' := snd (fold_left (rsi_loop_body (map (Qmult c) prices)) _ (0, 0))) in *.
    destruct (Qeq_dec L 0) as [HL0|HLn].
    + assert (E : Qeq_bool (L / 14) 0 = true)
        by (apply Qeq_bool_iff; rewrite HL0; reflexivity).
      assert (E' : Qeq_bool (L' / 14) 0 = true)
        by (apply Qeq_bool_iff; rewrite Hl, HL0; field).
      rewrite E, E'. reflexivity.
    + assert (HLpos : 0 < L) by (destruct (Qlt_le_dec 0 L); [assumption | exfalso; apply HLn; lra]).
      assert (HcL : 0 < c * L) by nra.
      assert (HcG : 0 <= c * G) by nra.
      assert (E : Qeq_bool (L / 14) 0 = false).
      { destruct (Qeq_bool (L / 14) 0) eqn:E0; [|reflexivity].
        apply Qeq_bool_iff in E0. exfalso.
        assert (L == L / 14 * 14) as HL14 by field. rewrite E0 in HL14. lra. }
      assert (E' : Qeq_bool (L' / 14) 0 = false).
      { destruct (Qeq_bool (L' / 14) 0) eqn:E0; [|reflexivity].
        apply Qeq_bool_iff in E0. exfalso. rewrite Hl in E0.
        assert (c * L == c * L / 14 * 14) as HL14 by field. rewrite E0 in HL14. lra. }
      rewrite E, E', Hg, Hl.
      rewrite (rsi_share_form (c * G) (c * L) HcG HcL), (rsi_share_form G L HG HLpos).
      field. split; intros H; nra.
Qed.

Lemma X24_calculateRSI_scale_witness :
  calculateRSI (map (Qmult (92 # 100))
                    [1; 2; 3; 4; 5; 6; 7; 8; 9; 10; 11; 12; 13; 14; 13; 15]) 14
  == calculateRSI [1; 2; 3; 4; 5; 6; 7; 8; 9; 10; 11; 12; 13; 14; 13; 15] 14.
Proof. apply X24_calculateRSI_scale. reflexivity. Defined.

End RSIScale.

(** ** The portfolio value of the manual simulator *)

Section ManualValue.

Import Num Manual Acct.

Lemma executeTrade_opens_at r symbol now st :
  executeTrade r symbol now st = st \/
  exists token,
    find (fun t => String.eqb (Token.symbol t) symbol) (tokens r) = Some token /\
    ~ Token.price token == 0 /\
    let size := min 100 (balance r * (1 # 10)) in
    let position :=
      Position.mk now symbol (Token.price token) (size / EUR_RATE / Token.price token)
        size (Token.price token * (1 - STOP_LOSS))
        (Token.price token * (1 + TAKE_PROFIT)) now in
    executeTrade r symbol now st
    = setTrades (fun t => Trade.mk position "OPEN" None None :: t)
        (setPositions (fun p => p ++ [position])
           (setBalance (fun b => b - size) st)).
Proof.
  unfold executeTrade.
  destruct (find _ (tokens r)) as [token|] eqn:Hfind; [|left; reflexivity].
  destruct (Qeq_bool (Token.price token) 0) eqn:Hz; [left; reflexivity|].
  apply Qeq_bool_neq in Hz.
  destruct (Qlt_bool (min 100 (balance r * (1 # 10))) 10); [left; reflexivity|].
  right. exists token. split; [reflexivity|]. split; [exact Hz | reflexivity].
Qed.

Lemma positionsValue_total st :
  ManualStats.positionsValue st
  = total (fun pos => ManualStats.currentPrice st pos * Position.quantity pos * EUR_RATE)
          (positions st).
Proof. reflexivity. Qed.

(** X25.  Opening a position does not change the portfolio value the
    component shows: the cash that leaves the balance is the value of the new
    position at the price it was bought at. *)
Theorem X25_open_keeps_total_value (st : State) (symbol : string) (now : Z) :
  ManualStats.totalValue (executeTrade st symbol now st) == ManualStats.totalValue st.
Proof.
  destruct (executeTrade_opens_at st symbol now st) as [-> | (token & Hfind & Hnz & Heq)];
    [reflexivity|].
  cbv zeta in Heq. rewrite Heq. unfold ManualStats.totalValue.
  match goal with
  | |- _ + ManualStats.positionsValue ?s == _ =>
      change (ManualStats.positionsValue s)
        with (total (fun pos => ManualStats.currentPrice s pos
                                * Position.quantity pos * EUR_RATE) (positions s));
      change (ManualStats.positionsValue st)
        with (total (fun pos => ManualStats.currentPrice st pos
                                * Position.quantity pos * EUR_RATE) (positions st))
  end.
  cbn [balance positions setTrades setPositions setBalance].
  rewrite total_app, total_cons, total_nil.
  match goal with
  | |- _ + (total ?f _ + _) == _ + total ?g _ => change f with g
  end.
  unfold ManualStats.currentPrice at 2.
  cbn [tokens setTrades setPositions setBalance Position.symbol Position.quantity
       Position.entryPrice].
  rewrite Hfind. cbn [fmap option_fmap option_map or_else].
  destruct (Qeq_bool (Token.price token) 0) eqn:E;
    [apply Qeq_bool_iff in E; contradiction|].
  assert (Hnew : Token.price token
                 * (min 100 (balance st * (1 # 10)) / EUR_RATE / Token.price token)
                 * EUR_RATE == min 100 (balance st * (1 # 10))).
  { unfold EUR_RATE. field. exact Hnz. }
  rewrite Hnew. lra.
Qed.

Lemma total_filter_unique_gen (f : Position.t -> Q) (posId : Z)
  (ps : list Position.t) (pos : Position.t) :
  NoDup (map Position.id ps) ->
  find (fun p => Z.eqb (Position.id p) posId) ps = Some pos ->
  total f (List.filter (fun p => negb (Z.eqb (Position.id p) posId)) ps)
  == total f ps - f pos.
Proof.
  induction ps as [|p ps IH]; intros Hnd Hfind; [discriminate|].
  cbn [map] in Hnd. apply NoDup_cons in Hnd. destruct Hnd as [Hnot Hnd].
  cbn [find List.filter] in *.
  destruct (Z.eqb (Position.id p) posId) eqn:E.
  - injection Hfind as <-. cbn [negb]. apply Z.eqb_eq in E.
    rewrite filter_find_none, total_cons; [lra|].
    apply find_id_none. rewrite <- E. exact Hnot.
  - cbn [negb]. rewrite !total_cons, IH by assumption. lra.
Qed.

(** X26.  Closing a position by hand does not change the portfolio value
    either, when the position is the only one with its identifier and is
    worth its allocated value at its entry price (as every position the
    simulator opens is): the credit is the value the position was shown
    at. *)
Theorem X26_close_keeps_total_value (st : State) (posId : Z) (pos : Position.t) :
  NoDup (map Position.id (positions st)) ->
  find (fun p => Z.eqb (Position.id p) posId) (positions st) = Some pos ->
  manual_exact pos ->
  ManualStats.totalValue (closePosition st posId st) == ManualStats.totalValue st.
Proof.
  intros Hnd Hfind Hex.
  rewrite (manual_closePosition_found st posId st pos Hfind).
  unfold ManualStats.totalValue.
  match goal with
  | |- _ + ManualStats.positionsValue ?s == _ =>
      change (ManualStats.positionsValue s)
        with (total (fun pos => ManualStats.currentPrice s pos
                                * Position.quantity pos * EUR_RATE) (positions s));
      change (ManualStats.positionsValue st)
        with (total (fun pos => ManualStats.currentPrice st pos
                                * Position.quantity pos * EUR_RATE) (positions st))
  end.
  cbn [balance positions setTrades setPositions setBalance].
  assert (Hcur : forall p,
            ManualStats.currentPrice
              (setPositions
                 (fun prev => List.filter (fun q => negb (Z.eqb (Position.id q) posId)) prev)
                 (setTrades
                    (fun t => Trade.mk pos "CLOSED"
                                (Some (or_else (Token.price <$>
                                         find (fun t0 => String.eqb (Token.symbol t0)
                                                           (Position.symbol pos))
                                              (tokens st))
                                       (Position.entryPrice pos)))
                                (Some ((or_else (Token.price <$>
                                          find (fun t0 => String.eqb (Token.symbol t0)
                                                            (Position.symbol pos))
                                               (tokens st))
                                        (Position.entryPrice pos)
                                        - Position.entryPrice pos)
                                       * Position.quantity pos * EUR_RATE)) :: t)
                    (setBalance
                       (fun b => b + Position.valueEUR pos
                                 + (or_else (Token.price <$>
                                       find (fun t0 => String.eqb (Token.symbol t0)
                                                         (Position.symbol pos))
                                            (tokens st))
                                     (Position.entryPrice pos)
                                     - Position.entryPrice pos)
                                   * Position.quantity pos * EUR_RATE) st))) p
            = ManualStats.currentPrice st p) by reflexivity.
  rewrite (total_ext _ (fun p => ManualStats.currentPrice st p * Position.quantity p * EUR_RATE))
    by (apply Forall_forall; intros p _; rewrite Hcur; reflexivity).
  rewrite (total_filter_unique_gen _ posId _ pos Hnd Hfind).
  fold (ManualStats.currentPrice st pos).
  unfold manual_exact in Hex. rewrite <- Hex. ring.
Qed.

Lemma X26_close_keeps_total_value_witness :
  let st := run Scenario.manual_buy init in
  ManualStats.totalValue (closePosition st 2 st) == ManualStats.totalValue st.
Proof.
  intros st.
  apply (X26_close_keeps_total_value st 2%Z
           (Position.mk 2 "SOL" 100 (min 100 (1000 * (1 # 10)) / EUR_RATE / 100)
              (min 100 (1000 * (1 # 10))) (100 * (1 - STOP_LOSS))
              (100 * (1 + TAKE_PROFIT)) 2)).
  - vm_compute. repeat constructor. intros H. inversion H.
  - reflexivity.
  - reflexivity.
Defined.

End ManualValue.

(** ** The bot as it is wired *)

Section AutoWiring.

Import Num Auto Inv.

Lemma run_closures_stopped es :
  forall c, auto_closures_stopped c -> auto_closures_stopped (run es c).
Proof.
  induction es as [|e es IH]; intros c Hc; [exact Hc|].
  cbn [run fold_left]. apply IH, step_closures_stopped, Hc.
Qed.

(** X27.  As the component is wired, the bot never opens or closes a
    position.  Every [fetchPrices] the component calls belongs to the first
    render (the mount effect) or to a render in which the start button was
    pressed while the bot was stopped ([toggleBot]), so the [isRunning] it
    reads is false: whatever the events and the quotes, the balance stays
    1000 and there is no position and no trade.  This is so also while the
    component shows a running bot and a BUY signal: after the start button
    and fifteen ticks in which SOL falls, the bot is shown running, SOL
    signals BUY, and nothing is held; the same answers handled by the
    [fetchPrices] of a render in which the bot runs buy SOL. *)
Theorem X27_wired_bot_never_trades :
  (forall es r,
     mountCall (run es mounted) = Some r \/ interval (run es mounted) = Some r ->
     isRunning r = false) /\
  (forall es,
     balance (state (run es mounted)) = CONFIG.INITIAL_BALANCE /\
     positions (state (run es mounted)) = [] /\
     trades (state (run es mounted)) = []) /\
  (let c := run Scenario.auto_dip_events mounted in
   isRunning (state c) = true /\
   (fun t => (Token.symbol t, Token.signal t)) <$> head (tokens (state c))
   = Some ("SOL"%string, BUY) /\
   positions (state c) = [] /\
   map Position.symbol (positions (calls Scenario.auto_dip init)) = ["SOL"%string]).
Proof.
  split; [|split].
  - intros es r Hr.
    destruct (run_closures_stopped es mounted mounted_closures_stopped) as [Hm Hi].
    destruct Hr as [Hr | Hr]; [apply Hm | apply Hi]; exact Hr.
  - apply run_never_trades.
  - intros c. split; [vm_compute; reflexivity|]. split; [vm_compute; reflexivity|].
    split; [apply run_never_trades | vm_compute; reflexivity].
Qed.

End AutoWiring.
